(** * potfit: tabulated potential input (format 3), the CASTEP converter
    and the build script

    A shallow embedding of [potential_input_f3.c] ([read_pot_table3],
    [init_calc_table3]), of the [castep2force] script and of
    [extend_source_files] of the [wscript], with the properties of the
    potential table model, of the force file writer and of the source
    lists that are stated about them. *)

From Stdlib Require Import ZArith Lia Uint63 Floats QArith Qround Qpower.
From Stdlib Require Import Ascii String.
From stdpp Require Import base option list strings sorting sets gmap.

Open Scope Z_scope.

#[local] Set Warnings "-inexact-float,-register-all".

(** ** potential_input_f3.c *)

Module Table3.

(** *** Data model *)

(** A pointer is the address of a buffer in the store; the element a
    program reaches through it is selected by an index. *)
Abbreviation ptr := nat (only parsing).

(** [pot_table_t]: three [int] scalars and ten array pointers. *)
Record pot_table_t : Type := mk_pot_table {
  len : Z;
  idxlen : Z;
  ncols : Z;
  begin : ptr;
  end_ : ptr;
  step : ptr;
  invstep : ptr;
  first : ptr;
  last : ptr;
  xcoord : ptr;
  table : ptr;
  d2tab : ptr;
  idx : ptr
}.

(** A buffer cell is [None] until the program has written it. *)
Abbreviation buffers A := (list (list (option A))) (only parsing).

(** The globals the reader touches: [g_pot] (both tables, the invariant
    flags and the gradient flag words), [g_calc.paircol],
    [g_param.ntypes], and the store of [double] and of [int] buffers. *)
Record state : Type := mk_state {
  opt_pot : pot_table_t;
  calc_pot : pot_table_t;
  invar_pot : list Z;
  gradient : list Z;
  paircol : Z;
  ntypes : Z;
  dmem : buffers float;
  imem : buffers Z
}.

(** The fields of [potential_state] the reader uses. *)
Record potential_state : Type := mk_potential_state {
  num_pots : Z;
  filename : string;
  have_gradient : bool
}.

(** The preprocessor symbols the function body branches on. With [MEAMf]
    the second-pair loop tests the bare name [invar_pot], which nothing
    the function sees declares: as it stands the function compiles only
    without MEAMf. The branch is kept, read as [g_pot.invar_pot], so that
    the loop is embedded whole. *)
Record config : Type := mk_config {
  EAM : bool;
  ADP : bool;
  MEAM : bool;
  TBEAM : bool;
  RESCALE : bool;
  MEAMf : bool
}.

(** The nine kinds of function, one per input loop of the source. *)
Inductive kind : Type :=
| Pair | Rho | Embed | SRho | SEmbed | DipoleU | QuadW | SecondPair | Angular.

(** Where a premature end of the file was met. The angular gradient
    message of the source receives no function index. *)
Inductive place : Type :=
| InfoBlock (line : Z)
| GradientLine (κ : kind) (pot : option Z)
| ValueLine (κ : kind) (pot line : Z).

(** What [error(1, ...)] reports before it ends the run. *)
Inductive diag : Type :=
| PrematureEnd (file : string) (at_ : place)
| InsufficientSampling (b e : float).

(** The potential file from the read position on, one entry per
    whitespace-separated word. A conversion of [fscanf] skips the white
    space before a word and takes the longest prefix of the word that is a
    number of its kind; what is left of the word stays in the stream. So
    the word [2.5abc] gives [%lf] the number 2.5 and leaves [abc], and it
    gives [%d] the number 2 and leaves [.5abc]. A word is recorded as what
    each of the two conversions makes of it: nothing when no prefix of the
    word is such a number, else the number and the word that is left, if
    any. *)
Inductive token : Type :=
  mk_token (as_double : option (float * option token))
           (as_int : option (Z * option token)).

Definition as_double (t : token) : option (float * option token) :=
  match t with mk_token d _ => d end.

Definition as_int (t : token) : option (Z * option token) :=
  match t with mk_token _ n => n end.

(** The stream once a conversion has taken its prefix of the first
    word. *)
Definition after (part : option token) (rest : list token) : list token :=
  match part with
  | Some t => t :: rest
  | None => rest
  end.

(** What a [%lf] and a [%d] conversion find at the head of the stream. *)
Definition scan_double (f : list token) : option (float * list token) :=
  match f with
  | t :: rest =>
      match as_double t with
      | Some (x, part) => Some (x, after part rest)
      | None => None
      end
  | [] => None
  end.

Definition scan_int (f : list token) : option (Z * list token) :=
  match f with
  | t :: rest =>
      match as_int t with
      | Some (n, part) => Some (n, after part rest)
      | None => None
      end
  | [] => None
  end.

(** The local variables of the input loops: [val] (as an offset from
    [pt->table]), [k] and [l]. *)
Record cursor : Type := mk_cursor { val : Z; k : Z; l : Z }.

(** *** Field updates *)

Definition set_len (v : Z) (p : pot_table_t) : pot_table_t :=
  mk_pot_table v (idxlen p) (ncols p) (begin p) (end_ p) (step p) (invstep p)
    (first p) (last p) (xcoord p) (table p) (d2tab p) (idx p).

Definition set_idxlen (v : Z) (p : pot_table_t) : pot_table_t :=
  mk_pot_table (len p) v (ncols p) (begin p) (end_ p) (step p) (invstep p)
    (first p) (last p) (xcoord p) (table p) (d2tab p) (idx p).

Definition set_xcoord (a : ptr) (p : pot_table_t) : pot_table_t :=
  mk_pot_table (len p) (idxlen p) (ncols p) (begin p) (end_ p) (step p) (invstep p)
    (first p) (last p) a (table p) (d2tab p) (idx p).

Definition set_table (a : ptr) (p : pot_table_t) : pot_table_t :=
  mk_pot_table (len p) (idxlen p) (ncols p) (begin p) (end_ p) (step p) (invstep p)
    (first p) (last p) (xcoord p) a (d2tab p) (idx p).

Definition set_d2tab (a : ptr) (p : pot_table_t) : pot_table_t :=
  mk_pot_table (len p) (idxlen p) (ncols p) (begin p) (end_ p) (step p) (invstep p)
    (first p) (last p) (xcoord p) (table p) a (idx p).

Definition set_idx (a : ptr) (p : pot_table_t) : pot_table_t :=
  mk_pot_table (len p) (idxlen p) (ncols p) (begin p) (end_ p) (step p) (invstep p)
    (first p) (last p) (xcoord p) (table p) (d2tab p) a.

Definition set_opt_pot (p : pot_table_t) (s : state) : state :=
  mk_state p (calc_pot s) (invar_pot s) (gradient s) (paircol s) (ntypes s)
    (dmem s) (imem s).

Definition set_calc_pot (p : pot_table_t) (s : state) : state :=
  mk_state (opt_pot s) p (invar_pot s) (gradient s) (paircol s) (ntypes s)
    (dmem s) (imem s).

Definition set_dmem (m : buffers float) (s : state) : state :=
  mk_state (opt_pot s) (calc_pot s) (invar_pot s) (gradient s) (paircol s)
    (ntypes s) m (imem s).

Definition set_imem (m : buffers Z) (s : state) : state :=
  mk_state (opt_pot s) (calc_pot s) (invar_pot s) (gradient s) (paircol s)
    (ntypes s) (dmem s) m.

(** *** Store access *)

(** The content of element [i] of the buffer at [a]; [None] when the
    address or the index is outside the store or the cell was never
    written. *)
Definition cell {A : Type} (m : buffers A) (a : ptr) (i : Z) : option A :=
  if i <? 0 then None
  else match m !! a with
       | Some b => match b !! Z.to_nat i with
                   | Some c => c
                   | None => None
                   end
       | None => None
       end.

(** Writing element [i] of the buffer at [a]; [None] outside the store. *)
Definition store {A : Type} (m : buffers A) (a : ptr) (i : Z) (v : A)
  : option (buffers A) :=
  if i <? 0 then None
  else match m !! a with
       | Some b =>
           if (Z.to_nat i <? length b)%nat
           then Some (<[a := <[Z.to_nat i := Some v]> b]> m)
           else None
       | None => None
       end.

(** *** Results and the reader's monad *)

(** A computation ends with a value, with the fatal [error(1, ...)], or
    with behaviour C leaves undefined (a signed overflow, an access outside
    a buffer, a read of an unwritten cell). *)
Inductive outcome (A : Type) : Type :=
| Ok (a : A)
| Fatal (d : diag)
| Undefined.
Arguments Ok {A} a.
Arguments Fatal {A} d.
Arguments Undefined {A}.

(** The file position together with the globals. *)
Definition world : Type := list token * state.

Definition M (A : Type) : Type := world -> outcome (A * world).

Definition ret {A : Type} (a : A) : M A := fun w => Ok (a, w).

Definition bind {A B : Type} (m : M A) (f : A -> M B) : M B :=
  fun w => match m w with
           | Ok (a, w') => f a w'
           | Fatal d => Fatal d
           | Undefined => Undefined
           end.

Declare Scope reader_scope.
Delimit Scope reader_scope with reader.
Notation "x <- c1 ;; c2" := (bind c1 (fun x => c2))
  (at level 100, c1 at next level, right associativity) : reader_scope.
Notation "c1 ;;; c2" := (bind c1 (fun _ => c2))
  (at level 100, right associativity) : reader_scope.
Open Scope reader_scope.

Definition error1 {A : Type} (d : diag) : M A := fun _ => Fatal d.

Definition undefined {A : Type} : M A := fun _ => Undefined.

(** Reading the globals; [None] is undefined behaviour. *)
Definition gets {A : Type} (f : state -> option A) : M A :=
  fun w => match f w.2 with
           | Some a => Ok (a, w)
           | None => Undefined
           end.

(** Updating the globals; [None] is undefined behaviour. *)
Definition modify (f : state -> option state) : M unit :=
  fun w => match f w.2 with
           | Some s => Ok (tt, (w.1, s))
           | None => Undefined
           end.

Definition of_option {A : Type} (o : option A) : M A := gets (fun _ => o).

Definition INT_MIN : Z := - 2 ^ 31.
Definition INT_MAX : Z := 2 ^ 31 - 1.

Definition in_int (z : Z) : bool := (INT_MIN <=? z) && (z <=? INT_MAX).

(** The result of an [int] operation: undefined when it overflows. *)
Definition int_of (z : Z) : M Z :=
  if in_int z then ret z else undefined.

(** The conversion of an [int] to [double]. *)
Definition double_of_int (z : Z) : float :=
  if z <? 0 then PrimFloat.opp (PrimFloat.of_uint63 (Uint63.of_Z (- z)))
  else PrimFloat.of_uint63 (Uint63.of_Z z).

Definition get_pt : M pot_table_t := gets (fun s => Some (opt_pot s)).

Definition dload (a : ptr) (i : Z) : M float :=
  gets (fun s => cell (dmem s) a i).

Definition dstore (a : ptr) (i : Z) (v : float) : M unit :=
  modify (fun s => match store (dmem s) a i v with
                   | Some m => Some (set_dmem m s)
                   | None => None
                   end).

Definition iload (a : ptr) (i : Z) : M Z :=
  gets (fun s => cell (imem s) a i).

Definition istore (a : ptr) (i : Z) (v : Z) : M unit :=
  modify (fun s => match store (imem s) a i v with
                   | Some m => Some (set_imem m s)
                   | None => None
                   end).

(** An element of an [int] array held by value ([g_pot.invar_pot],
    [g_pot.gradient]). *)
Definition array_get (f : state -> list Z) (i : Z) : M Z :=
  gets (fun s => if i <? 0 then None else f s !! Z.to_nat i).

(** The variable-length local array [nvals]. *)
Definition vla_get (nvals : list (option Z)) (i : Z) : M Z :=
  of_option (if i <? 0 then None
             else match nvals !! Z.to_nat i with
                  | Some c => c
                  | None => None
                  end).

Definition vla_set (nvals : list (option Z)) (i : Z) (v : Z)
  : M (list (option Z)) :=
  of_option (if i <? 0 then None
             else if (Z.to_nat i <? length nvals)%nat
                  then Some (<[Z.to_nat i := Some v]> nvals)
                  else None).

(** [Malloc(n * sizeof(T))]: a new buffer of [n] unwritten cells. A
    negative [n] is a size the allocator is never asked for in a defined
    run. *)
Definition Malloc_double (n : Z) : M ptr :=
  if n <? 0 then undefined
  else fun w =>
         Ok (length (dmem w.2),
             (w.1, set_dmem (dmem w.2 ++ [replicate (Z.to_nat n) None]) w.2)).

Definition Malloc_int (n : Z) : M ptr :=
  if n <? 0 then undefined
  else fun w =>
         Ok (length (imem w.2),
             (w.1, set_imem (imem w.2 ++ [replicate (Z.to_nat n) None]) w.2)).

(** [fscanf(pfile, "%lf")]: the converted word, or [None] when fewer
    items were matched than asked for. *)
Definition fscanf_lf : M (option float) :=
  fun w => match scan_double w.1 with
           | Some (x, rest) => Ok (Some x, (rest, w.2))
           | None => Ok (None, w)
           end.

(** [fscanf(pfile, "%d")]: a number that does not fit an [int] is
    converted with no defined result. *)
Definition fscanf_d : M (option Z) :=
  fun w => match scan_int w.1 with
           | Some (n, rest) => if in_int n then Ok (Some n, (rest, w.2))
                               else Undefined
           | None => Ok (None, w)
           end.

(** [fscanf(pfile, "%lf %lf")] *)
Definition fscanf_lf_lf : M (option (float * float)) :=
  r0 <- fscanf_lf;;
  match r0 with
  | None => ret None
  | Some x0 =>
      r1 <- fscanf_lf;;
      match r1 with
      | None => ret None
      | Some x1 => ret (Some (x0, x1))
      end
  end.

(** [fscanf(pfile, "%lf %lf %d")] *)
Definition fscanf_lf_lf_d : M (option (float * float * Z)) :=
  r <- fscanf_lf_lf;;
  match r with
  | None => ret None
  | Some (x0, x1) =>
      r2 <- fscanf_d;;
      match r2 with
      | None => ret None
      | Some n => ret (Some (x0, x1, n))
      end
  end.

(** [for (i = lo; i < lo + cnt; i++) acc = body(i, acc)] *)
Fixpoint for_from {L : Type} (lo : Z) (cnt : nat) (body : Z -> L -> M L)
  (acc : L) : M L :=
  match cnt with
  | O => ret acc
  | S cnt' => acc' <- body lo acc;; for_from (lo + 1) cnt' body acc'
  end.

(** *** The info block *)

(** One turn of the first loop of [read_pot_table3]. *)
Definition read_info_line (ps : potential_state) (i : Z)
  (nvals : list (option Z)) : M (list (option Z)) :=
  pt <- get_pt;;
  r <- fscanf_lf_lf_d;;
  match r with
  | None => error1 (PrematureEnd (filename ps) (InfoBlock i))
  | Some (b, e, n) =>
      dstore (begin pt) i b;;;
      dstore (end_ pt) i e;;;
      nvals <- vla_set nvals i n;;
      e_i <- dload (end_ pt) i;;
      b_i <- dload (begin pt) i;;
      n_i <- vla_get nvals i;;
      m <- int_of (n_i - 1);;
      dstore (step pt) i (PrimFloat.div (PrimFloat.sub e_i b_i) (double_of_int m));;;
      s_i <- dload (step pt) i;;
      dstore (invstep pt) i (PrimFloat.div 1 s_i);;;
      (if i =? 0 then istore (first pt) i 2
       else (p <- iload (last pt) (i - 1);;
             f <- int_of (p + 3);;
             istore (first pt) i f));;;
      f_i <- iload (first pt) i;;
      t <- int_of (f_i + n_i);;
      t <- int_of (t - 1);;
      istore (last pt) i t;;;
      f_i <- iload (first pt) i;;
      t <- int_of (f_i + n_i);;
      modify (fun s => Some (set_opt_pot (set_len t (opt_pot s)) s));;;
      ret nvals
  end.

Definition read_info_block (ps : potential_state) : M (list (option Z)) :=
  for_from 0 (Z.to_nat (num_pots ps)) (read_info_line ps)
    (replicate (Z.to_nat (num_pots ps)) None).

(** The four allocations that follow the info block. *)
Definition allocate_tables : M unit :=
  pt <- get_pt;;
  a <- Malloc_double (len pt);;
  modify (fun s => Some (set_opt_pot (set_table a (opt_pot s)) s));;;
  pt <- get_pt;;
  a <- Malloc_double (len pt);;
  modify (fun s => Some (set_opt_pot (set_xcoord a (opt_pot s)) s));;;
  pt <- get_pt;;
  a <- Malloc_double (len pt);;
  modify (fun s => Some (set_opt_pot (set_d2tab a (opt_pot s)) s));;;
  pt <- get_pt;;
  a <- Malloc_int (len pt);;
  modify (fun s => Some (set_opt_pot (set_idx a (opt_pot s)) s)).

(** *** The input loops *)

(** The gradient pair stored when the file carries none. *)
Definition default_gradient (κ : kind) : float * float :=
  match κ with
  | Pair | Rho | SRho | DipoleU | SecondPair => (1e30, 0)%float
  | Embed | SEmbed | QuadW => (1e30, 1e30)%float
  | Angular => (0, 0)%float
  end.

(** The function index the gradient message is given. *)
Definition gradient_place (κ : kind) (i : Z) : place :=
  match κ with
  | Angular => GradientLine κ None
  | _ => GradientLine κ (Some i)
  end.

(** The second operand of the test that guards [pt->idx[k++] = l++] in
    the value loop: [j < nvals[i] - 1] for most kinds, nothing for the
    embedding and angular functions, and the clamp of the first knot of
    the first second-pair function (nothing under MEAMf, where the test
    is [!invar_pot[i]] alone). *)
Definition sample_rule (c : config) (P N : Z) (κ : kind) (i n j : Z) : bool :=
  match κ with
  | Pair | Rho | SRho | DipoleU | QuadW => j <? n - 1
  | Embed | SEmbed | Angular => true
  | SecondPair =>
      if MEAMf c then true
      else (j <? n - 1) && (negb (j =? 0) || negb (i =? P + 2 * N))
  end.

(** [if (free) pt->idx[k++] = l++; else l++;] *)
Definition take_slot (free : bool) (cur : cursor) : M cursor :=
  if free then
    pt <- get_pt;;
    istore (idx pt) (k cur) (l cur);;;
    k' <- int_of (k cur + 1);;
    l' <- int_of (l cur + 1);;
    ret (mk_cursor (val cur) k' l')
  else
    l' <- int_of (l cur + 1);;
    ret (mk_cursor (val cur) (k cur) l').

(** [(!g_pot.invar_pot[i]) && (f(g_pot.gradient[i]))] *)
Definition gradient_is_free (f : Z -> Z) (i : Z) : M bool :=
  inv <- array_get invar_pot i;;
  if inv =? 0 then
    g <- array_get gradient i;;
    ret (negb (f g =? 0))
  else ret false.

(** The gauge check that opens the embedding loop unless RESCALE is
    defined. *)
Definition check_embedding (c : config) (κ : kind) (i : Z) : M unit :=
  match κ with
  | Embed =>
      if RESCALE c then ret tt
      else
        pt <- get_pt;;
        b <- dload (begin pt) i;;
        if PrimFloat.ltb 1 b then
          e <- dload (end_ pt) i;;
          error1 (InsufficientSampling b e)
        else
          e <- dload (end_ pt) i;;
          if PrimFloat.ltb e 1 then error1 (InsufficientSampling b e)
          else ret tt
  | _ => ret tt
  end.

(** One turn of a value loop. *)
Definition read_value (c : config) (ps : potential_state)
  (nvals : list (option Z)) (κ : kind) (i : Z) (j : Z) (cur : cursor)
  : M cursor :=
  pt <- get_pt;;
  r <- fscanf_lf;;
  match r with
  | None => error1 (PrematureEnd (filename ps) (ValueLine κ i j))
  | Some v =>
      dstore (table pt) (val cur) v;;;
      let cur := mk_cursor (val cur + 1) (k cur) (l cur) in
      b_i <- dload (begin pt) i;;
      s_i <- dload (step pt) i;;
      dstore (xcoord pt) (l cur)
        (PrimFloat.add b_i (PrimFloat.mul (double_of_int j) s_i));;;
      inv <- array_get invar_pot i;;
      n_i <- vla_get nvals i;;
      P <- gets (fun s => Some (paircol s));;
      N <- gets (fun s => Some (ntypes s));;
      take_slot ((inv =? 0) && sample_rule c P N κ i n_i j) cur
  end.

(** The gradient pair of a function: read into [val[0]] and [val[1]]
    when the file carries gradients, set to the defaults otherwise. *)
Definition read_gradient (ps : potential_state) (κ : kind) (i : Z)
  (cur : cursor) : M unit :=
  pt <- get_pt;;
  if have_gradient ps then
    r <- fscanf_lf_lf;;
    match r with
    | None => error1 (PrematureEnd (filename ps) (gradient_place κ i))
    | Some (g0, g1) =>
        dstore (table pt) (val cur) g0;;;
        dstore (table pt) (val cur + 1) g1
    end
  else
    dstore (table pt) (val cur) (default_gradient κ).1;;;
    dstore (table pt) (val cur + 1) (default_gradient κ).2.

(** The body of each of the nine loops over the function index [i]. *)
Definition read_function (c : config) (ps : potential_state)
  (nvals : list (option Z)) (κ : kind) (i : Z) (cur : cursor) : M cursor :=
  check_embedding c κ i;;;
  read_gradient ps κ i cur;;;
  let cur := mk_cursor (val cur + 2) (k cur) (l cur) in
  free <- gradient_is_free (fun g => Z.shiftr g 1) i;;
  cur <- take_slot free cur;;
  free <- gradient_is_free (fun g => Z.rem g 2) i;;
  cur <- take_slot free cur;;
  n_i <- vla_get nvals i;;
  for_from 0 (Z.to_nat n_i) (read_value c ps nvals κ i) cur.

(** The loops the preprocessor keeps, in source order, each with its
    kind and the bounds of its function index. *)
Definition blocks (c : config) (P N : Z) : list (kind * Z * Z) :=
  [(Pair, 0, P)]
  ++ (if EAM c || ADP c || MEAM c then
        [(Rho, P, P + N); (Embed, P + N, P + 2 * N)]
        ++ (if TBEAM c then
              [(SRho, P + 2 * N, P + 3 * N); (SEmbed, P + 3 * N, P + 4 * N)]
            else [])
      else [])
  ++ (if ADP c then
        [(DipoleU, P + 2 * N, 2 * (P + N));
         (QuadW, 2 * (P + N), 3 * P + 2 * N)]
      else [])
  ++ (if MEAM c then
        [(SecondPair, P + 2 * N, 2 * P + 2 * N);
         (Angular, 2 * P + 2 * N, 2 * P + 3 * N)]
      else []).

Fixpoint read_blocks (c : config) (ps : potential_state)
  (nvals : list (option Z)) (bl : list (kind * Z * Z)) (cur : cursor)
  : M cursor :=
  match bl with
  | [] => ret cur
  | (κ, lo, hi) :: bl' =>
      cur <- for_from lo (Z.to_nat (hi - lo)) (read_function c ps nvals κ) cur;;
      read_blocks c ps nvals bl' cur
  end.

(** [init_calc_table3] *)
Definition init_calc_table3 : M unit :=
  modify (fun s =>
    let o := opt_pot s in
    Some (set_calc_pot
            (mk_pot_table (len o) (idxlen o) (ncols o) (begin o) (end_ o)
               (step o) (invstep o) (first o) (last o) (xcoord o) (table o)
               (d2tab o) (idx o)) s)).

(** [read_pot_table3] for a tabulated model (neither APOT nor KIM). *)
Definition read_pot_table3 (c : config) (ps : potential_state) : M unit :=
  nvals <- read_info_block ps;;
  allocate_tables;;;
  P <- gets (fun s => Some (paircol s));;
  N <- gets (fun s => Some (ntypes s));;
  cur <- read_blocks c ps nvals (blocks c P N) (mk_cursor 0 0 0);;
  modify (fun s => Some (set_opt_pot (set_idxlen (k cur) (opt_pot s)) s));;;
  init_calc_table3.

(** *** What the info block declares *)

(** What the conversions of [fscanf(pfile, "%lf %lf %d")] find at the
    head of the stream: a header line and the stream after it. *)
Definition scan_line (f : list token)
  : option (float * float * Z * list token) :=
  match scan_double f with
  | Some (b, f1) =>
      match scan_double f1 with
      | Some (e, f2) =>
          match scan_int f2 with
          | Some (m, f3) => Some (b, e, m, f3)
          | None => None
          end
      | None => None
      end
  | None => None
  end.

(** The first [n] header lines of the file, with the stream that follows
    them. *)
Fixpoint header_scan (n : nat) (f : list token)
  : option (list (float * float * Z) * list token) :=
  match n with
  | O => Some ([], f)
  | S n' =>
      match scan_line f with
      | Some (h, f') =>
          match header_scan n' f' with
          | Some (hs, rest) => Some (h :: hs, rest)
          | None => None
          end
      | None => None
      end
  end.

(** The stream after the first [n] header lines. *)
Definition header_rest (n : nat) (f : list token) : list token :=
  match header_scan n f with
  | Some (_, rest) => rest
  | None => []
  end.

(** The first [n] header lines of the file: domain start, domain end and
    sample count of each function. *)
Definition header_lines (n : nat) (f : list token)
  : option (list (float * float * Z)) :=
  fst <$> header_scan n f.

(** The buffer length taken by functions with the given sample counts. *)
Definition total (ns : list Z) : Z := foldr (fun n acc => n + 2 + acc) 0 ns.

(** The offset of the first sample of function [i]. *)
Definition first_of (ns : list Z) (i : nat) : Z := 2 + total (take i ns).

(** The step the reader computes from a header line. *)
Definition step_of (h : float * float * Z) : float :=
  PrimFloat.div (PrimFloat.sub h.1.2 h.1.1) (double_of_int (h.2 - 1)).

(** The caller's arrays do not overlap. *)
Record separated (p : pot_table_t) : Prop := mk_separated {
  sep_double : NoDup [begin p; end_ p; step p; invstep p];
  sep_int : first p ≠ last p
}.

(** The globals the info block leaves alone. *)
Definition frame (s s0 : state) : Prop :=
  calc_pot s = calc_pot s0 /\ invar_pot s = invar_pot s0
  /\ gradient s = gradient s0 /\ paircol s = paircol s0
  /\ ntypes s = ntypes s0
  /\ length (dmem s) = length (dmem s0)
  /\ length (imem s) = length (imem s0).

(** What has been recorded for the header lines [hs] read so far. *)
Definition info_done (p : pot_table_t) (hs : list (float * float * Z))
  (nvals : list (option Z)) (s : state) : Prop :=
  forall (t : nat) h, hs !! t = Some h ->
    nvals !! t = Some (Some h.2)
    /\ cell (dmem s) (begin p) (Z.of_nat t) = Some h.1.1
    /\ cell (dmem s) (end_ p) (Z.of_nat t) = Some h.1.2
    /\ cell (dmem s) (step p) (Z.of_nat t) = Some (step_of h)
    /\ cell (dmem s) (invstep p) (Z.of_nat t)
       = Some (PrimFloat.div 1 (step_of h))
    /\ cell (imem s) (first p) (Z.of_nat t) = Some (first_of (hs.*2) t)
    /\ cell (imem s) (last p) (Z.of_nat t)
       = Some (first_of (hs.*2) t + h.2 - 1).

Definition info_inv (N : nat) (f0 : list token) (s0 : state) (i : Z)
  (nvals : list (option Z)) (w : world) : Prop :=
  exists hs,
    header_scan (Z.to_nat i) f0 = Some (hs, w.1)
    /\ length nvals = N
    /\ info_done (opt_pot s0) hs nvals w.2
    /\ opt_pot w.2
       = set_len (if i =? 0 then len (opt_pot s0) else total (hs.*2))
           (opt_pot s0)
    /\ frame w.2 s0.

(** *** The free index and the coordinates, as the tables prescribe them *)

(** The offsets one function contributes to [pt->idx], given its sample
    count [n], its invariant flag [inv], its gradient flag word [g] and the
    offset [start] of its first gradient slot. *)
Definition fn_free (c : config) (P N : Z) (κ : kind) (i n inv g start : Z)
  : list Z :=
  if inv =? 0 then
    (if Z.shiftr g 1 =? 0 then [] else [start])
    ++ (if Z.rem g 2 =? 0 then [] else [start + 1])
    ++ ((fun j => start + 2 + j)
          <$> filter (fun j => sample_rule c P N κ i n j = true) (seqZ 0 n))
  else [].

(** The coordinates one function records: none for the two gradient
    slots, then one per sample. *)
Definition fn_xcoord (b s : float) (n : Z) : list (option float) :=
  [None; None]
  ++ ((fun j => Some (PrimFloat.add b (PrimFloat.mul (double_of_int j) s)))
        <$> seqZ 0 n).

(** The tables the input loops read: header lines, invariant flags and
    gradient flag words. *)
Record tables : Type := mk_tables {
  t_hdr : list (float * float * Z);
  t_invar : list Z;
  t_gradient : list Z
}.

Definition count_at (T : tables) (i : Z) : Z :=
  default 0 ((t_hdr T).*2 !! Z.to_nat i).

Definition invar_at (T : tables) (i : Z) : Z :=
  default 1 (t_invar T !! Z.to_nat i).

Definition gradient_at (T : tables) (i : Z) : Z :=
  default 0 (t_gradient T !! Z.to_nat i).

Definition begin_at (T : tables) (i : Z) : float :=
  default 0%float ((fun h : float * float * Z => h.1.1) <$> t_hdr T !! Z.to_nat i).

Definition end_at (T : tables) (i : Z) : float :=
  default 0%float ((fun h : float * float * Z => h.1.2) <$> t_hdr T !! Z.to_nat i).

Definition step_at (T : tables) (i : Z) : float :=
  default 0%float (step_of <$> t_hdr T !! Z.to_nat i).

(** The functions in the order the loops visit them. *)
Definition visits (bl : list (kind * Z * Z)) : list (kind * Z) :=
  flat_map (fun b : kind * Z * Z => (fun i => (b.1.1, i)) <$> seqZ b.1.2 (b.2 - b.1.2)) bl.

(** The buffer length a visited function takes. *)
Definition span (T : tables) (v : kind * Z) : Z := 2 + Z.max 0 (count_at T v.2).

Fixpoint free_offsets (c : config) (P N : Z) (T : tables)
  (vs : list (kind * Z)) (start : Z) : list Z :=
  match vs with
  | [] => []
  | v :: vs' =>
      fn_free c P N v.1 v.2 (count_at T v.2) (invar_at T v.2)
        (gradient_at T v.2) start
      ++ free_offsets c P N T vs' (start + span T v)
  end.

Fixpoint coordinates (T : tables) (vs : list (kind * Z))
  : list (option float) :=
  match vs with
  | [] => []
  | v :: vs' =>
      fn_xcoord (begin_at T v.2) (step_at T v.2) (count_at T v.2)
      ++ coordinates T vs'
  end.

Definition extent (T : tables) (vs : list (kind * Z)) : Z :=
  foldr (fun v acc => span T v + acc) 0 vs.

(** The length of the buffer at [a]. *)
Definition buflen {A : Type} (m : buffers A) (a : ptr) : option nat :=
  length <$> m !! a.

(** The coordinate recorded at position [q] of a list of slots. *)
Definition slot_at (xs : list (option float)) (q : Z) : option float :=
  match xs !! Z.to_nat q with
  | Some o => o
  | None => None
  end.

(** The state the input loops start from: the info block is recorded and
    the four buffers are allocated, unwritten and apart from the caller's
    arrays. *)
Record allocated (T : tables) (P N : Z) (nvals : list (option Z))
  (s1 : state) : Prop := mk_allocated {
  al_info : info_done (opt_pot s1) (t_hdr T) nvals s1;
  al_nvals : length nvals = length (t_hdr T);
  al_invar : invar_pot s1 = t_invar T;
  al_gradient : gradient s1 = t_gradient T;
  al_paircol : paircol s1 = P;
  al_ntypes : ntypes s1 = N;
  al_len : 0 <= len (opt_pot s1);
  al_tx : table (opt_pot s1) ≠ xcoord (opt_pot s1);
  al_fresh_d :
    t_hdr T ≠ [] ->
    forall a, a ∈ [begin (opt_pot s1); end_ (opt_pot s1); step (opt_pot s1);
                   invstep (opt_pot s1)] ->
              a ≠ table (opt_pot s1) /\ a ≠ xcoord (opt_pot s1);
  al_fresh_i :
    t_hdr T ≠ [] ->
    first (opt_pot s1) ≠ idx (opt_pot s1) /\ last (opt_pot s1) ≠ idx (opt_pot s1);
  al_tlen :
    buflen (dmem s1) (table (opt_pot s1)) = Some (Z.to_nat (len (opt_pot s1)));
  al_xlen :
    buflen (dmem s1) (xcoord (opt_pot s1)) = Some (Z.to_nat (len (opt_pot s1)));
  al_ilen :
    buflen (imem s1) (idx (opt_pot s1)) = Some (Z.to_nat (len (opt_pot s1)));
  al_xnone : forall q, cell (dmem s1) (xcoord (opt_pot s1)) q = None;
  al_inone : forall q, cell (imem s1) (idx (opt_pot s1)) q = None
}.

(** What the input loops have written so far: the offsets [acc] into
    [pt->idx] and the slots [xs] of [pt->xcoord]; everything else is as it
    was when the loops started. *)
Record contents (s1 : state) (acc : list Z) (xs : list (option float))
  (s : state) : Prop := mk_contents {
  ct_pt : opt_pot s = opt_pot s1;
  ct_calc : calc_pot s = calc_pot s1;
  ct_invar : invar_pot s = invar_pot s1;
  ct_gradient : gradient s = gradient s1;
  ct_paircol : paircol s = paircol s1;
  ct_ntypes : ntypes s = ntypes s1;
  ct_idx : forall q, 0 <= q ->
    cell (imem s) (idx (opt_pot s1)) q = acc !! Z.to_nat q;
  ct_xcoord : forall q, 0 <= q ->
    cell (dmem s) (xcoord (opt_pot s1)) q = slot_at xs q;
  ct_dframe : forall a q,
    a ≠ table (opt_pot s1) -> a ≠ xcoord (opt_pot s1) ->
    cell (dmem s) a q = cell (dmem s1) a q;
  ct_iframe : forall a q,
    a ≠ idx (opt_pot s1) -> cell (imem s) a q = cell (imem s1) a q;
  ct_tlen :
    buflen (dmem s) (table (opt_pot s1)) = buflen (dmem s1) (table (opt_pot s1));
  ct_xlen :
    buflen (dmem s) (xcoord (opt_pot s1)) = buflen (dmem s1) (xcoord (opt_pot s1));
  ct_ilen :
    buflen (imem s) (idx (opt_pot s1)) = buflen (imem s1) (idx (opt_pot s1))
}.

(** What holds of a function the loops have read. *)
Definition visit_ok (c : config) (T : tables) (v : kind * Z) : Prop :=
  0 <= v.2 < Z.of_nat (length (t_hdr T))
  /\ (v.1 = Embed -> RESCALE c = false ->
      PrimFloat.ltb 1 (begin_at T v.2) = false
      /\ PrimFloat.ltb (end_at T v.2) 1 = false).

(** The cursor agrees with what has been written. *)
Definition cursor_at (s1 : state) (acc : list Z) (xs : list (option float))
  (cur : cursor) : Prop :=
  val cur = l cur /\ k cur = Z.of_nat (length acc)
  /\ l cur = Z.of_nat (length xs) /\ l cur <= len (opt_pot s1).

(** *** The state the reader returns *)

(** The six caller-provided arrays hold what the header lines [hs] say. *)
Definition info_cells (p : pot_table_t) (hs : list (float * float * Z))
  (s : state) : Prop :=
  forall (t : nat) h, hs !! t = Some h ->
    cell (dmem s) (begin p) (Z.of_nat t) = Some h.1.1
    /\ cell (dmem s) (end_ p) (Z.of_nat t) = Some h.1.2
    /\ cell (dmem s) (step p) (Z.of_nat t) = Some (step_of h)
    /\ cell (dmem s) (invstep p) (Z.of_nat t)
       = Some (PrimFloat.div 1 (step_of h))
    /\ cell (imem s) (first p) (Z.of_nat t) = Some (first_of (hs.*2) t)
    /\ cell (imem s) (last p) (Z.of_nat t)
       = Some (first_of (hs.*2) t + h.2 - 1).

(** The state [read_pot_table3] returns, described by the tables [T] it
    read: [s0] is the state it was called in. *)
Record loaded (c : config) (T : tables) (s0 s' : state) : Prop := mk_loaded {
  ld_begin : begin (opt_pot s') = begin (opt_pot s0);
  ld_end : end_ (opt_pot s') = end_ (opt_pot s0);
  ld_step : step (opt_pot s') = step (opt_pot s0);
  ld_invstep : invstep (opt_pot s') = invstep (opt_pot s0);
  ld_first : first (opt_pot s') = first (opt_pot s0);
  ld_last : last (opt_pot s') = last (opt_pot s0);
  ld_ncols : ncols (opt_pot s') = ncols (opt_pot s0);
  ld_invar : invar_pot s' = invar_pot s0;
  ld_gradient : gradient s' = gradient s0;
  ld_paircol : paircol s' = paircol s0;
  ld_ntypes : ntypes s' = ntypes s0;
  ld_calc : calc_pot s' = opt_pot s';
  ld_len : len (opt_pot s')
           = if decide (t_hdr T = []) then len (opt_pot s0)
             else total ((t_hdr T).*2);
  ld_len_nonneg : 0 <= len (opt_pot s');
  ld_cells : info_cells (opt_pot s') (t_hdr T) s';
  ld_idxlen :
    idxlen (opt_pot s')
    = Z.of_nat (length (free_offsets c (paircol s0) (ntypes s0) T
                          (visits (blocks c (paircol s0) (ntypes s0))) 0));
  ld_idx : forall q, 0 <= q ->
    cell (imem s') (idx (opt_pot s')) q
    = free_offsets c (paircol s0) (ntypes s0) T
        (visits (blocks c (paircol s0) (ntypes s0))) 0 !! Z.to_nat q;
  ld_xcoord : forall q, 0 <= q ->
    cell (dmem s') (xcoord (opt_pot s')) q
    = slot_at (coordinates T (visits (blocks c (paircol s0) (ntypes s0)))) q;
  ld_extent :
    extent T (visits (blocks c (paircol s0) (ntypes s0))) <= len (opt_pot s');
  ld_visits :
    Forall (visit_ok c T) (visits (blocks c (paircol s0) (ntypes s0)))
}.

(** *** Table order *)

(** The blocks follow one another from function [lo] on. *)
Fixpoint chain_end (lo : Z) (bl : list (kind * Z * Z)) : option Z :=
  match bl with
  | [] => Some lo
  | b :: bl' =>
      if (b.1.2 =? lo) && (b.1.2 <=? b.2) then chain_end b.2 bl' else None
  end.

(** At most one of the ADP, MEAM and TBEAM layouts is compiled in. *)
Definition one_model (c : config) : bool :=
  negb (ADP c && MEAM c) && negb (TBEAM c && (ADP c || MEAM c)).

(** The number of functions the input loops read. *)
Definition table_columns (c : config) (P N : Z) : Z :=
  P
  + (if EAM c || ADP c || MEAM c
     then 2 * N + (if TBEAM c then 2 * N else 0) else 0)
  + (if ADP c then 2 * P else 0)
  + (if MEAM c then P + N else 0).

(** *** Inputs to run the reader on *)

(** A word of which only [%lf] converts a prefix, the whole word (such as
    [.5]), and a word that is an integer. *)
Definition word (x : float) : token := mk_token (Some (x, None)) None.
Definition int_word (n : Z) : token :=
  mk_token (Some (double_of_int n, None)) (Some (n, None)).

(** A caller's state for [n] functions: the six arrays allocated and
    unwritten, no other buffer in the store. *)
Definition caller_state (n : nat) (P N : Z) (inv gr : list Z) : state :=
  mk_state
    (mk_pot_table 0 0 (Z.of_nat n) 0 1 2 3 0 1 0 0 0 0)
    (mk_pot_table 0 0 0 0 0 0 0 0 0 0 0 0 0)
    inv gr P N
    (replicate 4 (replicate n None)) (replicate 2 (replicate n None)).

Definition pair_model : config := mk_config false false false false false false.
Definition eam_model : config := mk_config true false false false false false.
Definition meam_model : config := mk_config false false true false false false.

(** Two pair functions with 3 and 2 samples, no gradient line; the
    second has its domain end below its start. *)
Definition pair_file : list token :=
  [word 0; word 1; int_word 3; word 2; word 1; int_word 2;
   word 0.5; word 0.25; word 0.125; word 7; word 8].

Definition pair_call : potential_state := mk_potential_state 2 "pair.pot" false.

(** One pair function with the header [0.0 1.0 2.5] and the one further
    word [7.0abc]: [%d] takes [2] of [2.5] and leaves [.5], and [%lf]
    takes [7.0] of [7.0abc] and leaves [abc]. *)
Definition letters : token := mk_token None None.

Definition prefix_file : list token :=
  [word 0; word 1;
   mk_token (Some (2.5%float, None)) (Some (2, Some (word 0.5)));
   mk_token (Some (7%float, Some letters))
     (Some (7, Some (mk_token (Some (0%float, Some letters)) None)))].

Definition prefix_call : potential_state :=
  mk_potential_state 1 "prefix.pot" false.

Definition prefix_state : state := caller_state 1 1 0 [0] [0].

Definition pair_state : state := caller_state 2 2 0 [0; 0] [3; 1].

Definition pair_header : list (float * float * Z) :=
  [(0%float, 1%float, 3); (2%float, 1%float, 2)].

(** *** What the index holds *)

(** Offset [o] is one of the [pt->idxlen] entries of [pt->idx]. *)
Definition stored (s : state) (o : Z) : Prop :=
  exists q, 0 <= q < idxlen (opt_pot s)
            /\ cell (imem s) (idx (opt_pot s)) q = Some o.

(** The sample points a kind keeps free at the end of its grid, and the
    knot the second pair function pins. *)
Definition keeps_last (c : config) (κ : kind) : bool :=
  match κ with
  | Embed | SEmbed | Angular => true
  | SecondPair => MEAMf c
  | Pair | Rho | SRho | DipoleU | QuadW => false
  end.

Definition clamped (c : config) (P N : Z) (κ : kind) (i j : Z) : bool :=
  match κ with
  | SecondPair => negb (MEAMf c) && (j =? 0) && (i =? P + 2 * N)
  | _ => false
  end.

(** A MEAM table: one pair, transfer, embedding, second-pair and angular
    function, two samples each, no gradient line. *)
Definition meam_file : list token :=
  [int_word 0; int_word 1; int_word 2; int_word 0; int_word 1; int_word 2;
   int_word 0; int_word 1; int_word 2; int_word 0; int_word 1; int_word 2;
   int_word 0; int_word 1; int_word 2;
   word 1; word 1; word 1; word 1; word 1; word 1; word 1; word 1; word 1;
   word 1].

Definition meam_call : potential_state := mk_potential_state 5 "meam.pot" false.

Definition meam_state : state :=
  caller_state 5 1 1 [0; 0; 0; 0; 0] [0; 0; 0; 0; 0].

Definition meam_header : list (float * float * Z) :=
  replicate 5 (0%float, 1%float, 2).

(** *** The slots that are never free *)

(** The slots the scan rule leaves out: those of an invariant function, a
    gradient slot whose flag is off, and a sample point its kind pins. *)
Definition always_fixed (c : config) (P N : Z) (T : tables)
  (vs : list (kind * Z)) (o : Z) : Prop :=
  exists m v s,
    vs !! m = Some v /\ 0 <= s < span T v
    /\ o = extent T (take m vs) + s
    /\ (invar_at T v.2 ≠ 0
        \/ (s = 0 /\ Z.shiftr (gradient_at T v.2) 1 = 0)
        \/ (s = 1 /\ Z.rem (gradient_at T v.2) 2 = 0)
        \/ (2 <= s
            /\ sample_rule c P N v.1 v.2 (count_at T v.2) (s - 2) = false)).

(** An EAM table: pair, transfer and embedding function, two samples
    each on [0, 1]. *)
Definition eam_file : list token :=
  [int_word 0; int_word 1; int_word 2; int_word 0; int_word 1; int_word 2;
   int_word 0; int_word 1; int_word 2;
   word 1; word 1; word 1; word 1; word 1; word 1].

Definition eam_call : potential_state := mk_potential_state 3 "eam.pot" false.

Definition eam_state : state := caller_state 3 1 1 [0; 0; 0] [0; 0; 0].

(** A TBEAM table: pair, transfer and embedding function and their
    s-band companions, two samples each; the s-band embedding function
    is given on [2, 3], the others on [0, 1]. *)
Definition tbeam_model : config := mk_config true false false true false false.

Definition tbeam_file : list token :=
  [int_word 0; int_word 1; int_word 2; int_word 0; int_word 1; int_word 2;
   int_word 0; int_word 1; int_word 2; int_word 0; int_word 1; int_word 2;
   int_word 2; int_word 3; int_word 2;
   word 1; word 1; word 1; word 1; word 1; word 1; word 1; word 1; word 1;
   word 1].

Definition tbeam_call : potential_state :=
  mk_potential_state 5 "tbeam.pot" false.

Definition tbeam_state : state :=
  caller_state 5 1 1 [0; 0; 0; 0; 0] [0; 0; 0; 0; 0].

(** The EAM table with the words [nan nan] for the domain of its
    embedding function. *)
Definition nan_file : list token :=
  [int_word 0; int_word 1; int_word 2; int_word 0; int_word 1; int_word 2;
   word nan; word nan; int_word 2;
   word 1; word 1; word 1; word 1; word 1; word 1].

(** *** Damaged files *)

(** Where reading the fields of the file in their order ends: at the
    place whose field the stream does not have, or behind the last field,
    with what is left of the stream. *)
Inductive scan : Type :=
| Stops (at_ : place)
| Goes (rest : list token).

(** The field at [pl] is a number [%lf] converts, or one [%d] converts. *)
Definition need_double (pl : place) (f : list token) : scan :=
  match scan_double f with
  | Some (_, rest) => Goes rest
  | None => Stops pl
  end.

Definition need_int (pl : place) (f : list token) : scan :=
  match scan_int f with
  | Some (_, rest) => Goes rest
  | None => Stops pl
  end.

Definition and_then (sc1 sc2 : list token -> scan) (f : list token) : scan :=
  match sc1 f with
  | Stops pl => Stops pl
  | Goes rest => sc2 rest
  end.

(** The fields of the turns [lo .. lo + cnt - 1] of a loop. *)
Fixpoint each (lo : Z) (cnt : nat) (sc : Z -> list token -> scan)
  (f : list token) : scan :=
  match cnt with
  | O => Goes f
  | S cnt' => and_then (sc lo) (each (lo + 1) cnt' sc) f
  end.

(** The three fields of header line [i]. *)
Definition locate_line (i : Z) : list token -> scan :=
  and_then (need_double (InfoBlock i))
    (and_then (need_double (InfoBlock i)) (need_int (InfoBlock i))).

(** The fields of function [i]: its gradient pair, when the file has
    gradients, and as many samples as [count] gives it. *)
Definition locate_function (hg : bool) (count : Z -> Z) (κ : kind) (i : Z)
  : list token -> scan :=
  and_then
    (if hg then
       and_then (need_double (GradientLine κ (Some i)))
         (need_double (GradientLine κ (Some i)))
     else Goes)
    (each 0 (Z.to_nat (count i)) (fun j => need_double (ValueLine κ i j))).

Fixpoint locate_blocks (hg : bool) (count : Z -> Z)
  (bl : list (kind * Z * Z)) : list token -> scan :=
  match bl with
  | [] => Goes
  | (κ, lo, hi) :: bl' =>
      and_then (each lo (Z.to_nat (hi - lo)) (locate_function hg count κ))
        (locate_blocks hg count bl')
  end.

(** The first field, in the order of the file, that the file does not
    have: of a header line, or of a gradient or value line of a function
    of the model, with the sample counts the header declares. *)
Definition locate (c : config) (ps : potential_state) (s0 : state)
  (f : list token) : scan :=
  let N := Z.to_nat (num_pots ps) in
  match each 0 N locate_line f with
  | Stops pl => Stops pl
  | Goes rest =>
      let hdr := default [] (header_lines N f) in
      locate_blocks (have_gradient ps)
        (fun i => default 0 (hdr.*2 !! Z.to_nat i))
        (blocks c (paircol s0) (ntypes s0)) rest
  end.

(** The diagnostic for a missing field at [pl0] names [pl]. Of the
    message for the gradient of an angular function only its kind is
    recorded. *)
Definition reports (pl0 pl : place) : Prop :=
  match pl0 with
  | GradientLine Angular _ => exists o, pl = GradientLine Angular o
  | _ => pl = pl0
  end.

(** [m] reads the fields of [sc]: it returns with what [sc] leaves of the
    stream, and its premature-end diagnostic names the file and the place
    where [sc] stops. *)
Definition tracks (fname : string) {A : Type} (m : M A)
  (sc : list token -> scan) : Prop :=
  forall f s,
    match m (f, s) with
    | Ok (_, w') => sc f = Goes w'.1
    | Fatal (PrematureEnd fn pl) =>
        fn = fname /\ exists pl0, sc f = Stops pl0 /\ reports pl0 pl
    | Fatal (InsufficientSampling _ _) => True
    | Undefined => True
    end.

(** What is left of a damaged file at the damage: nothing, or a word of
    which no conversion takes a prefix. *)
Definition unreadable (junk : list token) : Prop :=
  match junk with
  | [] => True
  | t :: _ => as_double t = None /\ as_int t = None
  end.

(** [m], which succeeds on a file [f ++ extra], on the file damaged after
    [f]: it either succeeds in the same way without reaching the damage,
    or ends the run with the premature-end diagnostic. *)
Definition stops_short (fname : string) (extra junk : list token)
  {A : Type} (m : M A) : Prop :=
  forall f s r w',
    m (f ++ extra, s) = Ok (r, w') ->
    (exists f', w'.1 = f' ++ extra
                /\ m (f ++ junk, s) = Ok (r, (f' ++ junk, w'.2)))
    \/ (exists pl, m (f ++ junk, s) = Fatal (PrematureEnd fname pl)).

(** *** The value table *)

(** The numbers [n] conversions [%lf] take from the file, and the stream
    after them. *)
Fixpoint take_doubles (n : nat) (f : list token)
  : option (list float * list token) :=
  match n with
  | O => Some ([], f)
  | S n' =>
      match scan_double f with
      | Some (v, f') =>
          match take_doubles n' f' with
          | Some (vs, r) => Some (v :: vs, r)
          | None => None
          end
      | None => None
      end
  end.

(** What one function puts into the value table: its two gradient
    values, from the file or by default, and its [n] samples. *)
Definition fn_values (hg : bool) (κ : kind) (n : Z) (f : list token)
  : option (list float * list token) :=
  match (if hg then take_doubles 2 f
         else Some ([(default_gradient κ).1; (default_gradient κ).2], f)) with
  | Some (g, f1) =>
      match take_doubles (Z.to_nat n) f1 with
      | Some (vs, f2) => Some (g ++ vs, f2)
      | None => None
      end
  | None => None
  end.

(** The value table of the functions [vs], in their order. *)
Fixpoint table_values (hg : bool) (count : Z -> Z) (vs : list (kind * Z))
  (f : list token) : option (list float * list token) :=
  match vs with
  | [] => Some ([], f)
  | v :: vs' =>
      match fn_values hg v.1 (count v.2) f with
      | Some (seg, f1) =>
          match table_values hg count vs' f1 with
          | Some (rest, f2) => Some (seg ++ rest, f2)
          | None => None
          end
      | None => None
      end
  end.

(** The value table so far holds [tv], the file stands at [f], and no
    buffer but the value table and the coordinates has changed since
    [s1]. *)
Record table_at (s1 : state) (tv : list float) (f : list token)
  (cur : cursor) (w : world) : Prop := mk_table_at {
  ta_pt : opt_pot w.2 = opt_pot s1;
  ta_file : w.1 = f;
  ta_val : val cur = Z.of_nat (length tv);
  ta_cells : forall (q : nat) x,
    tv !! q = Some x ->
    cell (dmem w.2) (table (opt_pot s1)) (Z.of_nat q) = Some x;
  ta_frame : forall a q,
    a ≠ table (opt_pot s1) -> a ≠ xcoord (opt_pot s1) ->
    cell (dmem w.2) a q = cell (dmem s1) a q
}.

(** What the reader leaves of the data buffers, beside the index and the
    coordinates. *)
Record table_loaded (c : config) (ps : potential_state) (T : tables)
  (f0 : list token) (s0 : state) (w' : world) (tv : list float)
  : Prop := mk_table_loaded {
  tl_values :
    table_values (have_gradient ps) (count_at T)
      (visits (blocks c (paircol s0) (ntypes s0)))
      (header_rest (Z.to_nat (num_pots ps)) f0) = Some (tv, w'.1);
  tl_cells : forall (q : nat) x,
    tv !! q = Some x ->
    cell (dmem w'.2) (table (opt_pot w'.2)) (Z.of_nat q) = Some x;
  tl_d2tab : forall q, cell (dmem w'.2) (d2tab (opt_pot w'.2)) q = None;
  tl_table : table (opt_pot w'.2) = length (dmem s0);
  tl_xcoord : xcoord (opt_pot w'.2) = S (length (dmem s0));
  tl_d2 : d2tab (opt_pot w'.2) = S (S (length (dmem s0)));
  tl_idx : idx (opt_pot w'.2) = length (imem s0)
}.

(** ** Properties of the reader *)

(** *** Running the monad *)

Lemma bind_Ok {A B : Type} (m : M A) (f : A -> M B) w r :
  bind m f w = Ok r -> exists a w', m w = Ok (a, w') /\ f a w' = Ok r.
Proof.
  unfold bind. destruct (m w) as [[a w']| |]; try discriminate. eauto.
Qed.

Lemma ret_Ok {A : Type} (a : A) w r : ret a w = Ok r -> r = (a, w).
Proof. unfold ret. congruence. Qed.

Lemma gets_Ok {A : Type} (f : state -> option A) w r :
  gets f w = Ok r -> exists a, f w.2 = Some a /\ r = (a, w).
Proof. unfold gets. destruct (f w.2); [|discriminate]. intros [= <-]. eauto. Qed.

Lemma modify_Ok (f : state -> option state) w r :
  modify f w = Ok r -> exists s, f w.2 = Some s /\ r = (tt, (w.1, s)).
Proof. unfold modify. destruct (f w.2); [|discriminate]. intros [= <-]. eauto. Qed.

Lemma int_of_Ok z w r : int_of z w = Ok r -> in_int z = true /\ r = (z, w).
Proof.
  unfold int_of. destruct (in_int z); [|discriminate].
  intros ->%ret_Ok. done.
Qed.

Lemma get_pt_Ok w r : get_pt w = Ok r -> r = (opt_pot w.2, w).
Proof. unfold get_pt. intros (a & [= <-] & ->)%gets_Ok. done. Qed.

Lemma dload_Ok a i w r :
  dload a i w = Ok r -> exists v, cell (dmem w.2) a i = Some v /\ r = (v, w).
Proof. apply gets_Ok. Qed.

Lemma iload_Ok a i w r :
  iload a i w = Ok r -> exists v, cell (imem w.2) a i = Some v /\ r = (v, w).
Proof. apply gets_Ok. Qed.

Lemma dstore_Ok a i v w r :
  dstore a i v w = Ok r ->
  exists m, store (dmem w.2) a i v = Some m /\ r = (tt, (w.1, set_dmem m w.2)).
Proof.
  unfold dstore. intros (s & Hs & ->)%modify_Ok.
  destruct (store (dmem w.2) a i v) as [m|]; [|discriminate].
  injection Hs as <-. eauto.
Qed.

Lemma istore_Ok a i v w r :
  istore a i v w = Ok r ->
  exists m, store (imem w.2) a i v = Some m /\ r = (tt, (w.1, set_imem m w.2)).
Proof.
  unfold istore. intros (s & Hs & ->)%modify_Ok.
  destruct (store (imem w.2) a i v) as [m|]; [|discriminate].
  injection Hs as <-. eauto.
Qed.

Lemma array_get_Ok f i w r :
  array_get f i w = Ok r ->
  exists v, 0 <= i /\ f w.2 !! Z.to_nat i = Some v /\ r = (v, w).
Proof.
  unfold array_get. intros (v & Hv & ->)%gets_Ok. exists v.
  destruct (Z.ltb_spec i 0); [discriminate|]. done.
Qed.

Lemma vla_get_Ok nvals i w r :
  vla_get nvals i w = Ok r ->
  exists v, 0 <= i /\ nvals !! Z.to_nat i = Some (Some v) /\ r = (v, w).
Proof.
  unfold vla_get, of_option. intros (v & Hv & ->)%gets_Ok. exists v.
  destruct (Z.ltb_spec i 0); [discriminate|].
  destruct (nvals !! Z.to_nat i) as [[?|]|]; try discriminate.
  injection Hv as ->. done.
Qed.

Lemma vla_set_Ok nvals i v w r :
  vla_set nvals i v w = Ok r ->
  0 <= i /\ (Z.to_nat i < length nvals)%nat
  /\ r = (<[Z.to_nat i := Some v]> nvals, w).
Proof.
  unfold vla_set, of_option. intros (x & Hx & ->)%gets_Ok.
  destruct (Z.ltb_spec i 0); [discriminate|].
  destruct (Nat.ltb_spec (Z.to_nat i) (length nvals)); [|discriminate].
  injection Hx as <-. done.
Qed.

(** Decomposing a successful run into its steps. *)
Ltac run1 :=
  match goal with
  | H : bind _ _ _ = Ok _ |- _ =>
      let a := fresh "a" in let w := fresh "w" in let H1 := fresh "Hrun" in
      apply bind_Ok in H as (a & w & H1 & H)
  | H : ret _ _ = Ok _ |- _ => apply ret_Ok in H
  | H : get_pt _ = Ok _ |- _ => apply get_pt_Ok in H
  | H : int_of _ _ = Ok _ |- _ =>
      let Hr := fresh "Hrange" in apply int_of_Ok in H as [Hr H]
  | H : dload _ _ _ = Ok _ |- _ =>
      let v := fresh "v" in let Hc := fresh "Hcell" in
      apply dload_Ok in H as (v & Hc & H)
  | H : iload _ _ _ = Ok _ |- _ =>
      let v := fresh "v" in let Hc := fresh "Hcell" in
      apply iload_Ok in H as (v & Hc & H)
  | H : dstore _ _ _ _ = Ok _ |- _ =>
      let m := fresh "m" in let Hs := fresh "Hstore" in
      apply dstore_Ok in H as (m & Hs & H)
  | H : istore _ _ _ _ = Ok _ |- _ =>
      let m := fresh "m" in let Hs := fresh "Hstore" in
      apply istore_Ok in H as (m & Hs & H)
  | H : array_get _ _ _ = Ok _ |- _ =>
      let v := fresh "v" in let Hi := fresh "Hidx" in let Hl := fresh "Hget" in
      apply array_get_Ok in H as (v & Hi & Hl & H)
  | H : vla_get _ _ _ = Ok _ |- _ =>
      let v := fresh "v" in let Hi := fresh "Hidx" in let Hl := fresh "Hget" in
      apply vla_get_Ok in H as (v & Hi & Hl & H)
  | H : vla_set _ _ _ _ = Ok _ |- _ =>
      let Hi := fresh "Hidx" in let Hl := fresh "Hlen" in
      apply vla_set_Ok in H as (Hi & Hl & H)
  | H : gets _ _ = Ok _ |- _ =>
      let v := fresh "v" in let Hg := fresh "Hget" in
      apply gets_Ok in H as (v & Hg & H)
  | H : modify _ _ = Ok _ |- _ =>
      let s := fresh "s" in let Hm := fresh "Hmod" in
      apply modify_Ok in H as (s & Hm & H)
  | H : error1 _ _ = Ok _ |- _ => discriminate H
  | H : undefined _ = Ok _ |- _ => discriminate H
  | H : (_, _) = (_, _) |- _ => injection H as ? ?
  | H : Some _ = Some _ |- _ => injection H as ?
  end.

(** Projections of updated records. *)
Ltac st_simpl :=
  cbn [dmem imem opt_pot calc_pot invar_pot gradient paircol ntypes
       set_opt_pot set_calc_pot set_dmem set_imem
       len idxlen ncols begin end_ step invstep first last xcoord table
       d2tab idx set_len set_idxlen set_xcoord set_table set_d2tab set_idx
       fst snd val k l] in *.

Ltac run := repeat (run1; subst; st_simpl).

(** *** The store *)

Lemma cell_store {A : Type} (m m' : buffers A) a i v a' i' :
  store m a i v = Some m' ->
  cell m' a' i' = if decide (a' = a /\ i' = i) then Some v else cell m a' i'.
Proof.
  unfold store, cell.
  destruct (Z.ltb_spec i 0); [discriminate|].
  destruct (m !! a) as [b|] eqn:Hb; [|discriminate].
  destruct (Nat.ltb_spec (Z.to_nat i) (length b)); [|discriminate].
  intros [= <-].
  pose proof (lookup_lt_Some _ _ _ Hb) as Ha.
  destruct (decide (a' = a)) as [->|Hne].
  - rewrite list_lookup_insert_eq by done. rewrite Hb.
    destruct (Z.ltb_spec i' 0).
    + case_decide; [lia|done].
    + destruct (decide (i' = i)) as [->|Hi].
      * rewrite list_lookup_insert_eq by done. case_decide; [done|tauto].
      * rewrite list_lookup_insert_ne by lia. case_decide; [tauto|done].
  - rewrite list_lookup_insert_ne by done. case_decide; [tauto|done].
Qed.

Lemma cell_store_eq {A : Type} (m m' : buffers A) a i v :
  store m a i v = Some m' -> cell m' a i = Some v.
Proof. intros H. rewrite (cell_store _ _ _ _ _ _ _ H). by case_decide; [|tauto]. Qed.

Lemma cell_store_ne {A : Type} (m m' : buffers A) a i v a' i' :
  store m a i v = Some m' -> a' ≠ a \/ i' ≠ i -> cell m' a' i' = cell m a' i'.
Proof. intros H ?. rewrite (cell_store _ _ _ _ _ _ _ H). by case_decide; [tauto|]. Qed.

Lemma store_length {A : Type} (m m' : buffers A) a i v :
  store m a i v = Some m' -> length m' = length m.
Proof.
  unfold store. destruct (i <? 0); [discriminate|].
  destruct (m !! a); [|discriminate].
  destruct (_ <? _)%nat; [|discriminate].
  intros [= <-]. by rewrite length_insert.
Qed.

Lemma cell_valid {A : Type} (m : buffers A) a i v :
  cell m a i = Some v -> (a < length m)%nat /\ 0 <= i.
Proof.
  unfold cell. destruct (Z.ltb_spec i 0); [discriminate|].
  destruct (m !! a) eqn:Hb; [|discriminate].
  intros _. split; [by eapply lookup_lt_Some|done].
Qed.

Lemma cell_app {A : Type} (m n : buffers A) a i :
  (a < length m)%nat -> cell (m ++ n) a i = cell m a i.
Proof. intros H. unfold cell. by rewrite lookup_app_l. Qed.

Lemma for_from_inv {L : Type} (Inv : Z -> L -> world -> Prop)
  (body : Z -> L -> M L) (cnt : nat) :
  forall lo acc w acc' w',
  Inv lo acc w ->
  (forall i a v a' v',
     lo <= i < lo + Z.of_nat cnt ->
     Inv i a v -> body i a v = Ok (a', v') -> Inv (i + 1) a' v') ->
  for_from lo cnt body acc w = Ok (acc', w') ->
  Inv (lo + Z.of_nat cnt) acc' w'.
Proof.
  induction cnt as [|cnt IH]; intros lo acc w acc' w' H0 Hstep Hrun; simpl in Hrun.
  - apply ret_Ok in Hrun. injection Hrun as <- <-.
    by replace (lo + Z.of_nat 0) with lo by lia.
  - apply bind_Ok in Hrun as (a & v & Hb & Hrun).
    replace (lo + Z.of_nat (S cnt)) with ((lo + 1) + Z.of_nat cnt) by lia.
    eapply IH; [|intros; eapply Hstep; [lia|done..]|done].
    eapply Hstep; [lia|done..].
Qed.

Lemma fscanf_lf_Ok w r w' :
  fscanf_lf w = Ok (r, w') ->
  (exists x, scan_double w.1 = Some (x, w'.1) /\ r = Some x /\ w'.2 = w.2)
  \/ (scan_double w.1 = None /\ r = None /\ w' = w).
Proof.
  unfold fscanf_lf. destruct (scan_double w.1) as [[x rest]|] eqn:E.
  - intros [= <- <-]. left. by exists x.
  - intros [= <- <-]. by right.
Qed.

Lemma fscanf_d_Ok w r w' :
  fscanf_d w = Ok (r, w') ->
  (exists n, scan_int w.1 = Some (n, w'.1) /\ in_int n = true
             /\ r = Some n /\ w'.2 = w.2)
  \/ (scan_int w.1 = None /\ r = None /\ w' = w).
Proof.
  unfold fscanf_d. destruct (scan_int w.1) as [[n rest]|] eqn:E.
  - destruct (in_int n) eqn:Hr; [|discriminate].
    intros [= <- <-]. left. by exists n.
  - intros [= <- <-]. by right.
Qed.

Lemma fscanf_lf_lf_Ok w r w' :
  fscanf_lf_lf w = Ok (r, w') ->
  (exists x0 x1 f1,
      scan_double w.1 = Some (x0, f1) /\ scan_double f1 = Some (x1, w'.1)
      /\ r = Some (x0, x1) /\ w'.2 = w.2)
  \/ r = None.
Proof.
  unfold fscanf_lf_lf. intros H.
  apply bind_Ok in H as (r0 & w0 & H0 & H).
  apply fscanf_lf_Ok in H0 as [(x0 & Hx0 & -> & Hs0)|(_ & -> & _)].
  - apply bind_Ok in H as (r1 & w1 & H1 & H).
    apply fscanf_lf_Ok in H1 as [(x1 & Hx1 & -> & Hs1)|(_ & -> & _)].
    + apply ret_Ok in H; simplify_eq. left.
      exists x0, x1, w0.1. repeat split; congruence.
    + apply ret_Ok in H; simplify_eq. by right.
  - apply ret_Ok in H; simplify_eq. by right.
Qed.

Lemma fscanf_lf_lf_d_Ok w r w' :
  fscanf_lf_lf_d w = Ok (r, w') ->
  (exists x0 x1 n,
      scan_line w.1 = Some (x0, x1, n, w'.1) /\ in_int n = true
      /\ r = Some (x0, x1, n) /\ w'.2 = w.2)
  \/ r = None.
Proof.
  unfold fscanf_lf_lf_d. intros H.
  apply bind_Ok in H as (r0 & w0 & H0 & H).
  apply fscanf_lf_lf_Ok in H0
    as [(x0 & x1 & f1 & Hx0 & Hx1 & -> & Hs0)| ->].
  - apply bind_Ok in H as (r2 & w2 & H2 & H).
    apply fscanf_d_Ok in H2 as [(n & Hn & Hr & -> & Hs2)|(_ & -> & _)].
    + apply ret_Ok in H; simplify_eq. left.
      exists x0, x1, n. unfold scan_line. rewrite Hx0, Hx1, Hn.
      repeat split; congruence.
    + apply ret_Ok in H; simplify_eq. by right.
  - apply ret_Ok in H; simplify_eq. by right.
Qed.

Lemma header_scan_length n f hs r :
  header_scan n f = Some (hs, r) -> length hs = n.
Proof.
  revert f hs. induction n as [|n IH]; intros f hs; simpl.
  - by intros [= <- _].
  - destruct (scan_line f) as [[h f']|]; [|discriminate].
    destruct (header_scan n f') as [[hs' r']|] eqn:E; [|discriminate].
    intros [= <- ->]. simpl. f_equal. by eapply IH.
Qed.

Lemma header_lines_scan n f hs :
  header_lines n f = Some hs -> header_scan n f = Some (hs, header_rest n f).
Proof.
  unfold header_lines, header_rest.
  by destruct (header_scan n f) as [[hs' r]|]; intros H; simplify_eq/=.
Qed.

Lemma header_scan_lines n f hs r :
  header_scan n f = Some (hs, r) ->
  header_lines n f = Some hs /\ header_rest n f = r.
Proof. unfold header_lines, header_rest. by intros ->. Qed.

Lemma header_lines_length n f hs : header_lines n f = Some hs -> length hs = n.
Proof. intros H%header_lines_scan. by eapply header_scan_length. Qed.

Lemma header_scan_snoc n f hs r h r' :
  header_scan n f = Some (hs, r) ->
  scan_line r = Some (h, r') ->
  header_scan (S n) f = Some (hs ++ [h], r').
Proof.
  revert f hs. induction n as [|n IH]; intros f hs.
  - intros [= <- <-] Hl. simpl. by rewrite Hl.
  - intros H Hl. simpl in H.
    destruct (scan_line f) as [[h0 f']|] eqn:E0; [|discriminate].
    destruct (header_scan n f') as [[hs' r0]|] eqn:E; [|discriminate].
    injection H as <- <-.
    pose proof (IH f' hs' E Hl) as IH1.
    change (header_scan (S (S n)) f)
      with (match scan_line f with
            | Some (h, f') =>
                match header_scan (S n) f' with
                | Some (hs, rest) => Some (h :: hs, rest)
                | None => None
                end
            | None => None
            end).
    by rewrite E0, IH1.
Qed.

Lemma total_app ns ms : total (ns ++ ms) = total ns + total ms.
Proof. induction ns as [|n ns IH]; simpl; lia. Qed.

Lemma first_of_S ns t n :
  ns !! t = Some n -> first_of ns (S t) = first_of ns t + n + 2.
Proof.
  intros H. unfold first_of.
  rewrite (take_S_r _ _ _ H), total_app. simpl. lia.
Qed.

Lemma first_of_app ns ms t :
  (t <= length ns)%nat -> first_of (ns ++ ms) t = first_of ns t.
Proof. intros H. unfold first_of. by rewrite take_app_le. Qed.

Lemma first_of_all ns : first_of ns (length ns) = 2 + total ns.
Proof. unfold first_of. by rewrite firstn_all. Qed.

Lemma separated_neq p :
  separated p ->
  begin p ≠ end_ p /\ begin p ≠ step p /\ begin p ≠ invstep p
  /\ end_ p ≠ step p /\ end_ p ≠ invstep p /\ step p ≠ invstep p
  /\ first p ≠ last p.
Proof.
  intros [Hd Hi].
  repeat match goal with
    | H : _ ∉ _ :: _ |- _ => apply not_elem_of_cons in H as [? H]
    | H : NoDup (_ :: _) |- _ => apply NoDup_cons in H as [? H]
    end.
  repeat split; assumption.
Qed.

(** Reading a cell back through a chain of writes. *)
Ltac cell_side := solve [left; congruence | right; lia].

Ltac cells :=
  repeat match goal with
    | H : store ?m ?a ?i _ = Some ?m' |- context [cell ?m' ?a ?i] =>
        rewrite (cell_store_eq _ _ _ _ _ H)
    | H : store ?m _ _ _ = Some ?m' |- context [cell ?m' ?a ?i] =>
        rewrite (cell_store_ne _ _ _ _ _ a i H) by cell_side
    | H : store ?m ?a ?i _ = Some ?m', H' : context [cell ?m' ?a ?i] |- _ =>
        rewrite (cell_store_eq _ _ _ _ _ H) in H'
    | H : store ?m _ _ _ = Some ?m', H' : context [cell ?m' ?a ?i] |- _ =>
        rewrite (cell_store_ne _ _ _ _ _ a i H) in H' by cell_side
    end.

#[local] Arguments header_lines : simpl never.
#[local] Arguments header_scan : simpl never.

Lemma read_info_line_inv ps N f0 s0 i nvals w nvals' w' :
  separated (opt_pot s0) -> 0 <= i ->
  info_inv N f0 s0 i nvals w ->
  read_info_line ps i nvals w = Ok (nvals', w') ->
  info_inv N f0 s0 (i + 1) nvals' w'.
Proof.
  intros Hsep Hi (hs & Hh & Hlen & Hdone & Hpt & Hfr) Hrun.
  apply separated_neq in Hsep as (? & ? & ? & ? & ? & ? & ?).
  destruct w as [f s]; simpl in *.
  pose proof (header_scan_length _ _ _ _ Hh) as Hhl.
  unfold read_info_line in Hrun.
  apply bind_Ok in Hrun as (pt & w1 & Hg & Hrun).
  apply get_pt_Ok in Hg. simplify_eq/=.
  apply bind_Ok in Hrun as (r & w1 & Hsc & Hrun).
  apply fscanf_lf_lf_d_Ok in Hsc
    as [(b & e & n & Hf0 & Hr & -> & Hs)| ->];
    [|discriminate].
  destruct w1 as [f1 s1]; simpl in *. subst s1.
  pose proof (header_scan_snoc _ _ _ _ _ _ Hh Hf0) as Hd'.
  rewrite Hpt in Hrun. simpl in Hrun.
  revert Hd' Hf0. run.
  rewrite list_lookup_insert_eq in Hget by done. simplify_eq.
  cells. simplify_eq.
  assert (Hfirst : exists m', w9 = (f1, set_imem m'
              (set_dmem m (set_dmem m0 (set_dmem m1 (set_dmem m2 s)))))
            /\ store (imem s) (first (opt_pot s0)) i
                 (first_of (hs.*2) (Z.to_nat i)) = Some m').
  { destruct (Z.eqb_spec i 0) as [->|Hne]; run.
    - eexists; split; [done|]. by destruct hs.
    - eexists; split; [done|].
      destruct (lookup_lt_is_Some_2 hs (Z.to_nat (i - 1))) as [h Hh1]; [lia|].
      destruct (Hdone _ _ Hh1) as (_ & _ & _ & _ & _ & _ & Hc6).
      rewrite Z2Nat.id in Hc6 by lia. st_simpl.
      cells. simplify_eq.
      replace (Z.to_nat i) with (S (Z.to_nat (i - 1))) by lia.
      rewrite (first_of_S _ _ h.2); [|by rewrite list_lookup_fmap, Hh1].
      rewrite <- Hstore4. f_equal. lia. }
  destruct Hfirst as (m' & -> & Hstore'). st_simpl.
  cells. simplify_eq.
  intros Hd' Hf0.
  assert (Hfa : first_of (hs.*2) (Z.to_nat i) = 2 + total (hs.*2)).
  { rewrite <- Hhl, <- (length_fmap snd hs). apply first_of_all. }
  exists (hs ++ [(v0, v1, v4)]). simpl. split_and!.
  - by replace (Z.to_nat (i + 1)) with (S (Z.to_nat i)) by lia.
  - by rewrite length_insert.
  - intros t h Hth. rewrite fmap_app.
    destruct (decide (t < length hs)%nat) as [Hlt|Hge].
    + rewrite lookup_app_l in Hth by done.
      destruct (Hdone t h Hth) as (Hn0 & Hc1 & Hc2 & Hc3 & Hc4 & Hc5 & Hc6).
      rewrite first_of_app by (rewrite length_fmap; lia).
      rewrite list_lookup_insert_ne by lia.
      st_simpl. cells. done.
    + pose proof (lookup_lt_Some _ _ _ Hth) as Hlt.
      rewrite length_app in Hlt. simpl in Hlt.
      assert (t = length hs) as -> by lia.
      rewrite lookup_app_r, Nat.sub_diag in Hth by done. simplify_eq/=.
      rewrite first_of_app by (rewrite length_fmap; lia).
      rewrite Hhl, list_lookup_insert_eq by done.
      rewrite Z2Nat.id by done.
      st_simpl. cells. done.
  - rewrite Hpt. unfold set_len. simpl. f_equal.
    destruct (Z.eqb_spec (i + 1) 0); [lia|].
    rewrite fmap_app, total_app. simpl. lia.
  - destruct Hfr as (? & ? & ? & ? & ? & Hl1 & Hl2).
    unfold frame. simpl. split_and!; try done.
    + rewrite <- Hl1.
      rewrite (store_length _ _ _ _ _ Hstore), (store_length _ _ _ _ _ Hstore0).
      rewrite (store_length _ _ _ _ _ Hstore1). by eapply store_length.
    + rewrite <- Hl2. rewrite (store_length _ _ _ _ _ Hstore3).
      by eapply store_length.
Qed.

Lemma read_info_block_inv ps f0 s0 nvals w :
  separated (opt_pot s0) ->
  read_info_block ps (f0, s0) = Ok (nvals, w) ->
  info_inv (Z.to_nat (num_pots ps)) f0 s0 (Z.of_nat (Z.to_nat (num_pots ps)))
    nvals w.
Proof.
  intros Hsep Hrun. unfold read_info_block in Hrun.
  pose (Inv := fun i nv v =>
          0 <= i /\ info_inv (Z.to_nat (num_pots ps)) f0 s0 i nv v).
  apply (for_from_inv Inv) in Hrun; [apply Hrun| |].
  - split; [done|]. exists []. simpl. split_and!; try done.
    + by rewrite length_replicate.
    + by destruct (opt_pot s0).
  - intros i a v a' v' Hi [H0 HI] Hb. split; [lia|].
    by eapply read_info_line_inv.
Qed.

Lemma store_buflen {A : Type} (m m' : buffers A) a i v a' :
  store m a i v = Some m' -> buflen m' a' = buflen m a'.
Proof.
  unfold store, buflen. destruct (i <? 0); [discriminate|].
  destruct (m !! a) as [b|] eqn:Hb; [|discriminate].
  destruct (_ <? _)%nat; [|discriminate].
  intros [= <-].
  destruct (decide (a' = a)) as [->|Hne].
  - rewrite list_lookup_insert_eq by (by eapply lookup_lt_Some).
    rewrite Hb. simpl. by rewrite length_insert.
  - by rewrite list_lookup_insert_ne.
Qed.

Lemma store_bound {A : Type} (m m' : buffers A) a i v n :
  store m a i v = Some m' -> buflen m a = Some n -> 0 <= i < Z.of_nat n.
Proof.
  unfold store, buflen. destruct (Z.ltb_spec i 0); [discriminate|].
  destruct (m !! a) as [b|] eqn:Hb; [|discriminate].
  destruct (Nat.ltb_spec (Z.to_nat i) (length b)); [|discriminate].
  intros _ [= <-]. lia.
Qed.

Lemma contents_init T P N nvals s1 :
  allocated T P N nvals s1 -> contents s1 [] [] s1.
Proof.
  intros H. split; try done.
  - intros q _. rewrite lookup_nil. apply (al_inone _ _ _ _ _ H).
  - intros q _. unfold slot_at. rewrite lookup_nil. apply (al_xnone _ _ _ _ _ H).
Qed.

Lemma contents_table s1 acc xs s q v m :
  table (opt_pot s1) ≠ xcoord (opt_pot s1) ->
  contents s1 acc xs s ->
  store (dmem s) (table (opt_pot s1)) q v = Some m ->
  contents s1 acc xs (set_dmem m s).
Proof.
  intros Htx [] Hst. split; st_simpl; try done.
  - intros q' Hq'. rewrite (cell_store_ne _ _ _ _ _ _ _ Hst) by auto. auto.
  - intros a q' Ha1 Ha2. rewrite (cell_store_ne _ _ _ _ _ _ _ Hst) by auto. auto.
  - by rewrite (store_buflen _ _ _ _ _ _ Hst).
  - by rewrite (store_buflen _ _ _ _ _ _ Hst).
Qed.

Lemma contents_xcoord s1 acc xs s v m :
  contents s1 acc xs s ->
  store (dmem s) (xcoord (opt_pot s1)) (Z.of_nat (length xs)) v = Some m ->
  contents s1 acc (xs ++ [Some v]) (set_dmem m s).
Proof.
  intros [] Hst. split; st_simpl; try done.
  - intros q Hq. rewrite (cell_store _ _ _ _ _ _ _ Hst). unfold slot_at.
    case_decide as Hd.
    + destruct Hd as [_ ->]. by rewrite Nat2Z.id, list_lookup_middle.
    + rewrite ct_xcoord0 by done. unfold slot_at.
      destruct (decide (Z.to_nat q < length xs)%nat).
      * by rewrite lookup_app_l.
      * rewrite (lookup_ge_None_2 xs) by lia.
        rewrite lookup_app_r by lia.
        destruct (Z.to_nat q - length xs)%nat as [|d] eqn:E; [|done].
        destruct Hd. split; [done|lia].
  - intros a q' Ha1 Ha2. rewrite (cell_store_ne _ _ _ _ _ _ _ Hst) by auto. auto.
  - by rewrite (store_buflen _ _ _ _ _ _ Hst).
  - by rewrite (store_buflen _ _ _ _ _ _ Hst).
Qed.

Lemma contents_skip s1 acc xs s :
  contents s1 acc xs s -> contents s1 acc (xs ++ [None]) s.
Proof.
  intros []. split; try done.
  intros q Hq. rewrite ct_xcoord0 by done. unfold slot_at.
  destruct (decide (Z.to_nat q < length xs)%nat).
  - by rewrite lookup_app_l.
  - rewrite (lookup_ge_None_2 xs) by lia. rewrite lookup_app_r by lia.
    by destruct (Z.to_nat q - length xs)%nat as [|[|d]].
Qed.

Lemma contents_idx s1 acc xs s o m :
  contents s1 acc xs s ->
  store (imem s) (idx (opt_pot s1)) (Z.of_nat (length acc)) o = Some m ->
  contents s1 (acc ++ [o]) xs (set_imem m s).
Proof.
  intros [] Hst. split; st_simpl; try done.
  - intros q Hq. rewrite (cell_store _ _ _ _ _ _ _ Hst).
    case_decide as Hd.
    + destruct Hd as [_ ->]. by rewrite Nat2Z.id, list_lookup_middle.
    + rewrite ct_idx0 by done.
      destruct (decide (Z.to_nat q < length acc)%nat).
      * by rewrite lookup_app_l.
      * rewrite (lookup_ge_None_2 acc) by lia.
        rewrite lookup_app_r by lia.
        destruct (Z.to_nat q - length acc)%nat as [|d] eqn:E; [|done].
        destruct Hd. split; [done|lia].
  - intros a q' Ha. rewrite (cell_store_ne _ _ _ _ _ _ _ Hst) by auto. auto.
  - by rewrite (store_buflen _ _ _ _ _ _ Hst).
Qed.

Lemma take_slot_spec s1 acc xs free cur w cur' w' :
  contents s1 acc xs w.2 -> k cur = Z.of_nat (length acc) ->
  take_slot free cur w = Ok (cur', w') ->
  contents s1 (acc ++ (if free then [l cur] else [])) xs w'.2
  /\ k cur' = Z.of_nat (length (acc ++ (if free then [l cur] else [])))
  /\ l cur' = l cur + 1 /\ val cur' = val cur /\ w'.1 = w.1.
Proof.
  intros Hc Hk Hrun. unfold take_slot in Hrun. destruct w as [f s].
  destruct free; run; st_simpl.
  - rewrite (ct_pt _ _ _ _ Hc), Hk in Hstore.
    split_and!; try done.
    + by eapply contents_idx.
    + rewrite length_app. simpl. lia.
  - rewrite app_nil_r. done.
Qed.

Lemma gradient_is_free_Ok f i w b w' :
  gradient_is_free f i w = Ok (b, w') ->
  w' = w /\ 0 <= i
  /\ exists inv, invar_pot w.2 !! Z.to_nat i = Some inv
      /\ if inv =? 0
         then exists g, gradient w.2 !! Z.to_nat i = Some g
                        /\ b = negb (f g =? 0)
         else b = false.
Proof.
  unfold gradient_is_free. intros Hrun. run.
  destruct (v =? 0) eqn:E; run; split_and!; try done;
    eexists; (split; [done|]); rewrite E; eauto.
Qed.

Lemma read_gradient_Ok ps κ i cur w u w' :
  read_gradient ps κ i cur w = Ok (u, w') ->
  exists g0 g1 m m',
    store (dmem w.2) (table (opt_pot w.2)) (val cur) g0 = Some m
    /\ store m (table (opt_pot w.2)) (val cur + 1) g1 = Some m'
    /\ w'.2 = set_dmem m' (set_dmem m w.2).
Proof.
  unfold read_gradient. intros Hrun. run.
  destruct (have_gradient ps).
  - apply bind_Ok in Hrun as (r & w1 & Hsc & Hrun).
    apply fscanf_lf_lf_Ok in Hsc
      as [(x0 & x1 & f1 & Hx0 & Hx1 & -> & Hs)| ->];
      [|discriminate].
    run. rewrite Hs in *. eauto 10.
  - run. eauto 10.
Qed.

Lemma check_embedding_Ok c κ i w u w' :
  check_embedding c κ i w = Ok (u, w') ->
  w' = w
  /\ (κ = Embed -> RESCALE c = false ->
      exists b e,
        cell (dmem w.2) (begin (opt_pot w.2)) i = Some b
        /\ cell (dmem w.2) (end_ (opt_pot w.2)) i = Some e
        /\ PrimFloat.ltb 1 b = false /\ PrimFloat.ltb e 1 = false).
Proof.
  unfold check_embedding. intros Hrun.
  destruct κ; run; try (split; [done|discriminate]).
  destruct (RESCALE c); run; [split; [done|discriminate]|].
  destruct (PrimFloat.ltb 1 v) eqn:E1; run.
  destruct (PrimFloat.ltb v0 1) eqn:E2; run.
  split; [done|]. eauto 10.
Qed.

Lemma read_value_spec c ps T P N nvals s1 κ i j h acc xs cur w cur' w' :
  allocated T P N nvals s1 -> 0 <= i ->
  t_hdr T !! Z.to_nat i = Some h ->
  contents s1 acc xs w.2 ->
  val cur = l cur -> k cur = Z.of_nat (length acc) ->
  l cur = Z.of_nat (length xs) ->
  read_value c ps nvals κ i j cur w = Ok (cur', w') ->
  let free := (invar_at T i =? 0) && sample_rule c P N κ i h.2 j in
  let x := PrimFloat.add h.1.1 (PrimFloat.mul (double_of_int j) (step_of h)) in
  contents s1 (acc ++ (if free then [l cur] else [])) (xs ++ [Some x]) w'.2
  /\ val cur' = l cur'
  /\ k cur' = Z.of_nat (length (acc ++ (if free then [l cur] else [])))
  /\ l cur' = l cur + 1
  /\ l cur < len (opt_pot s1).
Proof.
  intros Hal Hi Hh Hc Hv Hk Hl Hrun. unfold read_value in Hrun.
  destruct w as [f s]. st_simpl.
  assert (Hne : t_hdr T ≠ []) by (intros E; by rewrite E, lookup_nil in Hh).
  destruct (al_info _ _ _ _ _ Hal _ _ Hh) as (Hn & Hb & _ & Hs & _).
  rewrite Z2Nat.id in Hb, Hs by done.
  destruct (al_fresh_d _ _ _ _ _ Hal Hne (begin (opt_pot s1))) as [Hb1 Hb2];
    [repeat constructor|].
  destruct (al_fresh_d _ _ _ _ _ Hal Hne (step (opt_pot s1))) as [Hs1 Hs2];
    [repeat constructor|].
  pose proof (al_tx _ _ _ _ _ Hal) as Htx.
  apply bind_Ok in Hrun as (pt & w1 & Hg & Hrun).
  apply get_pt_Ok in Hg. simplify_eq/=.
  apply bind_Ok in Hrun as (r & w1 & Hsc & Hrun).
  apply fscanf_lf_Ok in Hsc as [(x0 & Hx0 & -> & Hs0)|(_ & -> & _)];
    [|discriminate].
  destruct w1 as [f1 s']. st_simpl. subst s'.
  rewrite (ct_pt _ _ _ _ Hc) in Hrun.
  apply bind_Ok in Hrun as (u & w1 & Hst & Hrun).
  apply dstore_Ok in Hst as (m & Hst & [= -> ->]). st_simpl.
  pose proof (contents_table _ _ _ _ _ _ _ Htx Hc Hst) as Hc1.
  apply bind_Ok in Hrun as (b & w1 & Hld & Hrun).
  apply dload_Ok in Hld as (b' & Hcb & [= -> ->]). st_simpl.
  rewrite (ct_dframe _ _ _ _ Hc1) in Hcb by done.
  apply bind_Ok in Hrun as (sv & w1 & Hld & Hrun).
  apply dload_Ok in Hld as (s' & Hcs & [= -> ->]). st_simpl.
  rewrite (ct_dframe _ _ _ _ Hc1) in Hcs by done.
  simplify_eq.
  apply bind_Ok in Hrun as (u & w1 & Hsx & Hrun).
  apply dstore_Ok in Hsx as (m' & Hsx & [= -> ->]). st_simpl.
  rewrite Hl in Hsx.
  pose proof (contents_xcoord _ _ _ _ _ _ Hc1 Hsx) as Hc2.
  assert (Hbound : l cur < len (opt_pot s1)).
  { eapply (store_bound _ _ _ _ _ (Z.to_nat (len (opt_pot s1)))) in Hsx;
      [|rewrite <- (al_xlen _ _ _ _ _ Hal); exact (ct_xlen _ _ _ _ Hc1)].
    pose proof (al_len _ _ _ _ _ Hal). lia. }
  apply bind_Ok in Hrun as (inv & w1 & Hinv & Hrun).
  apply array_get_Ok in Hinv as (inv' & _ & Hinv & [= -> ->]). st_simpl.
  rewrite (ct_invar _ _ _ _ Hc), (al_invar _ _ _ _ _ Hal) in Hinv.
  apply bind_Ok in Hrun as (n & w1 & Hnv & Hrun).
  apply vla_get_Ok in Hnv as (n' & _ & Hnv & [= -> ->]).
  rewrite Hn in Hnv. injection Hnv as <-.
  apply bind_Ok in Hrun as (P' & w1 & HP & Hrun).
  apply gets_Ok in HP as (? & [= <-] & [= -> ->]). st_simpl.
  apply bind_Ok in Hrun as (N' & w1 & HN & Hrun).
  apply gets_Ok in HN as (? & [= <-] & [= -> ->]). st_simpl.
  rewrite (ct_paircol _ _ _ _ Hc), (al_paircol _ _ _ _ _ Hal) in Hrun.
  rewrite (ct_ntypes _ _ _ _ Hc), (al_ntypes _ _ _ _ _ Hal) in Hrun.
  apply (take_slot_spec s1 acc (xs ++ [Some (PrimFloat.add h.1.1
           (PrimFloat.mul (double_of_int j) (step_of h)))])) in Hrun;
    [|done|done].
  st_simpl. unfold invar_at. rewrite Hinv. simpl.
  destruct Hrun as (Hc3 & Hk3 & Hl3 & Hv3 & _).
  split_and!; try done. lia.
Qed.

Lemma seqZ_to_nat m n : seqZ m (Z.of_nat (Z.to_nat n)) = seqZ m n.
Proof. unfold seqZ. by rewrite Nat2Z.id. Qed.

Lemma seqZ_snoc m j : 0 <= j -> seqZ m (j + 1) = seqZ m j ++ [m + j].
Proof.
  intros Hj. rewrite seqZ_app by lia. by f_equal.
Qed.

Lemma count_at_lookup T i h :
  t_hdr T !! Z.to_nat i = Some h -> count_at T i = h.2.
Proof. intros H. unfold count_at. by rewrite list_lookup_fmap, H. Qed.

Lemma begin_at_lookup T i h :
  t_hdr T !! Z.to_nat i = Some h -> begin_at T i = h.1.1.
Proof. intros H. unfold begin_at. by rewrite H. Qed.

Lemma end_at_lookup T i h :
  t_hdr T !! Z.to_nat i = Some h -> end_at T i = h.1.2.
Proof. intros H. unfold end_at. by rewrite H. Qed.

Lemma step_at_lookup T i h :
  t_hdr T !! Z.to_nat i = Some h -> step_at T i = step_of h.
Proof. intros H. unfold step_at. by rewrite H. Qed.

(** The value loop of one function, entered at offset [lG]. *)
Lemma read_values_spec c ps T P N nvals s1 κ i h accG xsG cur w cur' w' :
  allocated T P N nvals s1 -> 0 <= i ->
  t_hdr T !! Z.to_nat i = Some h ->
  contents s1 accG xsG w.2 ->
  val cur = l cur -> k cur = Z.of_nat (length accG) ->
  l cur = Z.of_nat (length xsG) ->
  l cur <= len (opt_pot s1) ->
  for_from 0 (Z.to_nat h.2) (read_value c ps nvals κ i) cur w = Ok (cur', w') ->
  let acc' :=
    accG ++ ((fun j => l cur + j)
               <$> filter (fun j => (invar_at T i =? 0)
                                    && sample_rule c P N κ i h.2 j = true)
                     (seqZ 0 h.2)) in
  let xs' :=
    xsG ++ ((fun j => Some (PrimFloat.add h.1.1
                          (PrimFloat.mul (double_of_int j) (step_of h))))
              <$> seqZ 0 h.2) in
  contents s1 acc' xs' w'.2
  /\ val cur' = l cur' /\ k cur' = Z.of_nat (length acc')
  /\ l cur' = Z.of_nat (length xs')
  /\ l cur' = l cur + Z.max 0 h.2
  /\ l cur' <= len (opt_pot s1).
Proof.
  intros Hal Hi Hh Hc Hv Hk Hl Hb Hrun.
  set (free := fun j => (invar_at T i =? 0) && sample_rule c P N κ i h.2 j).
  set (coord := fun j => Some (PrimFloat.add h.1.1
                    (PrimFloat.mul (double_of_int j) (step_of h)))).
  pose (Inv := fun (j : Z) (cu : cursor) (v : world) =>
    0 <= j
    /\ contents s1 (accG ++ ((fun j => l cur + j)
                      <$> filter (fun j => free j = true) (seqZ 0 j)))
         (xsG ++ (coord <$> seqZ 0 j)) v.2
    /\ val cu = l cu
    /\ k cu = Z.of_nat (length (accG ++ ((fun j => l cur + j)
                      <$> filter (fun j => free j = true) (seqZ 0 j))))
    /\ l cu = Z.of_nat (length (xsG ++ (coord <$> seqZ 0 j)))
    /\ l cu = l cur + j
    /\ l cu <= len (opt_pot s1)).
  apply (for_from_inv Inv) in Hrun.
  - destruct Hrun as (_ & Hc' & Hv' & Hk' & Hl' & Hlj & Hb').
    rewrite Z.add_0_l, seqZ_to_nat in Hc', Hk', Hl'.
    cbv zeta. split_and!; try done. lia.
  - unfold Inv. rewrite seqZ_nil by done. simpl. rewrite !app_nil_r.
    split_and!; try done. lia.
  - intros j cu v cu' v' Hj (Hj0 & Hcj & Hvj & Hkj & Hlj & Hlj' & Hbj) Hbody.
    eapply read_value_spec in Hbody; [|done..].
    cbv zeta in Hbody. destruct Hbody as (Hc' & Hv' & Hk' & Hl' & Hb').
    unfold Inv. rewrite seqZ_snoc by done.
    rewrite filter_app, !fmap_app, !app_assoc. simpl.
    assert (E : (fun j0 => l cur + j0) <$> filter (fun j0 => free j0 = true) [j]
                = if free j then [l cu] else []).
    { rewrite filter_cons, filter_nil.
      case_decide as Hd; destruct (free j); try done; simpl.
      by rewrite Hlj'. }
    rewrite !Z.add_0_l, E. fold (free j) in Hc', Hk'. fold (coord j) in Hc'.
    split_and!; try done; try lia.
    rewrite length_app. simpl. rewrite Hl', Hlj. lia.
Qed.

Lemma invar_at_lookup T i v :
  t_invar T !! Z.to_nat i = Some v -> invar_at T i = v.
Proof. intros H. unfold invar_at. by rewrite H. Qed.

Lemma gradient_at_lookup T i v :
  t_gradient T !! Z.to_nat i = Some v -> gradient_at T i = v.
Proof. intros H. unfold gradient_at. by rewrite H. Qed.

Lemma filter_none {A : Type} (P : A -> Prop) `{!forall x, Decision (P x)}
  (xs : list A) : (forall x, ~ P x) -> filter P xs = [].
Proof.
  intros HP. induction xs as [|x xs IH]; [done|].
  by rewrite filter_cons_False.
Qed.

(** One function: what it appends to the free index and to the
    coordinates, and where it leaves the cursor. *)
Lemma read_function_spec c ps T P N nvals s1 κ i acc xs cur w cur' w' :
  allocated T P N nvals s1 ->
  contents s1 acc xs w.2 ->
  val cur = l cur -> k cur = Z.of_nat (length acc) ->
  l cur = Z.of_nat (length xs) ->
  read_function c ps nvals κ i cur w = Ok (cur', w') ->
  let acc' := acc ++ fn_free c P N κ i (count_at T i) (invar_at T i)
                       (gradient_at T i) (l cur) in
  let xs' := xs ++ fn_xcoord (begin_at T i) (step_at T i) (count_at T i) in
  contents s1 acc' xs' w'.2
  /\ val cur' = l cur' /\ k cur' = Z.of_nat (length acc')
  /\ l cur' = Z.of_nat (length xs')
  /\ l cur' = l cur + span T (κ, i)
  /\ l cur' <= len (opt_pot s1)
  /\ (0 <= i < Z.of_nat (length (t_hdr T)))
  /\ (κ = Embed -> RESCALE c = false ->
      PrimFloat.ltb 1 (begin_at T i) = false
      /\ PrimFloat.ltb (end_at T i) 1 = false).
Proof.
  intros Hal Hc Hv Hk Hl Hrun. unfold read_function in Hrun.
  destruct w as [f s]. st_simpl.
  pose proof (al_tx _ _ _ _ _ Hal) as Htx.
  apply bind_Ok in Hrun as (u & w1 & Hck & Hrun).
  apply check_embedding_Ok in Hck as [-> Hemb]. st_simpl.
  apply bind_Ok in Hrun as (u' & w1 & Hgr & Hrun).
  apply read_gradient_Ok in Hgr as (g0 & g1 & m & m' & Hs0 & Hs1 & Hw1).
  destruct w1 as [f1 s']. st_simpl. subst s'.
  rewrite (ct_pt _ _ _ _ Hc) in Hs0, Hs1.
  pose proof (contents_table _ _ _ _ _ _ _ Htx Hc Hs0) as Hc0.
  pose proof (contents_table _ _ _ _ _ _ _ Htx Hc0 Hs1) as Hc1.
  assert (Hb1 : l cur + 2 <= len (opt_pot s1)).
  { eapply (store_bound _ _ _ _ _ (Z.to_nat (len (opt_pot s1)))) in Hs1;
      [|rewrite <- (al_tlen _ _ _ _ _ Hal); exact (ct_tlen _ _ _ _ Hc0)].
    pose proof (al_len _ _ _ _ _ Hal). lia. }
  apply bind_Ok in Hrun as (fr0 & w1 & Hf0 & Hrun).
  apply gradient_is_free_Ok in Hf0 as (-> & Hi & inv & Hinv & Hfr0). st_simpl.
  apply bind_Ok in Hrun as (cur1 & w1 & Ht0 & Hrun).
  eapply take_slot_spec in Ht0; [|apply contents_skip; exact Hc1|done].
  destruct Ht0 as (Hc2 & Hk2 & Hl2 & Hv2 & Hf2). st_simpl.
  apply bind_Ok in Hrun as (fr1 & w2 & Hf1 & Hrun).
  apply gradient_is_free_Ok in Hf1 as (-> & _ & inv' & Hinv' & Hfr1).
  apply bind_Ok in Hrun as (cur2 & w2 & Ht1 & Hrun).
  eapply take_slot_spec in Ht1; [|apply contents_skip; exact Hc2|done].
  destruct Ht1 as (Hc3 & Hk3 & Hl3 & Hv3 & Hf3). st_simpl.
  rewrite (ct_invar _ _ _ _ Hc2), (al_invar _ _ _ _ _ Hal) in Hinv'.
  rewrite (ct_gradient _ _ _ _ Hc2), (al_gradient _ _ _ _ _ Hal) in Hfr1.
  rewrite (ct_invar _ _ _ _ Hc), (al_invar _ _ _ _ _ Hal) in Hinv.
  rewrite (ct_gradient _ _ _ _ Hc), (al_gradient _ _ _ _ _ Hal) in Hfr0.
  simplify_eq.
  apply bind_Ok in Hrun as (n & w3 & Hnv & Hrun).
  apply vla_get_Ok in Hnv as (n' & _ & Hnv & [= -> ->]).
  assert (Hlt : (Z.to_nat i < length (t_hdr T))%nat).
  { rewrite <- (al_nvals _ _ _ _ _ Hal). by eapply lookup_lt_Some. }
  destruct (lookup_lt_is_Some_2 _ _ Hlt) as [h Hh].
  destruct (al_info _ _ _ _ _ Hal _ _ Hh) as (Hn & Hcb & Hce & _).
  rewrite Hn in Hnv. injection Hnv as <-.
  eapply (read_values_spec c ps T P N nvals s1 κ i h _ _ cur2 _ cur' w'
            Hal Hi Hh Hc3) in Hrun; [|lia|done| |lia]; last first.
  { rewrite !length_app. simpl. lia. }
  cbv zeta in Hrun. destruct Hrun as (Hc4 & Hv4 & Hk4 & Hl4 & Hl4' & Hb4).
  rewrite (count_at_lookup _ _ _ Hh), (begin_at_lookup _ _ _ Hh),
    (end_at_lookup _ _ _ Hh), (step_at_lookup _ _ _ Hh).
  rewrite (invar_at_lookup _ _ _ Hinv) in Hc4, Hk4 |- *.
  assert (Eacc :
    ((acc ++ (if fr0 then [l cur] else [])) ++ (if fr1 then [l cur1] else []))
    ++ ((fun j => l cur2 + j)
          <$> filter (fun j => (inv =? 0) && sample_rule c P N κ i h.2 j = true)
                (seqZ 0 h.2))
    = acc ++ fn_free c P N κ i h.2 inv (gradient_at T i) (l cur)).
  { unfold fn_free. destruct (inv =? 0) eqn:E.
    - destruct Hfr0 as (g & Hg & ->). destruct Hfr1 as (g' & Hg' & ->).
      simplify_eq. rewrite (gradient_at_lookup _ _ _ Hg).
      rewrite <- !app_assoc. f_equal.
      rewrite Hl3, Hl2.
      rewrite (list_fmap_ext (fun j => l cur + 1 + 1 + j)
                 (fun j => l cur + 2 + j)) by (intros; lia).
      by destruct (Z.shiftr g 1 =? 0), (Z.rem g 2 =? 0).
    - subst fr0 fr1. simpl. rewrite !app_nil_r.
      rewrite filter_none by (intros ?; discriminate). simpl.
      by rewrite app_nil_r. }
  rewrite Eacc in Hc4, Hk4.
  assert (Exs : ((xs ++ [None]) ++ [None])
                ++ ((fun j => Some (PrimFloat.add h.1.1
                       (PrimFloat.mul (double_of_int j) (step_of h))))
                      <$> seqZ 0 h.2)
                = xs ++ fn_xcoord h.1.1 (step_of h) h.2).
  { unfold fn_xcoord. by rewrite <- !app_assoc. }
  rewrite Exs in Hc4, Hl4.
  split_and!; try done.
  - unfold span. simpl. rewrite (count_at_lookup _ _ _ Hh). lia.
  - lia.
  - intros Hκ Hre. destruct (Hemb Hκ Hre) as (b & e & Hb & He & Hlb & Hle).
    assert (Hne : t_hdr T ≠ []) by (intros E; by rewrite E, lookup_nil in Hh).
    destruct (al_fresh_d _ _ _ _ _ Hal Hne (begin (opt_pot s1))) as [? ?];
      [repeat constructor|].
    destruct (al_fresh_d _ _ _ _ _ Hal Hne (end_ (opt_pot s1))) as [? ?];
      [repeat constructor|].
    rewrite (ct_pt _ _ _ _ Hc) in Hb, He.
    rewrite (ct_dframe _ _ _ _ Hc) in Hb, He by done.
    rewrite Z2Nat.id in Hcb, Hce by done.
    by simplify_eq.
Qed.

(** *** Lists of visits *)

Lemma free_offsets_app c P N T vs1 vs2 start :
  free_offsets c P N T (vs1 ++ vs2) start
  = free_offsets c P N T vs1 start
    ++ free_offsets c P N T vs2 (start + extent T vs1).
Proof.
  revert start. induction vs1 as [|v vs1 IH]; intros start; simpl.
  - by rewrite Z.add_0_r.
  - rewrite IH, <- app_assoc. do 3 f_equal. lia.
Qed.

Lemma coordinates_app T vs1 vs2 :
  coordinates T (vs1 ++ vs2) = coordinates T vs1 ++ coordinates T vs2.
Proof.
  induction vs1 as [|v vs1 IH]; simpl; [done|].
  by rewrite IH, <- !app_assoc.
Qed.

Lemma extent_app T vs1 vs2 :
  extent T (vs1 ++ vs2) = extent T vs1 + extent T vs2.
Proof. induction vs1 as [|v vs1 IH]; simpl; lia. Qed.

Lemma visits_cons b bl :
  visits (b :: bl)
  = ((fun i => (b.1.1, i)) <$> seqZ b.1.2 (b.2 - b.1.2)) ++ visits bl.
Proof. done. Qed.

Lemma read_block_spec c ps T P N nvals s1 κ cnt :
  forall lo acc xs cur w cur' w',
  allocated T P N nvals s1 ->
  contents s1 acc xs w.2 -> cursor_at s1 acc xs cur ->
  for_from lo cnt (read_function c ps nvals κ) cur w = Ok (cur', w') ->
  let vs := (fun i => (κ, i)) <$> seqZ lo (Z.of_nat cnt) in
  let acc' := acc ++ free_offsets c P N T vs (l cur) in
  let xs' := xs ++ coordinates T vs in
  contents s1 acc' xs' w'.2 /\ cursor_at s1 acc' xs' cur'
  /\ l cur' = l cur + extent T vs
  /\ Forall (visit_ok c T) vs.
Proof.
  induction cnt as [|cnt IH];
    intros lo acc xs cur w cur' w' Hal Hc (Hv & Hk & Hl & Hb) Hrun;
    simpl in Hrun.
  - apply ret_Ok in Hrun. injection Hrun as <- <-.
    cbv zeta. rewrite seqZ_nil by done. simpl. rewrite !app_nil_r.
    split_and!; try done. lia.
  - apply bind_Ok in Hrun as (cur1 & w1 & Hf & Hrun).
    eapply read_function_spec in Hf; [|done..].
    cbv zeta in Hf.
    destruct Hf as (Hc1 & Hv1 & Hk1 & Hl1 & Hl1' & Hb1 & Hi1 & He1).
    eapply IH in Hrun; [|done|exact Hc1|by split_and!].
    cbv zeta in Hrun. destruct Hrun as (Hc2 & Hcu2 & Hl2 & Hok2).
    cbv zeta. rewrite seqZ_cons by lia.
    replace (Z.pred (Z.of_nat (S cnt))) with (Z.of_nat cnt) by lia.
    replace (Z.succ lo) with (lo + 1) by lia.
    rewrite fmap_cons. simpl.
    rewrite Hl1' in Hc2, Hcu2, Hl2. rewrite <- !app_assoc in Hc2, Hcu2.
    split_and!; try done.
    + lia.
    + constructor; [|done]. by split.
Qed.

Lemma read_blocks_spec c ps T P N nvals s1 bl :
  forall acc xs cur w cur' w',
  allocated T P N nvals s1 ->
  contents s1 acc xs w.2 -> cursor_at s1 acc xs cur ->
  read_blocks c ps nvals bl cur w = Ok (cur', w') ->
  let acc' := acc ++ free_offsets c P N T (visits bl) (l cur) in
  let xs' := xs ++ coordinates T (visits bl) in
  contents s1 acc' xs' w'.2 /\ cursor_at s1 acc' xs' cur'
  /\ l cur' = l cur + extent T (visits bl)
  /\ Forall (visit_ok c T) (visits bl).
Proof.
  induction bl as [|[[κ lo] hi] bl IH];
    intros acc xs cur w cur' w' Hal Hc Hcu Hrun; simpl in Hrun.
  - apply ret_Ok in Hrun. injection Hrun as <- <-.
    cbv zeta. simpl. rewrite !app_nil_r.
    split_and!; try done. lia.
  - apply bind_Ok in Hrun as (cur1 & w1 & Hb & Hrun).
    eapply read_block_spec in Hb; [|done..].
    cbv zeta in Hb. rewrite seqZ_to_nat in Hb.
    destruct Hb as (Hc1 & Hcu1 & Hl1 & Hok1).
    eapply IH in Hrun; [|done..].
    cbv zeta in Hrun. destruct Hrun as (Hc2 & Hcu2 & Hl2 & Hok2).
    cbv zeta. rewrite visits_cons. simpl.
    rewrite free_offsets_app, coordinates_app, extent_app, !app_assoc.
    rewrite Hl1 in Hc2, Hcu2, Hl2.
    split_and!; try done.
    + lia.
    + by apply Forall_app.
Qed.

(** *** Allocation *)

Lemma Malloc_double_Ok n w a w' :
  Malloc_double n w = Ok (a, w') ->
  0 <= n /\ a = length (dmem w.2)
  /\ w' = (w.1, set_dmem (dmem w.2 ++ [replicate (Z.to_nat n) None]) w.2).
Proof.
  unfold Malloc_double. destruct (Z.ltb_spec n 0); [discriminate|].
  intros [= <- <-]. done.
Qed.

Lemma Malloc_int_Ok n w a w' :
  Malloc_int n w = Ok (a, w') ->
  0 <= n /\ a = length (imem w.2)
  /\ w' = (w.1, set_imem (imem w.2 ++ [replicate (Z.to_nat n) None]) w.2).
Proof.
  unfold Malloc_int. destruct (Z.ltb_spec n 0); [discriminate|].
  intros [= <- <-]. done.
Qed.

Lemma cell_app_Some {A : Type} (m n : buffers A) a i v :
  cell m a i = Some v -> cell (m ++ n) a i = Some v.
Proof.
  intros H. destruct (cell_valid _ _ _ _ H) as [Ha _]. by rewrite cell_app.
Qed.

Lemma cell_fresh {A : Type} (m n : buffers A) (len : nat) i :
  cell ((m ++ [replicate len None]) ++ n) (length m) i = None.
Proof.
  unfold cell. destruct (i <? 0); [done|].
  rewrite <- app_assoc. simpl. rewrite list_lookup_middle by done.
  destruct (replicate len None !! Z.to_nat i) as [o|] eqn:E; [|done].
  by apply lookup_replicate in E as [-> _].
Qed.

Lemma buflen_fresh {A : Type} (m n : buffers A) (len : nat) :
  buflen ((m ++ [replicate len None]) ++ n) (length m) = Some len.
Proof.
  unfold buflen. rewrite <- app_assoc. simpl.
  rewrite list_lookup_middle by done.
  simpl. by rewrite length_replicate.
Qed.

(** The state the allocations leave, given the state after the info
    block. *)
Lemma allocate_tables_spec (n : nat) f0 s0 nvals w u w1 :
  info_inv n f0 s0 (Z.of_nat n) nvals w ->
  allocate_tables w = Ok (u, w1) ->
  exists hdr,
    header_lines n f0 = Some hdr
    /\ allocated (mk_tables hdr (invar_pot s0) (gradient s0))
         (paircol s0) (ntypes s0) nvals w1.2
    /\ w1.1 = header_rest n f0
    /\ calc_pot w1.2 = calc_pot s0
    /\ opt_pot w1.2
       = set_idx (length (imem s0))
           (set_d2tab (S (S (length (dmem s0))))
              (set_xcoord (S (length (dmem s0)))
                 (set_table (length (dmem s0))
                    (set_len (if decide (hdr = []) then len (opt_pot s0)
                              else total (hdr.*2)) (opt_pot s0))))).
Proof.
  intros (hs & Hh & Hlen & Hdone & Hpt & Hfr) Hrun.
  rewrite Nat2Z.id in Hh.
  apply header_scan_lines in Hh as [Hh Hf].
  assert (Hpt' : opt_pot w.2
                 = set_len (if decide (hs = []) then len (opt_pot s0)
                            else total (hs.*2)) (opt_pot s0)).
  { rewrite Hpt. f_equal. pose proof (header_lines_length _ _ _ Hh) as Hhl.
    destruct (Z.eqb_spec (Z.of_nat n) 0), (decide (hs = [])) as [->|Hne];
      try done.
    - destruct hs; [done|]. simpl in Hhl. lia.
    - simpl in Hhl. lia. }
  clear Hpt. rename Hpt' into Hpt.
  destruct Hfr as (Hcalc & Hinv & Hgr & HP & HNt & Hld & Hli).
  destruct w as [f s]. st_simpl.
  unfold allocate_tables in Hrun.
  repeat match goal with
    | H : bind get_pt _ _ = Ok _ |- _ =>
        apply bind_Ok in H as (? & ? & ?%get_pt_Ok & H); simplify_eq; st_simpl
    | H : bind (Malloc_double _) _ _ = Ok _ |- _ =>
        apply bind_Ok in H as (? & ? & (? & ? & ?)%Malloc_double_Ok & H);
        simplify_eq; st_simpl
    | H : bind (Malloc_int _) _ _ = Ok _ |- _ =>
        apply bind_Ok in H as (? & ? & (? & ? & ?)%Malloc_int_Ok & H);
        simplify_eq; st_simpl
    | H : bind (modify _) _ _ = Ok _ |- _ =>
        apply bind_Ok in H as (? & ? & (? & ? & ?)%modify_Ok & H);
        simplify_eq; st_simpl
    | H : modify _ _ = Ok _ |- _ =>
        apply modify_Ok in H as (? & ? & ?); simplify_eq; st_simpl
    end.
  pose proof (header_lines_length _ _ _ Hh) as Hhl.
  set (R := replicate (Z.to_nat (len (opt_pot s))) (@None float)).
  set (R' := replicate (Z.to_nat (len (opt_pot s))) (@None Z)).
  assert (Hvalid : hs ≠ [] ->
    (forall a, a ∈ [begin (opt_pot s0); end_ (opt_pot s0); step (opt_pot s0);
                   invstep (opt_pot s0)] -> (a < length (dmem s))%nat)
    /\ (first (opt_pot s0) < length (imem s))%nat
    /\ (last (opt_pot s0) < length (imem s))%nat).
  { intros Hne. destruct hs as [|h hs']; [done|].
    destruct (Hdone 0%nat h eq_refl) as (_ & H1' & H2' & H3' & H4' & H5' & H6').
    apply cell_valid in H1', H2', H3', H4', H5', H6'.
    split_and!; try tauto.
    intros a Ha. repeat (apply elem_of_cons in Ha as [->|Ha]; [tauto|]).
    by apply elem_of_nil in Ha. }
  exists hs. split_and!; [done| |done|done|].
  - split; st_simpl; try done.
    + intros t h Hth.
      destruct (Hdone t h Hth) as (Hn & H1' & H2' & H3' & H4' & H5' & H6').
      rewrite Hpt. st_simpl.
      split_and!; try done; by repeat apply cell_app_Some.
    + rewrite length_app. simpl. lia.
    + intros Hne a Ha. rewrite Hpt in Ha. st_simpl.
      destruct (Hvalid Hne) as (Hv & _ & _). specialize (Hv a Ha).
      rewrite length_app. simpl. lia.
    + intros Hne. rewrite Hpt. st_simpl.
      destruct (Hvalid Hne) as (_ & Hv1 & Hv2). lia.
    + rewrite <- (app_assoc (dmem s ++ [R])). apply buflen_fresh.
    + apply buflen_fresh.
    + rewrite <- (app_nil_r (imem s ++ [R'])). apply buflen_fresh.
    + intros q. apply cell_fresh.
    + intros q. rewrite <- (app_nil_r (imem s ++ [R'])). apply cell_fresh.
  - rewrite !length_app. simpl. rewrite Hpt, Hld, Hli, !Nat.add_1_r.
    by destruct (opt_pot s0).
Qed.

Lemma read_pot_table3_loaded c ps f0 s0 u w' :
  separated (opt_pot s0) ->
  read_pot_table3 c ps (f0, s0) = Ok (u, w') ->
  exists hdr,
    header_lines (Z.to_nat (num_pots ps)) f0 = Some hdr
    /\ loaded c (mk_tables hdr (invar_pot s0) (gradient s0)) s0 w'.2.
Proof.
  intros Hsep Hrun. unfold read_pot_table3 in Hrun.
  apply bind_Ok in Hrun as (nvals & wh & Hinfo & Hrun).
  apply read_info_block_inv in Hinfo; [|done].
  apply bind_Ok in Hrun as (u1 & w1 & Hall & Hrun).
  eapply allocate_tables_spec in Hall; [|exact Hinfo].
  destruct Hall as (hdr & Hh & Hal & Hf1 & Hcalc1 & Hpt1).
  set (T := mk_tables hdr (invar_pot s0) (gradient s0)) in *.
  apply bind_Ok in Hrun as (P & w2 & HP & Hrun).
  apply gets_Ok in HP as (? & [= <-] & [= -> ->]).
  apply bind_Ok in Hrun as (N & w2 & HN & Hrun).
  apply gets_Ok in HN as (? & [= <-] & [= -> ->]).
  rewrite (al_paircol _ _ _ _ _ Hal), (al_ntypes _ _ _ _ _ Hal) in Hrun.
  apply bind_Ok in Hrun as (cur & w2 & Hbl & Hrun).
  eapply (read_blocks_spec c ps T _ _ nvals w1.2 _ [] []) in Hbl;
    [|done|by eapply contents_init|].
  2:{ unfold cursor_at. simpl. split_and!; try done.
      apply (al_len _ _ _ _ _ Hal). }
  cbv zeta in Hbl. cbn [app l] in Hbl.
  destruct Hbl as (Hc & (Hv & Hk & Hl & Hb) & Hext & Hok).
  destruct w2 as [f2 s2]. st_simpl.
  apply bind_Ok in Hrun as (u2 & w3 & Hm & Hrun).
  apply modify_Ok in Hm as (s3 & [= <-] & [= -> ->]). st_simpl.
  unfold init_calc_table3 in Hrun.
  apply modify_Ok in Hrun as (s4 & [= <-] & [= -> ->]). st_simpl.
  exists hdr. split; [done|].
  pose proof (ct_pt _ _ _ _ Hc) as Hpt2.
  split; st_simpl; rewrite ?Hpt2, ?Hpt1; st_simpl; try done.
  - by rewrite (ct_invar _ _ _ _ Hc), (al_invar _ _ _ _ _ Hal).
  - by rewrite (ct_gradient _ _ _ _ Hc), (al_gradient _ _ _ _ _ Hal).
  - by rewrite (ct_paircol _ _ _ _ Hc), (al_paircol _ _ _ _ _ Hal).
  - by rewrite (ct_ntypes _ _ _ _ Hc), (al_ntypes _ _ _ _ _ Hal).
  - pose proof (al_len _ _ _ _ _ Hal) as Hlen. by rewrite Hpt1 in Hlen.
  - intros t h Hth.
    assert (Hne : t_hdr T ≠ []).
    { intros E. simpl in E, Hth. by rewrite E, lookup_nil in Hth. }
    fold T in Hth.
    destruct (al_info _ _ _ _ _ Hal _ _ Hth)
      as (_ & H1 & H2 & H3 & H4 & H5 & H6).
    pose proof (al_fresh_d _ _ _ _ _ Hal Hne) as Hfd.
    destruct (al_fresh_i _ _ _ _ _ Hal Hne) as [Hf1' Hf2'].
    destruct (Hfd (begin (opt_pot w1.2))) as [? ?]; [repeat constructor|].
    destruct (Hfd (end_ (opt_pot w1.2))) as [? ?]; [repeat constructor|].
    destruct (Hfd (step (opt_pot w1.2))) as [? ?]; [repeat constructor|].
    destruct (Hfd (invstep (opt_pot w1.2))) as [? ?]; [repeat constructor|].
    clear Hfd.
    rewrite Hpt1 in *. st_simpl.
    rewrite !(ct_dframe _ _ _ _ Hc), !(ct_iframe _ _ _ _ Hc);
      rewrite ?Hpt1; st_simpl; done.
  - pose proof (ct_idx _ _ _ _ Hc) as Hi. by rewrite Hpt1 in Hi.
  - pose proof (ct_xcoord _ _ _ _ Hc) as Hx. by rewrite Hpt1 in Hx.
  - rewrite Hpt1 in Hb. st_simpl. fold T. lia.
Qed.

(** *** Where the slots lie *)

#[local] Arguments fn_xcoord : simpl never.
#[local] Arguments fn_free : simpl never.
#[local] Arguments span : simpl never.

Lemma span_pos T v : 2 <= span T v.
Proof. unfold span. lia. Qed.

Lemma extent_nonneg T vs : 0 <= extent T vs.
Proof.
  induction vs as [|v vs IH]; simpl; [done|]. pose proof (span_pos T v). lia.
Qed.

Lemma extent_take_S T vs m v :
  vs !! m = Some v ->
  extent T (take (S m) vs) = extent T (take m vs) + span T v.
Proof.
  intros H. rewrite (take_S_r _ _ _ H), extent_app. simpl. lia.
Qed.

Lemma extent_take_mono T vs m m' v :
  vs !! m = Some v -> (m < m')%nat ->
  extent T (take m vs) + span T v <= extent T (take m' vs).
Proof.
  intros Hv Hlt.
  replace m' with (S m + (m' - S m))%nat by lia.
  rewrite <- take_take_drop, extent_app, (extent_take_S _ _ _ _ Hv).
  pose proof (extent_nonneg T (take (m' - S m) (drop (S m) vs))). lia.
Qed.

Lemma length_fn_xcoord b s n :
  Z.of_nat (length (fn_xcoord b s n)) = 2 + Z.max 0 n.
Proof.
  unfold fn_xcoord. rewrite length_app, length_fmap, length_seqZ. simpl. lia.
Qed.

Lemma length_coordinates T vs :
  Z.of_nat (length (coordinates T vs)) = extent T vs.
Proof.
  induction vs as [|v vs IH]; [done|]. cbn [coordinates extent foldr].
  rewrite length_app, Nat2Z.inj_add, IH, length_fn_xcoord.
  fold (extent T vs). unfold span. lia.
Qed.

Lemma free_offsets_elem c P N T vs start o :
  o ∈ free_offsets c P N T vs start <->
  exists m v, vs !! m = Some v
    /\ o ∈ fn_free c P N v.1 v.2 (count_at T v.2) (invar_at T v.2)
             (gradient_at T v.2) (start + extent T (take m vs)).
Proof.
  revert start. induction vs as [|v vs IH]; intros start.
  - split; [by intros ?%elem_of_nil|]. intros (m & v & Hv & _).
    by rewrite lookup_nil in Hv.
  - cbn [free_offsets]. rewrite elem_of_app, IH. split.
    + intros [H|(m & v' & Hv' & H)].
      * exists 0%nat, v. cbn [take extent foldr]. by rewrite Z.add_0_r.
      * exists (S m), v'. split; [done|]. cbn [take extent foldr].
        fold (extent T (take m vs)).
        by replace (start + (span T v + extent T (take m vs)))
          with (start + span T v + extent T (take m vs)) by lia.
    + intros (m & v' & Hv' & H). destruct m as [|m].
      * left. injection Hv' as <-. cbn [take extent foldr] in H.
        by rewrite Z.add_0_r in H.
      * right. exists m, v'. split; [done|]. cbn [take extent foldr] in H.
        fold (extent T (take m vs)) in H.
        by replace (start + span T v + extent T (take m vs))
          with (start + (span T v + extent T (take m vs))) by lia.
Qed.

Lemma fn_free_elem c P N κ i n inv g st o :
  o ∈ fn_free c P N κ i n inv g st <->
  inv = 0
  /\ ((o = st /\ Z.shiftr g 1 ≠ 0)
      \/ (o = st + 1 /\ Z.rem g 2 ≠ 0)
      \/ (exists j, 0 <= j < n /\ o = st + 2 + j
                    /\ sample_rule c P N κ i n j = true)).
Proof.
  unfold fn_free. destruct (Z.eqb_spec inv 0) as [->|Hinv].
  2: { split; [by intros ?%elem_of_nil|]. by intros [? _]. }
  assert (H1 : o ∈ (if Z.shiftr g 1 =? 0 then [] else [st])
               <-> o = st /\ Z.shiftr g 1 ≠ 0).
  { destruct (Z.eqb_spec (Z.shiftr g 1) 0).
    - rewrite elem_of_nil. tauto.
    - rewrite list_elem_of_singleton. tauto. }
  assert (H2 : o ∈ (if Z.rem g 2 =? 0 then [] else [st + 1])
               <-> o = st + 1 /\ Z.rem g 2 ≠ 0).
  { destruct (Z.eqb_spec (Z.rem g 2) 0).
    - rewrite elem_of_nil. tauto.
    - rewrite list_elem_of_singleton. tauto. }
  rewrite !elem_of_app, H1, H2, list_elem_of_fmap.
  setoid_rewrite list_elem_of_filter. setoid_rewrite elem_of_seqZ.
  split.
  - intros [?|[?|(j & -> & Hr & Hj)]]; (split; [done|]);
      [by left|by right; left|].
    right; right. exists j. split; [lia|done].
  - intros [_ [?|[?|(j & Hj & -> & Hr)]]]; [by left|by right; left|].
    right; right. exists j. split; [done|]. split; [done|lia].
Qed.

Lemma fn_free_range c P N κ i n inv g st o :
  o ∈ fn_free c P N κ i n inv g st -> st <= o < st + (2 + Z.max 0 n).
Proof.
  intros [_ [[-> _]|[[-> _]|(j & Hj & -> & _)]]]%fn_free_elem; lia.
Qed.

Lemma StronglySorted_filter {A : Type} (R : relation A) (P : A -> Prop)
  `{!forall x, Decision (P x)} (xs : list A) :
  StronglySorted R xs -> StronglySorted R (filter P xs).
Proof.
  induction 1 as [|x xs Hs IH Hx]; [constructor|].
  rewrite filter_cons. case_decide; [|done].
  constructor; [done|].
  apply Forall_forall. intros y [_ Hy]%list_elem_of_filter.
  by eapply Forall_forall in Hx.
Qed.

Lemma StronglySorted_seqZ m n : StronglySorted Z.lt (seqZ m n).
Proof.
  unfold seqZ. generalize (Z.to_nat n) as cnt. generalize 0%nat as a.
  intros a cnt. revert a. induction cnt as [|cnt IH]; intros a; simpl.
  - constructor.
  - constructor; [apply IH|].
    apply Forall_forall. intros y (x & -> & Hx%elem_of_seq)%list_elem_of_fmap.
    lia.
Qed.

Lemma fn_free_sorted c P N κ i n inv g st :
  StronglySorted Z.lt (fn_free c P N κ i n inv g st).
Proof.
  unfold fn_free. destruct (inv =? 0); [|constructor].
  assert (Hs : StronglySorted Z.lt
            ((fun j => st + 2 + j)
               <$> filter (fun j => sample_rule c P N κ i n j = true)
                     (seqZ 0 n))).
  { apply (StronglySorted_fmap _ Z.lt Z.lt); [intros; lia|].
    apply StronglySorted_filter, StronglySorted_seqZ. }
  assert (Hge : forall o,
            o ∈ (fun j => st + 2 + j)
                  <$> filter (fun j => sample_rule c P N κ i n j = true)
                        (seqZ 0 n) -> st + 2 <= o).
  { intros o (j & -> & [_ Hj%elem_of_seqZ]%list_elem_of_filter)%list_elem_of_fmap.
    lia. }
  destruct (Z.shiftr g 1 =? 0), (Z.rem g 2 =? 0); simpl; try done.
  - constructor; [done|]. apply Forall_forall. intros o Ho%Hge. lia.
  - constructor; [done|]. apply Forall_forall. intros o Ho%Hge. lia.
  - constructor.
    + constructor; [done|]. apply Forall_forall. intros o Ho%Hge. lia.
    + constructor; [lia|]. apply Forall_forall. intros o Ho%Hge. lia.
Qed.

Lemma free_offsets_range c P N T vs start o :
  o ∈ free_offsets c P N T vs start -> start <= o < start + extent T vs.
Proof.
  intros (m & v & Hv & Ho%fn_free_range)%free_offsets_elem.
  pose proof (extent_nonneg T (take m vs)).
  pose proof (extent_take_mono T vs m (length vs) v Hv
                (lookup_lt_Some _ _ _ Hv)) as Hm.
  rewrite firstn_all in Hm. unfold span in Hm. lia.
Qed.

Lemma free_offsets_sorted c P N T vs start :
  StronglySorted Z.lt (free_offsets c P N T vs start).
Proof.
  revert start. induction vs as [|v vs IH]; intros start; [constructor|].
  cbn [free_offsets]. apply StronglySorted_app_2; [|apply fn_free_sorted|apply IH].
  intros x1 x2 H1%fn_free_range H2%free_offsets_range. unfold span in H2. lia.
Qed.

(** A slot of a visited function is in the free index exactly when the
    function contributes it. *)
Lemma free_offsets_slot c P N T vs m v s :
  vs !! m = Some v -> 0 <= s < span T v ->
  extent T (take m vs) + s ∈ free_offsets c P N T vs 0 <->
  extent T (take m vs) + s
    ∈ fn_free c P N v.1 v.2 (count_at T v.2) (invar_at T v.2)
        (gradient_at T v.2) (extent T (take m vs)).
Proof.
  intros Hv Hs. rewrite free_offsets_elem. split.
  - intros (m' & v' & Hv' & Ho). pose proof (fn_free_range _ _ _ _ _ _ _ _ _ _ Ho) as Hr.
    fold (span T v') in Hr.
    destruct (Nat.lt_trichotomy m' m) as [Hlt|[->|Hlt]].
    + pose proof (extent_take_mono T vs m' m v' Hv' Hlt). lia.
    + by simplify_eq.
    + pose proof (extent_take_mono T vs m m' v Hv Hlt). lia.
  - intros Ho. exists m, v. by rewrite Z.add_0_l.
Qed.

Lemma seqZ_glue lo mid hi :
  lo <= mid <= hi -> seqZ lo (mid - lo) ++ seqZ mid (hi - mid) = seqZ lo (hi - lo).
Proof.
  intros H. replace (hi - lo) with ((mid - lo) + (hi - mid)) by lia.
  rewrite seqZ_app by lia. do 2 f_equal. lia.
Qed.

Lemma visits_chain bl lo hi :
  chain_end lo bl = Some hi ->
  lo <= hi /\ (visits bl).*2 = seqZ lo (hi - lo).
Proof.
  revert lo. induction bl as [|[[κ a] b] bl IH]; intros lo;
    cbn [chain_end fst snd].
  - intros [= <-]. split; [lia|]. by rewrite seqZ_nil by lia.
  - destruct (Z.eqb_spec a lo) as [->|]; [|done].
    destruct (Z.leb_spec lo b); [|done]. cbn [andb].
    intros [Hle Heq]%IH. split; [lia|].
    rewrite visits_cons, fmap_app, Heq, <- list_fmap_compose. cbn [fst snd].
    rewrite (list_fmap_ext _ id (seqZ lo (b - lo))) by done.
    rewrite list_fmap_id. apply seqZ_glue. lia.
Qed.

Lemma blocks_chain c P N :
  one_model c = true -> 0 <= P -> 0 <= N ->
  chain_end 0 (blocks c P N) = Some (table_columns c P N).
Proof.
  intros Hm HP HN. unfold one_model in Hm. unfold blocks, table_columns.
  destruct c as [[] [] [] [] ? ?]; simpl in Hm; try discriminate; simpl;
    repeat match goal with
      | |- context [?a =? ?b] => destruct (Z.eqb_spec a b); [|lia]
      | |- context [?a <=? ?b] => destruct (Z.leb_spec a b); [|lia]
      | |- _ => progress simpl
      end; f_equal; lia.
Qed.

Lemma visits_in_order c P N :
  one_model c = true -> 0 <= P -> 0 <= N ->
  (visits (blocks c P N)).*2 = seqZ 0 (table_columns c P N).
Proof.
  intros Hm HP HN.
  destruct (visits_chain _ _ _ (blocks_chain c P N Hm HP HN)) as [_ ->].
  f_equal. lia.
Qed.

Lemma visits_lookup c P N m v :
  one_model c = true -> 0 <= P -> 0 <= N ->
  visits (blocks c P N) !! m = Some v -> v.2 = Z.of_nat m.
Proof.
  intros Hm HP HN Hv.
  assert (H : (visits (blocks c P N)).*2 !! m = Some v.2)
    by (by rewrite list_lookup_fmap, Hv).
  rewrite visits_in_order in H by done.
  apply lookup_seqZ in H. lia.
Qed.

(** With the functions in table order and no negative sample count,
    function [m] starts two slots before [first_of]. *)
Lemma extent_first_of c P N T m :
  one_model c = true -> 0 <= P -> 0 <= N ->
  (m <= length (visits (blocks c P N)))%nat ->
  (m <= length (t_hdr T))%nat ->
  Forall (fun h : float * float * Z => 0 <= h.2) (t_hdr T) ->
  extent T (take m (visits (blocks c P N))) = first_of ((t_hdr T).*2) m - 2.
Proof.
  intros Hm HP HN Hvs Hh Hnn. induction m as [|m IH].
  - unfold first_of. simpl. lia.
  - destruct (lookup_lt_is_Some_2 (visits (blocks c P N)) m) as [v Hv]; [lia|].
    destruct (lookup_lt_is_Some_2 (t_hdr T) m) as [h Hth]; [lia|].
    rewrite (extent_take_S _ _ _ _ Hv), IH by lia.
    rewrite (first_of_S _ _ h.2) by (by rewrite list_lookup_fmap, Hth).
    pose proof (visits_lookup _ _ _ _ _ Hm HP HN Hv) as Hi.
    unfold span, count_at. rewrite Hi, Nat2Z.id, list_lookup_fmap, Hth. simpl.
    eapply Forall_lookup_1 in Hnn; [|done]. simpl in Hnn. lia.
Qed.

(** *** Coordinates *)

Lemma coordinates_slot T vs m v q :
  vs !! m = Some v -> 0 <= q < span T v ->
  slot_at (coordinates T vs) (extent T (take m vs) + q)
  = slot_at (fn_xcoord (begin_at T v.2) (step_at T v.2) (count_at T v.2)) q.
Proof.
  intros Hv Hq. rewrite <- (take_drop_middle _ _ _ Hv) at 1.
  rewrite coordinates_app. cbn [coordinates].
  pose proof (length_coordinates T (take m vs)) as Hl.
  pose proof (length_fn_xcoord (begin_at T v.2) (step_at T v.2)
                (count_at T v.2)) as Hx.
  unfold span in Hq. unfold slot_at.
  rewrite lookup_app_r by lia.
  replace (Z.to_nat (extent T (take m vs) + q)
           - length (coordinates T (take m vs)))%nat with (Z.to_nat q) by lia.
  by rewrite lookup_app_l by lia.
Qed.

Lemma fn_xcoord_gradient b s n q :
  0 <= q < 2 -> slot_at (fn_xcoord b s n) q = None.
Proof.
  intros Hq. unfold slot_at, fn_xcoord.
  assert (q = 0 \/ q = 1) as [-> | ->] by lia; done.
Qed.

Lemma fn_xcoord_sample b s n j :
  0 <= j < n ->
  slot_at (fn_xcoord b s n) (2 + j)
  = Some (PrimFloat.add b (PrimFloat.mul (double_of_int j) s)).
Proof.
  intros Hj. unfold slot_at, fn_xcoord.
  rewrite lookup_app_r by (simpl; lia).
  replace (Z.to_nat (2 + j) - length [@None float; None])%nat
    with (Z.to_nat j) by (simpl; lia).
  rewrite list_lookup_fmap, lookup_seqZ_lt by lia. simpl.
  by rewrite Z2Nat.id by lia.
Qed.

Lemma caller_state_separated n P N inv gr :
  separated (opt_pot (caller_state n P N inv gr)).
Proof.
  split; simpl; [|done].
  repeat (constructor; [rewrite ?elem_of_cons, elem_of_nil; lia|]).
  constructor.
Qed.

(** ** The info block (C1) *)

(** C1. After the info block is read for functions with sample counts
    [n_0 .. n_(N-1)], [first[0] = 2], [first[i] = last[i-1] + 3] for
    [i > 0], [last[i] = first[i] + n_i - 1] (so [first[i] < last[i]] when
    [n_i >= 2]), and [len] is the sum of the [n_i + 2] (with no function
    read, [len] is left as it was). *)
Theorem info_block_offsets ps f0 s0 nvals w :
  separated (opt_pot s0) ->
  read_info_block ps (f0, s0) = Ok (nvals, w) ->
  exists hdr,
    header_lines (Z.to_nat (num_pots ps)) f0 = Some hdr
    /\ (forall (i : nat) h, hdr !! i = Some h ->
          exists fi li,
            cell (imem w.2) (first (opt_pot w.2)) (Z.of_nat i) = Some fi
            /\ cell (imem w.2) (last (opt_pot w.2)) (Z.of_nat i) = Some li
            /\ (i = 0%nat -> fi = 2)
            /\ (forall i', i = S i' ->
                  exists lp,
                    cell (imem w.2) (last (opt_pot w.2)) (Z.of_nat i') = Some lp
                    /\ fi = lp + 3)
            /\ li = fi + h.2 - 1
            /\ (2 <= h.2 -> fi < li))
    /\ (hdr ≠ [] -> len (opt_pot w.2) = total (hdr.*2))
    /\ (hdr = [] -> len (opt_pot w.2) = len (opt_pot s0)).
Proof.
  intros Hsep Hrun.
  destruct (read_info_block_inv _ _ _ _ _ Hsep Hrun)
    as (hs & Hh & _ & Hdone & Hpt & _).
  rewrite Nat2Z.id in Hh. apply header_scan_lines in Hh as [Hh _].
  exists hs. split; [done|].
  pose proof (header_lines_length _ _ _ Hh) as Hhl.
  rewrite Hpt. st_simpl. split_and!.
  - intros i h Hi.
    destruct (Hdone i h Hi) as (_ & _ & _ & _ & _ & Hf & Hl).
    eexists _, _. split_and!; [done|done| | |lia|lia].
    + by intros ->.
    + intros i' ->.
      destruct (lookup_lt_is_Some_2 hs i') as [h' Hi'];
        [apply lookup_lt_Some in Hi; lia|].
      destruct (Hdone i' h' Hi') as (_ & _ & _ & _ & _ & _ & Hl').
      eexists. split; [done|].
      rewrite (first_of_S _ _ h'.2) by (by rewrite list_lookup_fmap, Hi').
      lia.
  - intros Hne. destruct (Z.eqb_spec (Z.of_nat (Z.to_nat (num_pots ps))) 0);
      [|done]. destruct hs; [done|]. simpl in Hhl. lia.
  - intros ->. simpl in Hhl.
    by destruct (Z.eqb_spec (Z.of_nat (Z.to_nat (num_pots ps))) 0); [|lia].
Qed.

Lemma info_block_offsets_witness :
  exists hdr,
    header_lines 2 pair_file = Some hdr
    /\ hdr.*2 = [3; 2].
Proof.
  destruct (read_info_block pair_call (pair_file, pair_state))
    as [[nvals w]| |] eqn:E; [|vm_compute in E; discriminate..].
  destruct (info_block_offsets pair_call pair_file pair_state nvals w
              (caller_state_separated _ _ _ _ _) E) as (hdr & Hh & _).
  exists hdr. split; [exact Hh|].
  vm_compute in Hh. by injection Hh as <-.
Defined.

(** ** The calculation table (C10) *)

(** C10. When [read_pot_table3] returns, the calculation table equals the
    optimization table field by field: the three scalars are copies and the
    ten pointers are the same addresses, so a later write through any
    pointer of the optimization table is read back through the
    calculation table, whose own scalars it leaves as they were. *)
Theorem calc_table_is_alias c ps f0 s0 u w' :
  separated (opt_pot s0) ->
  read_pot_table3 c ps (f0, s0) = Ok (u, w') ->
  calc_pot w'.2 = opt_pot w'.2
  /\ (forall (fld : pot_table_t -> ptr) i v u' w'',
        fld ∈ [begin; end_; step; invstep; xcoord; table; d2tab] ->
        dstore (fld (opt_pot w'.2)) i v w' = Ok (u', w'') ->
        dload (fld (calc_pot w''.2)) i w'' = Ok (v, w'')
        /\ calc_pot w''.2 = calc_pot w'.2)
  /\ (forall (fld : pot_table_t -> ptr) i v u' w'',
        fld ∈ [first; last; idx] ->
        istore (fld (opt_pot w'.2)) i v w' = Ok (u', w'') ->
        iload (fld (calc_pot w''.2)) i w'' = Ok (v, w'')
        /\ calc_pot w''.2 = calc_pot w'.2).
Proof.
  intros Hsep Hrun.
  destruct (read_pot_table3_loaded _ _ _ _ _ _ Hsep Hrun) as (hdr & _ & Hld).
  pose proof (ld_calc _ _ _ _ Hld) as Hc.
  split_and!; [done| |].
  - intros fld i v u' w'' _ Hst.
    apply dstore_Ok in Hst as (m & Hst & [= -> ->]). st_simpl.
    split; [|done]. unfold dload, gets. st_simpl.
    by rewrite Hc, (cell_store_eq _ _ _ _ _ Hst).
  - intros fld i v u' w'' _ Hst.
    apply istore_Ok in Hst as (m & Hst & [= -> ->]). st_simpl.
    split; [|done]. unfold iload, gets. st_simpl.
    by rewrite Hc, (cell_store_eq _ _ _ _ _ Hst).
Qed.

Lemma calc_table_is_alias_witness :
  match read_pot_table3 pair_model pair_call (pair_file, pair_state) with
  | Ok (_, w') => calc_pot w'.2 = opt_pot w'.2
  | _ => False
  end.
Proof.
  destruct (read_pot_table3 pair_model pair_call (pair_file, pair_state))
    as [[u w']| |] eqn:E; [|vm_compute in E; discriminate..].
  exact (proj1 (calc_table_is_alias pair_model pair_call pair_file pair_state
                  u w' (caller_state_separated _ _ _ _ _) E)).
Defined.

(** ** Steps and coordinates (C6) *)

(** C6. For every function [i] read, [step[i]] is
    [(end[i] - begin[i]) / (n_i - 1)] and [invstep[i]] is [1 / step[i]];
    with the functions in table order and no negative sample count, the
    coordinate at sample slot [j] of function [i] is
    [begin[i] + j * step[i]], and the two gradient slots before
    [first[i]] are never given a coordinate. *)
Theorem steps_and_coordinates c ps f0 s0 u w' hdr :
  separated (opt_pot s0) ->
  one_model c = true -> 0 <= paircol s0 -> 0 <= ntypes s0 ->
  header_lines (Z.to_nat (num_pots ps)) f0 = Some hdr ->
  Forall (fun h : float * float * Z => 0 <= h.2) hdr ->
  read_pot_table3 c ps (f0, s0) = Ok (u, w') ->
  let p := opt_pot w'.2 in
  (forall (i : nat) h, hdr !! i = Some h ->
     cell (dmem w'.2) (begin p) (Z.of_nat i) = Some h.1.1
     /\ cell (dmem w'.2) (end_ p) (Z.of_nat i) = Some h.1.2
     /\ cell (dmem w'.2) (step p) (Z.of_nat i)
        = Some (PrimFloat.div (PrimFloat.sub h.1.2 h.1.1)
                  (double_of_int (h.2 - 1)))
     /\ cell (dmem w'.2) (invstep p) (Z.of_nat i)
        = Some (PrimFloat.div 1 (PrimFloat.div (PrimFloat.sub h.1.2 h.1.1)
                                   (double_of_int (h.2 - 1)))))
  /\ (forall (i : nat) h,
        Z.of_nat i < table_columns c (paircol s0) (ntypes s0) ->
        hdr !! i = Some h ->
        cell (imem w'.2) (first p) (Z.of_nat i)
        = Some (first_of (hdr.*2) i)
        /\ cell (dmem w'.2) (xcoord p) (first_of (hdr.*2) i - 2) = None
        /\ cell (dmem w'.2) (xcoord p) (first_of (hdr.*2) i - 1) = None
        /\ forall j, 0 <= j < h.2 ->
             cell (dmem w'.2) (xcoord p) (first_of (hdr.*2) i + j)
             = Some (PrimFloat.add h.1.1
                       (PrimFloat.mul (double_of_int j)
                          (PrimFloat.div (PrimFloat.sub h.1.2 h.1.1)
                             (double_of_int (h.2 - 1)))))).
Proof.
  intros Hsep Hm HP HN Hh Hnn Hrun p.
  destruct (read_pot_table3_loaded _ _ _ _ _ _ Hsep Hrun) as (hdr' & Hh' & Hld).
  rewrite Hh in Hh'. injection Hh' as <-.
  set (T := mk_tables hdr (invar_pot s0) (gradient s0)) in *.
  set (vs := visits (blocks c (paircol s0) (ntypes s0))).
  pose proof (ld_cells _ _ _ _ Hld) as Hcells.
  split.
  - intros i h Hi. destruct (Hcells i h Hi) as (? & ? & ? & ? & _).
    by split_and!.
  - intros i h Hcol Hi.
    destruct (Hcells i h Hi) as (_ & _ & _ & _ & Hf & _).
    split; [done|].
    assert (Hlen : length vs = Z.to_nat (table_columns c (paircol s0) (ntypes s0))).
    { pose proof (f_equal length (visits_in_order _ _ _ Hm HP HN)) as E.
      by rewrite length_fmap, length_seqZ in E. }
    destruct (lookup_lt_is_Some_2 vs i) as [v Hv]; [lia|].
    pose proof (visits_lookup _ _ _ _ _ Hm HP HN Hv) as Hv2.
    pose proof (lookup_lt_Some _ _ _ Hi) as Hilt.
    assert (He : extent T (take i vs) = first_of (hdr.*2) i - 2).
    { apply (extent_first_of c (paircol s0) (ntypes s0) T i Hm HP HN);
        [fold vs; lia|simpl; lia|done]. }
    assert (Hcount : count_at T v.2 = h.2).
    { apply count_at_lookup. by rewrite Hv2, Nat2Z.id. }
    assert (Hn0 : 0 <= h.2).
    { eapply Forall_lookup_1 in Hnn; [|done]. done. }
    assert (Hspan : span T v = 2 + h.2).
    { unfold span. rewrite Hcount. lia. }
    assert (Hx : forall q, 0 <= q < span T v ->
              cell (dmem w'.2) (xcoord p) (first_of (hdr.*2) i - 2 + q)
              = slot_at (fn_xcoord (begin_at T v.2) (step_at T v.2)
                           (count_at T v.2)) q).
    { intros q Hq. pose proof (extent_nonneg T (take i vs)).
      rewrite <- He.
      rewrite (ld_xcoord _ _ _ _ Hld) by lia. fold vs.
      by rewrite <- (coordinates_slot T vs i v q Hv Hq). }
    split_and!.
    + rewrite <- (Z.add_0_r (_ - 2)). rewrite Hx by lia.
      by apply fn_xcoord_gradient.
    + replace (first_of hdr.*2 i - 1) with (first_of hdr.*2 i - 2 + 1) by lia.
      rewrite Hx by lia. by apply fn_xcoord_gradient.
    + intros j Hj.
      replace (first_of hdr.*2 i + j) with (first_of hdr.*2 i - 2 + (2 + j))
        by lia.
      rewrite Hx by lia. rewrite Hcount, fn_xcoord_sample by done.
      rewrite (begin_at_lookup T v.2 h), (step_at_lookup T v.2 h);
        [done|by rewrite Hv2, Nat2Z.id..].
Qed.

Lemma steps_and_coordinates_witness :
  match read_pot_table3 pair_model pair_call (pair_file, pair_state) with
  | Ok (_, w') =>
      cell (dmem w'.2) (step (opt_pot w'.2)) 0 = Some 0.5%float
      /\ cell (dmem w'.2) (xcoord (opt_pot w'.2)) 3 = Some 0.5%float
  | _ => False
  end.
Proof.
  destruct (read_pot_table3 pair_model pair_call (pair_file, pair_state))
    as [[u w']| |] eqn:E; [|vm_compute in E; discriminate..].
  destruct (steps_and_coordinates pair_model pair_call pair_file pair_state
              u w' pair_header
              (caller_state_separated _ _ _ _ _) eq_refl) as [H1 H2];
    [done|done|done|repeat constructor; done|exact E|].
  destruct (H1 0%nat (0%float, 1%float, 3) eq_refl) as (_ & _ & Hs & _).
  destruct (H2 0%nat (0%float, 1%float, 3)) as (_ & _ & _ & Hx); [done|done|].
  split; [exact Hs|]. exact (Hx 1 ltac:(simpl; lia)).
Defined.

Lemma stored_iff c T s0 s' o :
  loaded c T s0 s' ->
  stored s' o <->
  o ∈ free_offsets c (paircol s0) (ntypes s0) T
        (visits (blocks c (paircol s0) (ntypes s0))) 0.
Proof.
  intros Hld. unfold stored. rewrite (ld_idxlen _ _ _ _ Hld). split.
  - intros (q & Hq & Hc). rewrite (ld_idx _ _ _ _ Hld) in Hc by lia.
    by eapply list_elem_of_lookup_2.
  - intros (q & Hq)%list_elem_of_lookup_1. exists (Z.of_nat q).
    pose proof (lookup_lt_Some _ _ _ Hq).
    rewrite (ld_idx _ _ _ _ Hld), Nat2Z.id by lia. split; [lia|done].
Qed.

Lemma sample_rule_cases c P N κ i n j :
  sample_rule c P N κ i n j
  = if j <? n - 1 then negb (clamped c P N κ i j)
    else if j =? n - 1 then keeps_last c κ
         else match κ with
              | Embed | SEmbed | Angular => true
              | SecondPair => MEAMf c
              | _ => false
              end.
Proof.
  unfold sample_rule, clamped, keeps_last.
  destruct κ, (MEAMf c), (j <? n - 1), (j =? n - 1), (j =? 0),
    (i =? P + 2 * N); done.
Qed.

(** A slot of function [i], [s] slots after its first gradient slot, is
    stored exactly when the function contributes it. *)
Lemma slot_stored c ps f0 s0 u w' hdr (i : nat) v h s :
  separated (opt_pot s0) ->
  one_model c = true -> 0 <= paircol s0 -> 0 <= ntypes s0 ->
  header_lines (Z.to_nat (num_pots ps)) f0 = Some hdr ->
  Forall (fun h : float * float * Z => 0 <= h.2) hdr ->
  read_pot_table3 c ps (f0, s0) = Ok (u, w') ->
  visits (blocks c (paircol s0) (ntypes s0)) !! i = Some v ->
  hdr !! i = Some h -> 0 <= s < 2 + h.2 ->
  stored w'.2 (first_of (hdr.*2) i - 2 + s) <->
  first_of (hdr.*2) i - 2 + s
    ∈ fn_free c (paircol s0) (ntypes s0) v.1 (Z.of_nat i) h.2
        (default 1 (invar_pot s0 !! i)) (default 0 (gradient s0 !! i))
        (first_of (hdr.*2) i - 2).
Proof.
  intros Hsep Hm HP HN Hh Hnn Hrun Hv Hi Hs.
  destruct (read_pot_table3_loaded _ _ _ _ _ _ Hsep Hrun) as (hdr' & Hh' & Hld).
  rewrite Hh in Hh'. injection Hh' as <-.
  set (T := mk_tables hdr (invar_pot s0) (gradient s0)) in *.
  set (vs := visits (blocks c (paircol s0) (ntypes s0))) in *.
  pose proof (visits_lookup _ _ _ _ _ Hm HP HN Hv) as Hv2.
  pose proof (lookup_lt_Some _ _ _ Hi) as Hilt.
  pose proof (lookup_lt_Some _ _ _ Hv) as Hvlt.
  assert (He : extent T (take i vs) = first_of (hdr.*2) i - 2).
  { apply (extent_first_of c (paircol s0) (ntypes s0) T i Hm HP HN);
      [fold vs; lia|simpl; lia|done]. }
  assert (Hcount : count_at T v.2 = h.2).
  { apply count_at_lookup. by rewrite Hv2, Nat2Z.id. }
  rewrite (stored_iff _ _ _ _ _ Hld). fold vs. rewrite <- He.
  rewrite (free_offsets_slot _ _ _ _ _ _ v) by (done || unfold span; lia).
  rewrite Hcount, Hv2. unfold invar_at, gradient_at. simpl.
  by rewrite Nat2Z.id.
Qed.

Lemma default_invar_zero (o : option Z) : default 1 o = 0 <-> o = Some 0.
Proof. destruct o as [z|]; simpl; [|done]. split; congruence. Qed.

Lemma default_gradient_bit (f : Z -> Z) (o : option Z) :
  f 0 = 0 ->
  f (default 0 o) ≠ 0 <-> exists g, o = Some g /\ f g ≠ 0.
Proof.
  intros Hf. destruct o as [z|]; simpl.
  - split; [eauto|]. by intros (g & [= <-] & ?).
  - split; [done|]. by intros (g & [=] & _).
Qed.

(** ** The scan rule (C2, as amended) *)

(** C2, amended. With the functions in table order: a function whose
    invariant flag is set contributes no offset; its first gradient slot
    is stored exactly when it is not invariant and [gradient[i] >> 1] is
    not zero, its second exactly when it is not invariant and
    [gradient[i] % 2] is not zero; a sample point before the last is
    stored exactly when the function is not invariant and the point is not
    the clamped first knot of the first second-pair function; the last
    sample point is stored exactly when the function is not invariant and
    its kind keeps it: the embedding functions, the angular functions and,
    under MEAMf, the second-pair functions. *)
Theorem free_index_rule c ps f0 s0 u w' hdr (i : nat) κ h :
  separated (opt_pot s0) ->
  one_model c = true -> 0 <= paircol s0 -> 0 <= ntypes s0 ->
  header_lines (Z.to_nat (num_pots ps)) f0 = Some hdr ->
  Forall (fun h : float * float * Z => 0 <= h.2) hdr ->
  read_pot_table3 c ps (f0, s0) = Ok (u, w') ->
  visits (blocks c (paircol s0) (ntypes s0)) !! i = Some (κ, Z.of_nat i) ->
  hdr !! i = Some h ->
  let f := first_of (hdr.*2) i in
  let variable := invar_pot s0 !! i = Some 0 in
  (~ variable -> forall q, -2 <= q < h.2 -> ~ stored w'.2 (f + q))
  /\ (stored w'.2 (f - 2) <->
      variable /\ exists g, gradient s0 !! i = Some g /\ Z.shiftr g 1 ≠ 0)
  /\ (stored w'.2 (f - 1) <->
      variable /\ exists g, gradient s0 !! i = Some g /\ Z.rem g 2 ≠ 0)
  /\ (forall j, 0 <= j < h.2 - 1 ->
        stored w'.2 (f + j) <->
        variable
        /\ clamped c (paircol s0) (ntypes s0) κ (Z.of_nat i) j = false)
  /\ (1 <= h.2 ->
        stored w'.2 (f + h.2 - 1) <-> variable /\ keeps_last c κ = true).
Proof.
  intros Hsep Hm HP HN Hh Hnn Hrun Hv Hi f variable.
  assert (Hn0 : 0 <= h.2).
  { eapply Forall_lookup_1 in Hnn; [|done]. done. }
  assert (Hslot : forall s, 0 <= s < 2 + h.2 ->
    stored w'.2 (f - 2 + s) <->
    variable
    /\ ((s = 0 /\ exists g, gradient s0 !! i = Some g /\ Z.shiftr g 1 ≠ 0)
        \/ (s = 1 /\ exists g, gradient s0 !! i = Some g /\ Z.rem g 2 ≠ 0)
        \/ (2 <= s
            /\ sample_rule c (paircol s0) (ntypes s0) κ (Z.of_nat i) h.2
                 (s - 2) = true))).
  { intros s Hs. unfold f.
    rewrite (slot_stored c ps f0 s0 u w' hdr i (κ, Z.of_nat i) h s)
      by done.
    rewrite fn_free_elem, default_invar_zero. cbn [fst].
    rewrite <- (default_gradient_bit (fun g => Z.shiftr g 1)) by done.
    rewrite <- (default_gradient_bit (fun g => Z.rem g 2)) by done.
    split; (intros [Hvar Hcases]; split; [done|]).
    - destruct Hcases as [[? ?]|[[? ?]|(j & Hj & ? & Hr)]].
      + left. split; [lia|done].
      + right. left. split; [lia|done].
      + right. right. split; [lia|]. by replace (s - 2) with j by lia.
    - destruct Hcases as [[-> ?]|[[-> ?]|[? Hr]]].
      + left. split; [lia|done].
      + right. left. split; [lia|done].
      + right. right. exists (s - 2). split_and!; (lia || done). }
  split_and!.
  - intros Hnv q Hq Hst.
    replace (f + q) with (f - 2 + (q + 2)) in Hst by lia.
    apply Hslot in Hst; [|lia]. tauto.
  - rewrite <- (Z.add_0_r (f - 2)), Hslot by lia.
    split; [intros [? [[_ ?]|[[? _]|[? _]]]]; (done || lia)|].
    intros [? ?]. split; [done|]. by left.
  - replace (f - 1) with (f - 2 + 1) by lia. rewrite Hslot by lia.
    split; [intros [? [[? _]|[[_ ?]|[? _]]]]; (done || lia)|].
    intros [? ?]. split; [done|]. right. by left.
  - intros j Hj. replace (f + j) with (f - 2 + (j + 2)) by lia.
    rewrite Hslot by lia. replace (j + 2 - 2) with j by lia.
    rewrite sample_rule_cases.
    destruct (Z.ltb_spec j (h.2 - 1)); [|lia].
    rewrite negb_true_iff.
    split; [intros [? [[? _]|[[? _]|[_ ?]]]]; (done || lia)|].
    intros [? ?]. split; [done|]. right. right. split; [lia|done].
  - intros Hn1. replace (f + h.2 - 1) with (f - 2 + (h.2 + 1)) by lia.
    rewrite Hslot by lia. replace (h.2 + 1 - 2) with (h.2 - 1) by lia.
    rewrite sample_rule_cases.
    destruct (Z.ltb_spec (h.2 - 1) (h.2 - 1)); [lia|].
    rewrite Z.eqb_refl.
    split; [intros [? [[? _]|[[? _]|[_ ?]]]]; (done || lia)|].
    intros [? ?]. split; [done|]. right. right. split; [lia|done].
Qed.

Lemma free_index_rule_witness :
  match read_pot_table3 meam_model meam_call (meam_file, meam_state) with
  | Ok (_, w') => stored w'.2 19 <-> True /\ true = true
  | _ => False
  end.
Proof.
  destruct (read_pot_table3 meam_model meam_call (meam_file, meam_state))
    as [[u w']| |] eqn:E; [|vm_compute in E; discriminate..].
  destruct (free_index_rule meam_model meam_call meam_file meam_state u w'
              meam_header 4%nat Angular (0%float, 1%float, 2)
              (caller_state_separated _ _ _ _ _) eq_refl)
    as (_ & _ & _ & _ & Hlast);
    [done|done|done|repeat constructor; done|exact E|done|done|].
  clear E. split.
  - intros _. by split.
  - intros _. apply Hlast; [simpl; lia|by split].
Defined.

(** C2 as stated fails: the last sample point of the angular function of
    a MEAM table, which is no embedding function, is in the free index. *)
Lemma angular_last_point_is_free :
  match read_pot_table3 meam_model meam_call (meam_file, meam_state) with
  | Ok (_, w') =>
      visits (blocks meam_model 1 1) !! 4%nat = Some (Angular, 4)
      /\ meam_header !! 4%nat = Some (0%float, 1%float, 2)
      /\ first_of (meam_header.*2) 4 + 2 - 1 = 19
      /\ stored w'.2 19
  | _ => False
  end.
Proof.
  destruct (read_pot_table3 meam_model meam_call (meam_file, meam_state))
    as [[u w']| |] eqn:E; [|vm_compute in E; discriminate..].
  vm_compute in E. injection E as <- <-.
  split_and!; [done..|]. exists 5. split; [done|]. reflexivity.
Qed.

(** ** The clamped first knot (C3) *)

Lemma second_pair_visit c P N :
  MEAM c = true -> one_model c = true -> 0 < P -> 0 <= N ->
  visits (blocks c P N) !! Z.to_nat (P + 2 * N) = Some (SecondPair, P + 2 * N).
Proof.
  intros HM Hm HP HN.
  assert (Hin : (SecondPair, P + 2 * N) ∈ visits (blocks c P N)).
  { apply list_elem_of_In, in_flat_map.
    exists (SecondPair, P + 2 * N, 2 * P + 2 * N). split.
    - unfold blocks. rewrite HM. apply list_elem_of_In.
      rewrite !elem_of_app. right. right. right. left.
    - apply list_elem_of_In, list_elem_of_fmap. exists (P + 2 * N).
      split; [done|]. apply elem_of_seqZ. cbn [fst snd]. lia. }
  apply list_elem_of_lookup_1 in Hin as [m Hm'].
  assert (HP0 : 0 <= P) by lia.
  pose proof (visits_lookup _ _ _ _ _ Hm HP0 HN Hm') as E.
  cbn [snd] in E. rewrite E, Nat2Z.id. by rewrite <- E.
Qed.

(** C3. In a MEAM table the first sample point of the first second-pair
    function (function [paircol + 2 * ntypes]) is never in the free index,
    whatever the invariant flags are. The table is one of a build without
    MEAMf; with MEAMf the loop does not compile (see [config]). *)
Theorem first_knot_clamped c ps f0 s0 u w' hdr h :
  separated (opt_pot s0) ->
  MEAM c = true -> MEAMf c = false -> one_model c = true ->
  0 < paircol s0 -> 0 <= ntypes s0 ->
  header_lines (Z.to_nat (num_pots ps)) f0 = Some hdr ->
  Forall (fun h : float * float * Z => 0 <= h.2) hdr ->
  read_pot_table3 c ps (f0, s0) = Ok (u, w') ->
  hdr !! Z.to_nat (paircol s0 + 2 * ntypes s0) = Some h -> 1 <= h.2 ->
  ~ stored w'.2 (first_of (hdr.*2) (Z.to_nat (paircol s0 + 2 * ntypes s0))).
Proof.
  intros Hsep HM HMf Hm HP HN Hh Hnn Hrun Hi Hn Hst.
  set (i := Z.to_nat (paircol s0 + 2 * ntypes s0)) in *.
  pose proof (second_pair_visit c _ _ HM Hm HP HN) as Hv. fold i in Hv.
  replace (first_of hdr.*2 i) with (first_of hdr.*2 i - 2 + 2) in Hst by lia.
  eapply (slot_stored c ps f0 s0 u w' hdr i _ h 2) in Hst;
    [|done|done|lia|done..|lia].
  apply fn_free_elem in Hst as [_ [[? _]|[[? _]|(j & Hj & Hj2 & Hr)]]];
    [lia|lia|].
  assert (j = 0) as -> by lia. cbn [fst] in Hr.
  unfold sample_rule in Hr. rewrite HMf in Hr.
  replace (Z.of_nat i) with (paircol s0 + 2 * ntypes s0) in Hr by lia.
  rewrite !Z.eqb_refl in Hr. simpl in Hr. by rewrite andb_false_r in Hr.
Qed.

Lemma first_knot_clamped_witness :
  match read_pot_table3 meam_model meam_call (meam_file, meam_state) with
  | Ok (_, w') => ~ stored w'.2 14
  | _ => False
  end.
Proof.
  destruct (read_pot_table3 meam_model meam_call (meam_file, meam_state))
    as [[u w']| |] eqn:E; [|vm_compute in E; discriminate..].
  apply (first_knot_clamped meam_model meam_call meam_file meam_state u w'
           meam_header (0%float, 1%float, 2)
           (caller_state_separated _ _ _ _ _));
    [done|done|done|simpl; lia|done|done|repeat constructor; done|exact E
    |done|simpl; lia].
Defined.

(** ** The free index as a whole (C5) *)

Lemma free_not_fixed c P N T vs o :
  o ∈ free_offsets c P N T vs 0 -> ~ always_fixed c P N T vs o.
Proof.
  intros Ho (m & v & s & Hv & Hs & -> & Hfix).
  apply (free_offsets_slot c P N T vs m v s Hv Hs) in Ho.
  apply fn_free_elem in Ho as [Hinv Hcases].
  destruct Hfix as [?|[[-> Hg]|[[-> Hg]|[Hs2 Hr]]]]; [done| | |].
  - destruct Hcases as [[_ ?]|[[? _]|(j & ? & ? & _)]]; (done || lia).
  - destruct Hcases as [[? _]|[[_ ?]|(j & ? & ? & _)]]; (done || lia).
  - destruct Hcases as [[? _]|[[? _]|(j & ? & ? & Hr')]]; [lia|lia|].
    replace (s - 2) with j in Hr by lia. congruence.
Qed.

(** The free index depends on the sample counts and the flags only. *)
Lemma free_offsets_ext c P N T T' vs start :
  (t_hdr T).*2 = (t_hdr T').*2 ->
  t_invar T = t_invar T' -> t_gradient T = t_gradient T' ->
  free_offsets c P N T vs start = free_offsets c P N T' vs start.
Proof.
  intros Hh Hi Hg. revert start.
  induction vs as [|v vs IH]; intros start; [done|].
  cbn [free_offsets]. rewrite IH. unfold span, count_at, invar_at, gradient_at.
  by rewrite Hh, Hi, Hg.
Qed.

(** C5. When [read_pot_table3] returns, [pt->idxlen] is the number of
    offsets stored into [pt->idx]; the stored offsets are positions in
    [0, pt->len), none on the always-fixed list, and strictly increasing;
    they are the sequence [free_offsets] lists function by function in
    loop order, first gradient slot, second gradient slot, then samples;
    and a second read with the same model, sample counts and flags stores
    the same sequence, whatever its sample values and domains are. *)
Theorem free_index_invariant c ps f0 s0 u w' :
  separated (opt_pot s0) ->
  read_pot_table3 c ps (f0, s0) = Ok (u, w') ->
  exists hdr,
    header_lines (Z.to_nat (num_pots ps)) f0 = Some hdr
    /\ let T := mk_tables hdr (invar_pot s0) (gradient s0) in
       let vs := visits (blocks c (paircol s0) (ntypes s0)) in
       let acc := free_offsets c (paircol s0) (ntypes s0) T vs 0 in
       idxlen (opt_pot w'.2) = Z.of_nat (length acc)
       /\ (forall q, 0 <= q ->
             cell (imem w'.2) (idx (opt_pot w'.2)) q = acc !! Z.to_nat q)
       /\ Forall (fun o => 0 <= o < len (opt_pot w'.2)) acc
       /\ Forall (fun o => ~ always_fixed c (paircol s0) (ntypes s0) T vs o) acc
       /\ StronglySorted Z.lt acc
       /\ (forall ps2 f2 s2 u2 w2 hdr2,
             separated (opt_pot s2) ->
             read_pot_table3 c ps2 (f2, s2) = Ok (u2, w2) ->
             header_lines (Z.to_nat (num_pots ps2)) f2 = Some hdr2 ->
             hdr2.*2 = hdr.*2 ->
             invar_pot s2 = invar_pot s0 -> gradient s2 = gradient s0 ->
             paircol s2 = paircol s0 -> ntypes s2 = ntypes s0 ->
             idxlen (opt_pot w2.2) = idxlen (opt_pot w'.2)
             /\ forall q, 0 <= q ->
                  cell (imem w2.2) (idx (opt_pot w2.2)) q
                  = cell (imem w'.2) (idx (opt_pot w'.2)) q).
Proof.
  intros Hsep Hrun.
  destruct (read_pot_table3_loaded _ _ _ _ _ _ Hsep Hrun) as (hdr & Hh & Hld).
  exists hdr. split; [done|]. intros T vs acc.
  split_and!.
  - apply (ld_idxlen _ _ _ _ Hld).
  - apply (ld_idx _ _ _ _ Hld).
  - apply Forall_forall. intros o Ho%free_offsets_range.
    pose proof (ld_extent _ _ _ _ Hld). fold T vs in H. lia.
  - apply Forall_forall. intros o Ho. by apply free_not_fixed.
  - apply free_offsets_sorted.
  - intros ps2 f2 s2 u2 w2 hdr2 Hsep2 Hrun2 Hh2 Hc Hi Hg HP HN.
    destruct (read_pot_table3_loaded _ _ _ _ _ _ Hsep2 Hrun2)
      as (hdr2' & Hh2' & Hld2).
    rewrite Hh2 in Hh2'. injection Hh2' as <-.
    assert (E : free_offsets c (paircol s2) (ntypes s2)
                  (mk_tables hdr2 (invar_pot s2) (gradient s2))
                  (visits (blocks c (paircol s2) (ntypes s2))) 0 = acc).
    { rewrite HP, HN. by apply free_offsets_ext. }
    split.
    + by rewrite (ld_idxlen _ _ _ _ Hld2), (ld_idxlen _ _ _ _ Hld), E.
    + intros q Hq.
      by rewrite (ld_idx _ _ _ _ Hld2), (ld_idx _ _ _ _ Hld), E.
Qed.

Lemma free_index_invariant_witness :
  match read_pot_table3 pair_model pair_call (pair_file, pair_state) with
  | Ok (_, w') =>
      exists hdr, header_lines 2 pair_file = Some hdr
                  /\ idxlen (opt_pot w'.2) = 6
  | _ => False
  end.
Proof.
  destruct (read_pot_table3 pair_model pair_call (pair_file, pair_state))
    as [[u w']| |] eqn:E; [|vm_compute in E; discriminate..].
  destruct (free_index_invariant pair_model pair_call pair_file pair_state
              u w' (caller_state_separated _ _ _ _ _) E)
    as (hdr & Hh & Hlen & _).
  exists hdr. split; [exact Hh|]. clear E.
  vm_compute in Hh. injection Hh as <-. exact Hlen.
Defined.

(** ** The gauge check on embedding functions (C9, as amended) *)

Lemma embed_visit c P N i :
  EAM c || ADP c || MEAM c = true -> P + N <= i < P + 2 * N ->
  (Embed, i) ∈ visits (blocks c P N).
Proof.
  intros HE Hi. apply list_elem_of_In, in_flat_map.
  exists (Embed, P + N, P + 2 * N). split.
  - unfold blocks. rewrite HE. apply list_elem_of_In.
    rewrite !elem_of_app. right. left. left. right. left.
  - apply list_elem_of_In, list_elem_of_fmap. exists i.
    split; [done|]. apply elem_of_seqZ. cbn [fst snd]. lia.
Qed.

Lemma check_embedding_Fatal c i w b e :
  RESCALE c = false ->
  cell (dmem w.2) (begin (opt_pot w.2)) i = Some b ->
  cell (dmem w.2) (end_ (opt_pot w.2)) i = Some e ->
  PrimFloat.ltb 1 b = true \/ PrimFloat.ltb e 1 = true ->
  check_embedding c Embed i w = Fatal (InsufficientSampling b e).
Proof.
  intros HR Hb He Hlt. unfold check_embedding. rewrite HR.
  unfold bind, get_pt, dload, gets. cbn [fst snd]. rewrite Hb.
  destruct (PrimFloat.ltb 1 b) eqn:E1; rewrite He; [done|].
  destruct Hlt as [?|Hlt]; [done|]. by rewrite Hlt.
Qed.

Lemma SFcompare_antisym x y c :
  SFcompare x y = Some c -> SFcompare y x = Some (CompOpp c).
Proof.
  destruct x as [s1|s1| |s1 m1 e1], y as [s2|s2| |s2 m2 e2]; simpl;
    intros [= <-]; try done; try (by destruct s1); try (by destruct s2);
    try (by destruct s1, s2).
  destruct s1, s2; try done.
  - rewrite (Z.compare_antisym e1 e2).
    destruct (e1 ?= e2)%Z; simpl; try done.
    pose proof (Pos.compare_cont_antisym m1 m2 Eq) as H. simpl in H.
    by rewrite H.
  - rewrite (Z.compare_antisym e1 e2).
    destruct (e1 ?= e2)%Z; simpl; try done.
    pose proof (Pos.compare_cont_antisym m1 m2 Eq) as H. simpl in H.
    by rewrite H.
Qed.

Lemma SFcompare_None x y :
  SFcompare x y = None -> SFcompare x x = None \/ SFcompare y y = None.
Proof.
  destruct x as [s1|s1| |s1 m1 e1], y as [s2|s2| |s2 m2 e2]; simpl;
    intros H; try done; auto.
Qed.

(** For numbers, [x < y] fails only when [y <= x]. *)
Lemma ltb_false_leb x y :
  PrimFloat.ltb x y = false ->
  PrimFloat.is_nan x = false -> PrimFloat.is_nan y = false ->
  PrimFloat.leb y x = true.
Proof.
  unfold PrimFloat.is_nan. rewrite FloatAxioms.ltb_spec, FloatAxioms.leb_spec, !FloatAxioms.eqb_spec.
  unfold SFltb, SFleb, SFeqb. intros Hlt Hx Hy.
  destruct (SFcompare (Prim2SF x) (Prim2SF y)) as [c|] eqn:E.
  - rewrite (SFcompare_antisym _ _ _ E). by destruct c.
  - apply SFcompare_None in E as [E|E]; rewrite E in *; done.
Qed.

(** C9, amended. Without RESCALE, the body of the loop over the
    embedding functions (functions [paircol + ntypes] to
    [paircol + 2 * ntypes - 1]) ends the run with the sampling diagnostic
    as soon as it finds [begin[i] > 1.0] or [end[i] < 1.0], whatever is
    left in the file and before it reads the function's gradient or
    values; so when [read_pot_table3] returns, neither holds of any of
    these functions, and [begin[i] <= 1.0 <= end[i]] when both bounds are
    numbers. *)
Theorem embedding_domain_checked c ps f0 s0 u w' hdr :
  RESCALE c = false ->
  (forall nvals i cur w b e,
     cell (dmem w.2) (begin (opt_pot w.2)) i = Some b ->
     cell (dmem w.2) (end_ (opt_pot w.2)) i = Some e ->
     PrimFloat.ltb 1 b = true \/ PrimFloat.ltb e 1 = true ->
     read_function c ps nvals Embed i cur w
     = Fatal (InsufficientSampling b e))
  /\ (separated (opt_pot s0) ->
      EAM c || ADP c || MEAM c = true ->
      header_lines (Z.to_nat (num_pots ps)) f0 = Some hdr ->
      read_pot_table3 c ps (f0, s0) = Ok (u, w') ->
      forall i, paircol s0 + ntypes s0 <= i < paircol s0 + 2 * ntypes s0 ->
        exists h, hdr !! Z.to_nat i = Some h
          /\ cell (dmem w'.2) (begin (opt_pot w'.2)) i = Some h.1.1
          /\ cell (dmem w'.2) (end_ (opt_pot w'.2)) i = Some h.1.2
          /\ PrimFloat.ltb 1 h.1.1 = false
          /\ PrimFloat.ltb h.1.2 1 = false
          /\ (PrimFloat.is_nan h.1.1 = false ->
              PrimFloat.is_nan h.1.2 = false ->
              PrimFloat.leb h.1.1 1 = true /\ PrimFloat.leb 1 h.1.2 = true)).
Proof.
  intros HR. split.
  - intros nvals i cur w b e Hb He Hlt.
    unfold read_function, bind at 1.
    by rewrite (check_embedding_Fatal c i w b e HR Hb He Hlt).
  - intros Hsep HE Hh Hrun i Hi.
    destruct (read_pot_table3_loaded _ _ _ _ _ _ Hsep Hrun)
      as (hdr' & Hh' & Hld).
    rewrite Hh in Hh'. injection Hh' as <-.
    pose proof (embed_visit c _ _ i HE Hi) as Hin.
    pose proof (ld_visits _ _ _ _ Hld) as Hok.
    eapply Forall_forall in Hok; [|exact Hin].
    destruct Hok as [Hrange Hdom]. cbn [fst snd t_hdr] in *.
    destruct (lookup_lt_is_Some_2 hdr (Z.to_nat i)) as [h Hth]; [lia|].
    exists h. split; [done|].
    destruct (ld_cells _ _ _ _ Hld _ _ Hth) as (Hcb & Hce & _).
    rewrite Z2Nat.id in Hcb, Hce by lia.
    destruct (Hdom eq_refl HR) as [H1 H2].
    rewrite (begin_at_lookup _ _ h) in H1 by done.
    rewrite (end_at_lookup _ _ h) in H2 by done.
    split_and!; try done.
    intros Hnb Hne. split; apply ltb_false_leb; done.
Qed.

Lemma embedding_domain_checked_witness :
  match read_pot_table3 eam_model eam_call (eam_file, eam_state) with
  | Ok (_, w') =>
      cell (dmem w'.2) (begin (opt_pot w'.2)) 2 = Some 0%float
      /\ cell (dmem w'.2) (end_ (opt_pot w'.2)) 2 = Some 1%float
      /\ PrimFloat.leb 0 1 = true /\ PrimFloat.leb 1 1 = true
  | _ => False
  end.
Proof.
  destruct (read_pot_table3 eam_model eam_call (eam_file, eam_state))
    as [[u w']| |] eqn:E; [|vm_compute in E; discriminate..].
  destruct (embedding_domain_checked eam_model eam_call eam_file eam_state
              u w' (replicate 3 (0%float, 1%float, 2)) eq_refl)
    as [_ Hb].
  destruct (Hb (caller_state_separated _ _ _ _ _) eq_refl eq_refl E 2)
    as (h & Hh & Hcb & Hce & _ & _ & Hle); [simpl; lia|].
  clear E Hb. injection Hh as <-.
  destruct (Hle eq_refl eq_refl) as [Hl1 Hl2]. by split_and!.
Defined.

(** C9 as stated fails. The s-band embedding function of a TBEAM table is
    read from a file that gives it the domain [2, 3]; and the embedding
    function of an EAM table is read from a file that gives it the domain
    [nan, nan], of which neither comparison of the check holds. *)
Lemma embedding_domain_without_one :
  match read_pot_table3 tbeam_model tbeam_call (tbeam_file, tbeam_state) with
  | Ok (_, w') =>
      visits (blocks tbeam_model 1 1) !! 4%nat = Some (SEmbed, 4)
      /\ cell (dmem w'.2) (begin (opt_pot w'.2)) 4 = Some 2%float
      /\ cell (dmem w'.2) (end_ (opt_pot w'.2)) 4 = Some 3%float
      /\ PrimFloat.ltb 1 2 = true
  | _ => False
  end
  /\ match read_pot_table3 eam_model eam_call (nan_file, eam_state) with
     | Ok (_, w') =>
         visits (blocks eam_model 1 1) !! 2%nat = Some (Embed, 2)
         /\ cell (dmem w'.2) (begin (opt_pot w'.2)) 2 = Some nan
         /\ cell (dmem w'.2) (end_ (opt_pot w'.2)) 2 = Some nan
         /\ PrimFloat.leb nan 1 = false /\ PrimFloat.leb 1 nan = false
     | _ => False
     end.
Proof. split; vm_compute; repeat split; reflexivity. Qed.

(** ** Incomplete and malformed files (C4, as amended) *)

Lemma after_app part (f e : list token) : after part (f ++ e) = after part f ++ e.
Proof. by destruct part. Qed.

Lemma and_then_Goes_r sc f : and_then sc Goes f = sc f.
Proof. unfold and_then. by destruct (sc f). Qed.

Lemma and_then_assoc sc1 sc2 sc3 f :
  and_then (and_then sc1 sc2) sc3 f = and_then sc1 (and_then sc2 sc3) f.
Proof. unfold and_then. by destruct (sc1 f). Qed.

Lemma reports_refl pl : reports pl pl.
Proof. destruct pl as [| [] |]; simpl; eauto. Qed.

Lemma reports_gradient κ i : reports (GradientLine κ (Some i)) (gradient_place κ i).
Proof. destruct κ; simpl; eauto. Qed.

(** *** The reader follows the fields of the file *)

Section located.

Variable fname : string.

#[local] Abbreviation follows m sc := (tracks fname m sc).

Lemma tracks_ret {A : Type} (a : A) : follows (ret a) Goes.
Proof. by intros f s. Qed.

Lemma tracks_gets {A : Type} (g : state -> option A) : follows (gets g) Goes.
Proof. intros f s. unfold gets. cbn [snd]. by destruct (g s). Qed.

Lemma tracks_modify (g : state -> option state) : follows (modify g) Goes.
Proof. intros f s. unfold modify. cbn [fst snd]. by destruct (g s). Qed.

Lemma tracks_undefined {A : Type} sc : follows (@undefined A) sc.
Proof. by intros f s. Qed.

Lemma tracks_sampling {A : Type} b e sc :
  follows (@error1 A (InsufficientSampling b e)) sc.
Proof. by intros f s. Qed.

Lemma tracks_premature {A : Type} pl0 pl :
  reports pl0 pl ->
  follows (@error1 A (PrematureEnd fname pl)) (fun _ => Stops pl0).
Proof. intros H f s. simpl. eauto. Qed.

Lemma tracks_Malloc_double n : follows (Malloc_double n) Goes.
Proof.
  unfold Malloc_double. destruct (n <? 0); [apply tracks_undefined|].
  by intros f s.
Qed.

Lemma tracks_Malloc_int n : follows (Malloc_int n) Goes.
Proof.
  unfold Malloc_int. destruct (n <? 0); [apply tracks_undefined|].
  by intros f s.
Qed.

Lemma tracks_bind {A B : Type} (m : M A) (k : A -> M B) sc1 sc2 :
  follows m sc1 -> (forall a, follows (k a) sc2) ->
  follows (bind m k) (and_then sc1 sc2).
Proof.
  intros Hm Hk f s. specialize (Hm f s). unfold bind, and_then.
  destruct (m (f, s)) as [[a [f1 s1]]|[fn pl|b e]|]; [| |done..].
  - cbn [fst] in Hm. rewrite Hm. apply Hk.
  - destruct Hm as (-> & pl0 & -> & Hr). eauto.
Qed.

Lemma tracks_scanner {A : Type} (m : M A) sc sc' :
  (forall f, sc f = sc' f) -> follows m sc -> follows m sc'.
Proof.
  intros E H f s. specialize (H f s). rewrite <- E.
  by destruct (m (f, s)) as [[a w']|[fn pl|b e]|].
Qed.

Lemma tracks_ext {A : Type} (m m' : M A) sc :
  (forall w, m w = m' w) -> follows m' sc -> follows m sc.
Proof. intros E H f s. rewrite E. apply H. Qed.

(** A computation that reads no field, before and after one that does. *)
Lemma tracks_after {A B : Type} (m : M A) (k : A -> M B) sc :
  follows m Goes -> (forall a, follows (k a) sc) -> follows (bind m k) sc.
Proof. intros Hm Hk. exact (tracks_bind m k Goes sc Hm Hk). Qed.

Lemma tracks_before {A B : Type} (m : M A) (k : A -> M B) sc :
  follows m sc -> (forall a, follows (k a) Goes) -> follows (bind m k) sc.
Proof.
  intros Hm Hk. apply (tracks_scanner _ (and_then sc Goes));
    [apply and_then_Goes_r|]. by apply tracks_bind.
Qed.

Lemma tracks_for_from {L : Type} (body : Z -> L -> M L) sc cnt :
  (forall i a, follows (body i a) (sc i)) ->
  forall lo acc, follows (for_from lo cnt body acc) (each lo cnt sc).
Proof.
  intros Hb. induction cnt as [|cnt IH]; intros lo acc; simpl.
  - apply tracks_ret.
  - apply tracks_bind; [apply Hb|]. intros a. apply IH.
Qed.

(** A conversion whose failure is fatal. *)
Lemma tracks_scan_lf {A : Type} (k : option float -> M A) pl0 sc :
  (forall x, follows (k (Some x)) sc) ->
  follows (k None) (fun _ => Stops pl0) ->
  follows (bind fscanf_lf k) (and_then (need_double pl0) sc).
Proof.
  intros Hs Hn f s. unfold bind, fscanf_lf, and_then, need_double.
  cbn [fst snd].
  destruct (scan_double f) as [[x r]|]; [apply Hs|apply (Hn f s)].
Qed.

Lemma tracks_scan_d {A : Type} (k : option Z -> M A) pl0 sc :
  (forall x, follows (k (Some x)) sc) ->
  follows (k None) (fun _ => Stops pl0) ->
  follows (bind fscanf_d k) (and_then (need_int pl0) sc).
Proof.
  intros Hs Hn f s. unfold bind, fscanf_d, and_then, need_int.
  cbn [fst snd].
  destruct (scan_int f) as [[n r]|]; [|apply (Hn f s)].
  destruct (in_int n); [apply Hs|done].
Qed.

Lemma tracks_scan_lf_lf {A : Type} (k : option (float * float) -> M A) pl0 sc :
  (forall p, follows (k (Some p)) sc) ->
  follows (k None) (fun _ => Stops pl0) ->
  follows (bind fscanf_lf_lf k)
    (and_then (need_double pl0) (and_then (need_double pl0) sc)).
Proof.
  intros Hs Hn.
  apply (tracks_ext _ (bind fscanf_lf (fun r0 =>
                  match r0 with
                  | None => k None
                  | Some x0 =>
                      bind fscanf_lf (fun r1 =>
                        match r1 with
                        | None => k None
                        | Some x1 => k (Some (x0, x1))
                        end)
                  end))).
  { unfold fscanf_lf_lf, bind. intros w.
    destruct (fscanf_lf w) as [[[x0|] w1]| |]; try done.
    destruct (fscanf_lf w1) as [[[x1|] w2]| |]; done. }
  apply tracks_scan_lf; [|done].
  intros x0. apply tracks_scan_lf; [|done]. intros x1. apply Hs.
Qed.

Lemma tracks_scan_lf_lf_d {A : Type} (k : option (float * float * Z) -> M A)
  pl0 sc :
  (forall p, follows (k (Some p)) sc) ->
  follows (k None) (fun _ => Stops pl0) ->
  follows (bind fscanf_lf_lf_d k)
    (and_then (need_double pl0)
       (and_then (need_double pl0) (and_then (need_int pl0) sc))).
Proof.
  intros Hs Hn.
  apply (tracks_ext _ (bind fscanf_lf_lf (fun r =>
                  match r with
                  | None => k None
                  | Some (x0, x1) =>
                      bind fscanf_d (fun r2 =>
                        match r2 with
                        | None => k None
                        | Some n => k (Some (x0, x1, n))
                        end)
                  end))).
  { unfold fscanf_lf_lf_d, bind. intros w.
    destruct (fscanf_lf_lf w) as [[[[x0 x1]|] w1]| |]; try done.
    destruct (fscanf_d w1) as [[[n|] w2]| |]; done. }
  apply tracks_scan_lf_lf; [|done].
  intros [x0 x1]. apply tracks_scan_d; [|done]. intros n. apply Hs.
Qed.

Ltac quiet_step :=
  first
    [ apply tracks_ret | apply tracks_gets | apply tracks_modify
    | apply tracks_undefined | apply tracks_sampling
    | apply tracks_Malloc_double | apply tracks_Malloc_int
    | apply tracks_after; [|intros ?]
    | match goal with
      | |- tracks _ (if ?b then _ else _) _ => destruct b
      | |- tracks _ (match ?x with _ => _ end) _ => destruct x
      end ].

Ltac quiet :=
  unfold get_pt, dload, dstore, iload, istore, array_get, vla_get, vla_set,
    of_option, int_of;
  repeat quiet_step.

Lemma tracks_read_info_line ps i nvals :
  filename ps = fname -> follows (read_info_line ps i nvals) (locate_line i).
Proof.
  intros Hf. unfold read_info_line. apply tracks_after; [quiet|]. intros pt.
  apply (tracks_scanner _
           (and_then (need_double (InfoBlock i))
              (and_then (need_double (InfoBlock i))
                 (and_then (need_int (InfoBlock i)) Goes)))).
  { intros f. unfold locate_line, and_then.
    destruct (need_double (InfoBlock i) f) as [|f1]; [done|].
    destruct (need_double (InfoBlock i) f1) as [|f2]; [done|].
    by destruct (need_int (InfoBlock i) f2). }
  apply tracks_scan_lf_lf_d.
  - intros [[b e] n]. quiet.
  - rewrite Hf. apply tracks_premature, reports_refl.
Qed.

Lemma tracks_take_slot free cur : follows (take_slot free cur) Goes.
Proof. unfold take_slot. quiet. Qed.

Lemma tracks_gradient_is_free g i : follows (gradient_is_free g i) Goes.
Proof. unfold gradient_is_free. quiet. Qed.

Lemma tracks_check_embedding c κ i : follows (check_embedding c κ i) Goes.
Proof. unfold check_embedding. quiet. Qed.

Lemma tracks_read_value c ps nvals κ i j cur :
  filename ps = fname ->
  follows (read_value c ps nvals κ i j cur) (need_double (ValueLine κ i j)).
Proof.
  intros Hf. unfold read_value. apply tracks_after; [quiet|]. intros pt.
  apply (tracks_scanner _ (and_then (need_double (ValueLine κ i j)) Goes));
    [apply and_then_Goes_r|].
  apply tracks_scan_lf.
  - intros v. repeat (apply tracks_after; [quiet|intros ?]).
    apply tracks_take_slot.
  - rewrite Hf. apply tracks_premature, reports_refl.
Qed.

Lemma tracks_read_gradient ps κ i cur :
  filename ps = fname ->
  follows (read_gradient ps κ i cur)
    (if have_gradient ps then
       and_then (need_double (GradientLine κ (Some i)))
         (need_double (GradientLine κ (Some i)))
     else Goes).
Proof.
  intros Hf. unfold read_gradient. apply tracks_after; [quiet|]. intros pt.
  destruct (have_gradient ps); [|quiet].
  apply (tracks_scanner _
           (and_then (need_double (GradientLine κ (Some i)))
              (and_then (need_double (GradientLine κ (Some i))) Goes))).
  { intros f. unfold and_then.
    destruct (need_double (GradientLine κ (Some i)) f) as [|f1]; [done|].
    by destruct (need_double (GradientLine κ (Some i)) f1). }
  apply tracks_scan_lf_lf.
  - intros [g0 g1]. quiet.
  - rewrite Hf. apply tracks_premature, reports_gradient.
Qed.

Lemma tracks_vla_get {A : Type} nvals i (k : Z -> M A) sc :
  (forall n, 0 <= i -> nvals !! Z.to_nat i = Some (Some n) ->
             follows (k n) sc) ->
  follows (bind (vla_get nvals i) k) sc.
Proof.
  intros Hk f s. unfold bind, vla_get, of_option, gets. cbn [snd].
  destruct (Z.ltb_spec i 0); [done|].
  destruct (nvals !! Z.to_nat i) as [[n|]|] eqn:E; [|done..].
  by apply Hk.
Qed.

Lemma tracks_read_function c ps nvals count κ i cur :
  filename ps = fname ->
  (forall n, 0 <= i -> nvals !! Z.to_nat i = Some (Some n) -> count i = n) ->
  follows (read_function c ps nvals κ i cur)
    (locate_function (have_gradient ps) count κ i).
Proof.
  intros Hf Hcount. unfold read_function, locate_function.
  apply tracks_after; [apply tracks_check_embedding|intros _].
  apply tracks_bind; [by apply tracks_read_gradient|intros _].
  apply tracks_after; [apply tracks_gradient_is_free|intros ?].
  apply tracks_after; [apply tracks_take_slot|intros ?].
  apply tracks_after; [apply tracks_gradient_is_free|intros ?].
  apply tracks_after; [apply tracks_take_slot|intros ?].
  apply tracks_vla_get. intros n Hi Hn. rewrite (Hcount n Hi Hn).
  apply tracks_for_from. intros. by apply tracks_read_value.
Qed.

Lemma tracks_read_blocks c ps nvals count bl :
  filename ps = fname ->
  (forall i n, 0 <= i -> nvals !! Z.to_nat i = Some (Some n) -> count i = n) ->
  forall cur,
    follows (read_blocks c ps nvals bl cur)
      (locate_blocks (have_gradient ps) count bl).
Proof.
  intros Hf Hcount. induction bl as [|[[κ lo] hi] bl IH]; intros cur; simpl.
  - apply tracks_ret.
  - apply tracks_bind; [|apply IH].
    apply tracks_for_from. intros. apply tracks_read_function; [done|].
    intros n. apply Hcount.
Qed.

Lemma tracks_read_info_block ps :
  filename ps = fname ->
  follows (read_info_block ps) (each 0 (Z.to_nat (num_pots ps)) locate_line).
Proof.
  intros Hf. unfold read_info_block.
  apply tracks_for_from. intros. by apply tracks_read_info_line.
Qed.

Lemma tracks_allocate_tables : follows allocate_tables Goes.
Proof. unfold allocate_tables. quiet. Qed.

End located.

(** [read_pot_table3] returns when the file has every field, and its
    premature-end diagnostic names the file and the first field that is
    not there. *)
Lemma read_pot_table3_located c ps g s0 :
  separated (opt_pot s0) ->
  match read_pot_table3 c ps (g, s0) with
  | Ok (_, w') => locate c ps s0 g = Goes w'.1
  | Fatal (PrematureEnd fn pl) =>
      fn = filename ps
      /\ exists pl0, locate c ps s0 g = Stops pl0 /\ reports pl0 pl
  | Fatal (InsufficientSampling _ _) => True
  | Undefined => True
  end.
Proof.
  intros Hsep. unfold read_pot_table3, locate. cbv zeta.
  pose proof (tracks_read_info_block (filename ps) ps eq_refl g s0) as Hhead.
  unfold bind at 1.
  destruct (read_info_block ps (g, s0)) as [[nvals [f1 s1]]|[fn pl|b e]|]
    eqn:Hinfo; [| |done..].
  2:{ destruct Hhead as (-> & pl0 & -> & Hr). eauto. }
  cbn [fst] in Hhead. rewrite Hhead.
  pose proof (read_info_block_inv _ _ _ _ _ Hsep Hinfo) as Hinv.
  pose proof (tracks_allocate_tables (filename ps) f1 s1) as Hq.
  unfold bind at 1.
  destruct (allocate_tables (f1, s1)) as [[u [f2 s2]]|[fn pl|b e]|] eqn:Hall;
    [| |done..].
  2:{ by destruct Hq as (_ & pl0 & ? & _). }
  cbn [fst] in Hq. injection Hq as <-.
  destruct (allocate_tables_spec _ _ _ _ _ _ _ Hinv Hall)
    as (hdr & Hh & Hal & _ & _ & _).
  cbn [snd] in Hal.
  unfold bind at 1, gets at 1. cbn [snd].
  unfold bind at 1, gets at 1. cbn [snd].
  rewrite (al_paircol _ _ _ _ _ Hal), (al_ntypes _ _ _ _ _ Hal).
  rewrite Hh. cbn [default].
  apply (tracks_before (filename ps)).
  - apply tracks_read_blocks; [done|].
    intros i n Hi Hn.
    destruct (lookup_lt_is_Some_2 hdr (Z.to_nat i)) as [h Hth].
    { pose proof (al_nvals _ _ _ _ _ Hal) as Hl. cbn [t_hdr] in Hl.
      rewrite <- Hl. by eapply lookup_lt_Some. }
    destruct (al_info _ _ _ _ _ Hal _ _ Hth) as (Hn' & _).
    cbn [t_hdr] in *. rewrite Hn' in Hn. injection Hn as <-.
    cbv beta. unfold id. by rewrite list_lookup_fmap, Hth.
  - intros cur. apply (tracks_after (filename ps)).
    + apply tracks_modify.
    + intros _. unfold init_calc_table3. apply tracks_modify.
Qed.

(** *** Reading a file damaged where the reader comes to *)

Section damaged.

Variables (fname : string) (extra junk : list token).
Hypothesis Hjunk : unreadable junk.

#[local] Abbreviation short m := (stops_short fname extra junk m).

Lemma ss_ret {A : Type} (a : A) : short (ret a).
Proof. intros f s r w' [= <- <-]. left. by exists f. Qed.

Lemma ss_gets {A : Type} (g : state -> option A) : short (gets g).
Proof.
  intros f s r w'. unfold gets. cbn [snd].
  destruct (g s); [|done]. intros [= <- <-]. left. by exists f.
Qed.

Lemma ss_modify (g : state -> option state) : short (modify g).
Proof.
  intros f s r w'. unfold modify. cbn [fst snd].
  destruct (g s); [|done]. intros [= <- <-]. left. by exists f.
Qed.

Lemma ss_error1 {A : Type} d : short (@error1 A d).
Proof. by intros f s r w'. Qed.

Lemma ss_undefined {A : Type} : short (@undefined A).
Proof. by intros f s r w'. Qed.

Lemma ss_bind {A B : Type} (m : M A) (k : A -> M B) :
  short m -> (forall a, short (k a)) -> short (bind m k).
Proof.
  intros Hm Hk f s r w' Hrun.
  apply bind_Ok in Hrun as (a & [f1 s1] & H1 & H2).
  destruct (Hm _ _ _ _ H1) as [(f' & Hf' & E)|(pl & E)].
  - cbn [fst snd] in *. subst f1.
    destruct (Hk a _ _ _ _ H2) as [(f'' & Hf'' & E')|(pl & E')].
    + left. exists f''. split; [done|]. unfold bind. by rewrite E.
    + right. exists pl. unfold bind. by rewrite E.
  - right. exists pl. unfold bind. by rewrite E.
Qed.

Lemma ss_for_from {L : Type} (body : Z -> L -> M L) cnt :
  (forall i a, short (body i a)) ->
  forall lo acc, short (for_from lo cnt body acc).
Proof.
  intros Hb. induction cnt as [|cnt IH]; intros lo acc; simpl.
  - apply ss_ret.
  - apply ss_bind; [apply Hb|]. intros a. apply IH.
Qed.

Lemma ss_ext {A : Type} (m m' : M A) :
  (forall w, m w = m' w) -> short m' -> short m.
Proof.
  intros E H f s r w' Hrun. rewrite E in Hrun.
  destruct (H _ _ _ _ Hrun) as [(f' & ? & ?)|(pl & ?)].
  - left. exists f'. by rewrite E.
  - right. exists pl. by rewrite E.
Qed.

Lemma junk_lf s : fscanf_lf (junk, s) = Ok (None, (junk, s)).
Proof.
  unfold fscanf_lf, scan_double. cbn [fst snd].
  destruct junk as [|t ?]; [done|]. destruct Hjunk as [-> _]. done.
Qed.

Lemma junk_d s : fscanf_d (junk, s) = Ok (None, (junk, s)).
Proof.
  unfold fscanf_d, scan_int. cbn [fst snd].
  destruct junk as [|t ?]; [done|]. destruct Hjunk as [_ ->]. done.
Qed.

(** A conversion whose failure is fatal. *)
Lemma ss_scan_lf {A : Type} (k : option float -> M A) pl :
  (forall x, short (k (Some x))) ->
  (forall w, k None w = Fatal (PrematureEnd fname pl)) ->
  short (bind fscanf_lf k).
Proof.
  intros Hk Hnone f s r w' Hrun. destruct f as [|t f].
  - right. exists pl. unfold bind. cbn [app]. by rewrite junk_lf.
  - unfold bind, fscanf_lf, scan_double in Hrun |- *. cbn [app fst snd] in *.
    destruct (as_double t) as [[x part]|].
    + rewrite after_app in Hrun |- *. by apply Hk.
    + by rewrite Hnone in Hrun.
Qed.

Lemma ss_scan_d {A : Type} (k : option Z -> M A) pl :
  (forall x, short (k (Some x))) ->
  (forall w, k None w = Fatal (PrematureEnd fname pl)) ->
  short (bind fscanf_d k).
Proof.
  intros Hk Hnone f s r w' Hrun. destruct f as [|t f].
  - right. exists pl. unfold bind. cbn [app]. by rewrite junk_d.
  - unfold bind, fscanf_d, scan_int in Hrun |- *. cbn [app fst snd] in *.
    destruct (as_int t) as [[x part]|].
    + destruct (in_int x); [|done].
      rewrite after_app in Hrun |- *. by apply Hk.
    + by rewrite Hnone in Hrun.
Qed.

Lemma ss_scan_lf_lf {A : Type} (k : option (float * float) -> M A) pl :
  (forall p, short (k (Some p))) ->
  (forall w, k None w = Fatal (PrematureEnd fname pl)) ->
  short (bind fscanf_lf_lf k).
Proof.
  intros Hk Hnone.
  apply (ss_ext _ (bind fscanf_lf (fun r0 =>
                  match r0 with
                  | None => k None
                  | Some x0 =>
                      bind fscanf_lf (fun r1 =>
                        match r1 with
                        | None => k None
                        | Some x1 => k (Some (x0, x1))
                        end)
                  end))).
  { unfold fscanf_lf_lf, bind. intros w.
    destruct (fscanf_lf w) as [[[x0|] w1]| |]; try done.
    destruct (fscanf_lf w1) as [[[x1|] w2]| |]; done. }
  apply (ss_scan_lf _ pl); [|done].
  intros x0. apply (ss_scan_lf _ pl); [|done]. intros x1. apply Hk.
Qed.

Lemma ss_scan_lf_lf_d {A : Type} (k : option (float * float * Z) -> M A) pl :
  (forall p, short (k (Some p))) ->
  (forall w, k None w = Fatal (PrematureEnd fname pl)) ->
  short (bind fscanf_lf_lf_d k).
Proof.
  intros Hk Hnone.
  apply (ss_ext _ (bind fscanf_lf_lf (fun r =>
                  match r with
                  | None => k None
                  | Some (x0, x1) =>
                      bind fscanf_d (fun r2 =>
                        match r2 with
                        | None => k None
                        | Some n => k (Some (x0, x1, n))
                        end)
                  end))).
  { unfold fscanf_lf_lf_d, bind. intros w.
    destruct (fscanf_lf_lf w) as [[[[x0 x1]|] w1]| |]; try done.
    destruct (fscanf_d w1) as [[[n|] w2]| |]; done. }
  apply (ss_scan_lf_lf _ pl); [|done].
  intros [x0 x1]. apply (ss_scan_d _ pl); [|done]. intros n. apply Hk.
Qed.

Lemma ss_Malloc_double n : short (Malloc_double n).
Proof.
  unfold Malloc_double. destruct (n <? 0); [apply ss_undefined|].
  intros f s r w' [= <- <-]. left. by exists f.
Qed.

Lemma ss_Malloc_int n : short (Malloc_int n).
Proof.
  unfold Malloc_int. destruct (n <? 0); [apply ss_undefined|].
  intros f s r w' [= <- <-]. left. by exists f.
Qed.

Ltac ss_step :=
  first
    [ apply ss_ret | apply ss_gets | apply ss_modify | apply ss_error1
    | apply ss_undefined | apply ss_Malloc_double | apply ss_Malloc_int
    | apply ss_bind; [|intros ?]
    | match goal with
      | |- stops_short _ _ _ (if ?b then _ else _) => destruct b
      | |- stops_short _ _ _ (match ?x with _ => _ end) => destruct x
      end ].

Ltac ss :=
  unfold get_pt, dload, dstore, iload, istore, array_get, vla_get, vla_set,
    of_option, int_of;
  repeat ss_step.

Lemma ss_read_info_line ps i nvals :
  filename ps = fname -> short (read_info_line ps i nvals).
Proof.
  intros Hf. unfold read_info_line. apply ss_bind; [ss|]. intros pt.
  apply (ss_scan_lf_lf_d _ (InfoBlock i)); [|by rewrite Hf].
  intros [[b e] n]. ss.
Qed.

Lemma ss_take_slot free cur : short (take_slot free cur).
Proof. unfold take_slot. ss. Qed.

Lemma ss_gradient_is_free g i : short (gradient_is_free g i).
Proof. unfold gradient_is_free. ss. Qed.

Lemma ss_check_embedding c κ i : short (check_embedding c κ i).
Proof. unfold check_embedding. ss. Qed.

Lemma ss_read_value c ps nvals κ i j cur :
  filename ps = fname -> short (read_value c ps nvals κ i j cur).
Proof.
  intros Hf. unfold read_value. apply ss_bind; [ss|]. intros pt.
  apply (ss_scan_lf _ (ValueLine κ i j)); [|by rewrite Hf].
  intros v. repeat (apply ss_bind; [ss|intros ?]). apply ss_take_slot.
Qed.

Lemma ss_read_gradient ps κ i cur :
  filename ps = fname -> short (read_gradient ps κ i cur).
Proof.
  intros Hf. unfold read_gradient. apply ss_bind; [ss|]. intros pt.
  destruct (have_gradient ps); [|ss].
  apply (ss_scan_lf_lf _ (gradient_place κ i)); [|by rewrite Hf].
  intros [g0 g1]. ss.
Qed.

Lemma ss_read_function c ps nvals κ i cur :
  filename ps = fname -> short (read_function c ps nvals κ i cur).
Proof.
  intros Hf. unfold read_function.
  apply ss_bind; [apply ss_check_embedding|intros _].
  apply ss_bind; [by apply ss_read_gradient|intros _].
  apply ss_bind; [apply ss_gradient_is_free|intros ?].
  apply ss_bind; [apply ss_take_slot|intros ?].
  apply ss_bind; [apply ss_gradient_is_free|intros ?].
  apply ss_bind; [apply ss_take_slot|intros ?].
  apply ss_bind; [ss|intros ?].
  apply ss_for_from. intros. by apply ss_read_value.
Qed.

Lemma ss_read_blocks c ps nvals bl :
  filename ps = fname -> forall cur, short (read_blocks c ps nvals bl cur).
Proof.
  intros Hf. induction bl as [|[[κ lo] hi] bl IH]; intros cur; simpl.
  - apply ss_ret.
  - apply ss_bind; [|apply IH].
    apply ss_for_from. intros. by apply ss_read_function.
Qed.

Lemma ss_read_pot_table3 c ps :
  filename ps = fname -> short (read_pot_table3 c ps).
Proof.
  intros Hf. unfold read_pot_table3.
  apply ss_bind.
  { apply ss_for_from. intros. by apply ss_read_info_line. }
  intros nvals. apply ss_bind; [unfold allocate_tables; ss|intros _].
  apply ss_bind; [ss|intros P]. apply ss_bind; [ss|intros N].
  apply ss_bind; [by apply ss_read_blocks|intros cur].
  apply ss_bind; [ss|intros _]. unfold init_calc_table3. ss.
Qed.

End damaged.




(** ** The value table *)

Lemma take_doubles_snoc n f vs r v r' :
  take_doubles n f = Some (vs, r) -> scan_double r = Some (v, r') ->
  take_doubles (S n) f = Some (vs ++ [v], r').
Proof.
  revert f vs. induction n as [|n IH]; intros f vs H Hv.
  - injection H as <- ->. cbn [take_doubles]. by rewrite Hv.
  - cbn [take_doubles] in H.
    destruct (scan_double f) as [[v0 f0]|] eqn:E0; [|done].
    destruct (take_doubles n f0) as [[vs0 r0]|] eqn:E; [|done].
    injection H as <- ->.
    change (take_doubles (S (S n)) f)
      with (match scan_double f with
            | Some (v, f') =>
                match take_doubles (S n) f' with
                | Some (vs, r) => Some (v :: vs, r)
                | None => None
                end
            | None => None
            end).
    by rewrite E0, (IH _ _ E Hv).
Qed.

Lemma table_at_store s1 tv f cur w v m :
  table_at s1 tv f cur w ->
  store (dmem w.2) (table (opt_pot s1)) (val cur) v = Some m ->
  table_at s1 (tv ++ [v]) f
    (mk_cursor (val cur + 1) (k cur) (l cur)) (w.1, set_dmem m w.2).
Proof.
  intros [Hp Hf Hv Hc Hfr] Hst. split; st_simpl; try done.
  - rewrite length_app. simpl. lia.
  - intros q x Hq. rewrite Hv in Hst.
    destruct (decide (q = length tv)) as [->|Hne].
    + rewrite list_lookup_middle in Hq by done. injection Hq as <-.
      by rewrite (cell_store_eq _ _ _ _ _ Hst).
    + rewrite (cell_store_ne _ _ _ _ _ _ _ Hst) by (right; lia).
      apply Hc. rewrite lookup_app_l in Hq; [done|].
      apply lookup_lt_Some in Hq. rewrite length_app in Hq. simpl in Hq. lia.
  - intros a q Ha1 Ha2.
    rewrite (cell_store_ne _ _ _ _ _ _ _ Hst) by (by left). by apply Hfr.
Qed.

Lemma table_at_other s1 tv f cur w a i v m cur' :
  a = xcoord (opt_pot s1) -> table (opt_pot s1) ≠ xcoord (opt_pot s1) ->
  table_at s1 tv f cur w ->
  store (dmem w.2) a i v = Some m ->
  val cur' = val cur ->
  table_at s1 tv f cur' (w.1, set_dmem m w.2).
Proof.
  intros -> Hne [Hp Hf Hv Hc Hfr] Hst Hv'. split; st_simpl; try done.
  - by rewrite Hv'.
  - intros q x Hq. rewrite (cell_store_ne _ _ _ _ _ _ _ Hst) by (by left).
    by apply Hc.
  - intros a q Ha1 Ha2.
    rewrite (cell_store_ne _ _ _ _ _ _ _ Hst) by (by left). by apply Hfr.
Qed.

Lemma take_slot_quiet free cur w cur' w' :
  take_slot free cur w = Ok (cur', w') ->
  w'.1 = w.1 /\ dmem w'.2 = dmem w.2 /\ opt_pot w'.2 = opt_pot w.2
  /\ val cur' = val cur.
Proof.
  unfold take_slot. destruct w as [f s]. intros H. destruct free; by run.
Qed.

Lemma table_at_quiet s1 tv f cur w cur' w' :
  table_at s1 tv f cur w ->
  w'.1 = w.1 -> dmem w'.2 = dmem w.2 -> opt_pot w'.2 = opt_pot w.2 ->
  val cur' = val cur ->
  table_at s1 tv f cur' w'.
Proof.
  intros [Hp Hf Hv Hc Hfr] H1 H2 H3 H4.
  split; rewrite ?H1, ?H2, ?H3, ?H4; done.
Qed.

Lemma read_value_table c ps nvals s1 κ i j tv f cur w cur' w' :
  table (opt_pot s1) ≠ xcoord (opt_pot s1) ->
  table_at s1 tv f cur w ->
  read_value c ps nvals κ i j cur w = Ok (cur', w') ->
  exists v r,
    scan_double f = Some (v, r) /\ table_at s1 (tv ++ [v]) r cur' w'.
Proof.
  intros Hne Ht Hrun. unfold read_value in Hrun. destruct w as [f0 s].
  apply bind_Ok in Hrun as (pt & w1 & Hg & Hrun).
  apply get_pt_Ok in Hg. simplify_eq/=.
  apply bind_Ok in Hrun as (r & w1 & Hsc & Hrun).
  apply fscanf_lf_Ok in Hsc as [(x0 & Hx0 & -> & Hs0)|(_ & -> & _)];
    [|discriminate].
  destruct w1 as [f1 s']. st_simpl. subst s'.
  pose proof (ta_file _ _ _ _ _ Ht) as Hf.
  pose proof (ta_pt _ _ _ _ _ Ht) as Hp. st_simpl. subst f0.
  rewrite Hp in Hrun.
  apply bind_Ok in Hrun as (u & w1 & Hst & Hrun).
  apply dstore_Ok in Hst as (m & Hst & [= -> ->]). st_simpl.
  assert (Ht1 : table_at s1 (tv ++ [x0]) f1
                  (mk_cursor (val cur + 1) (k cur) (l cur)) (f1, set_dmem m s)).
  { destruct (table_at_store _ _ _ _ _ _ _ Ht Hst) as [Hp' _ Hv Hc Hfr].
    split; st_simpl; done. }
  apply bind_Ok in Hrun as (b & w1 & Hld & Hrun).
  apply dload_Ok in Hld as (b' & _ & [= -> ->]).
  apply bind_Ok in Hrun as (sv & w1 & Hld & Hrun).
  apply dload_Ok in Hld as (s' & _ & [= -> ->]).
  apply bind_Ok in Hrun as (u' & w1 & Hsx & Hrun).
  apply dstore_Ok in Hsx as (m' & Hsx & [= -> ->]). st_simpl.
  pose proof (table_at_other _ _ _ _ _ _ _ _ _
                (mk_cursor (val cur + 1) (k cur) (l cur))
                eq_refl Hne Ht1 Hsx eq_refl) as Ht2.
  st_simpl.
  apply bind_Ok in Hrun as (inv & w1 & Hinv & Hrun).
  apply array_get_Ok in Hinv as (inv' & _ & _ & [= -> ->]).
  apply bind_Ok in Hrun as (n & w1 & Hnv & Hrun).
  apply vla_get_Ok in Hnv as (n' & _ & _ & [= -> ->]).
  apply bind_Ok in Hrun as (P' & w1 & HP & Hrun).
  apply gets_Ok in HP as (? & _ & [= -> ->]).
  apply bind_Ok in Hrun as (N' & w1 & HN & Hrun).
  apply gets_Ok in HN as (? & _ & [= -> ->]).
  apply take_slot_quiet in Hrun as (H1 & H2 & H3 & H4).
  exists x0, f1. split; [done|].
  by eapply table_at_quiet.
Qed.

Lemma read_values_table c ps nvals s1 κ i n tv f cur w cur' w' :
  table (opt_pot s1) ≠ xcoord (opt_pot s1) ->
  table_at s1 tv f cur w ->
  for_from 0 n (read_value c ps nvals κ i) cur w = Ok (cur', w') ->
  exists vs r,
    take_doubles n f = Some (vs, r) /\ table_at s1 (tv ++ vs) r cur' w'.
Proof.
  intros Hne Ht Hrun.
  pose (Inv := fun (j : Z) (cu : cursor) (v : world) =>
    0 <= j
    /\ exists vs r,
         take_doubles (Z.to_nat j) f = Some (vs, r)
         /\ table_at s1 (tv ++ vs) r cu v).
  apply (for_from_inv Inv) in Hrun.
  - destruct Hrun as (_ & vs & r & H1 & H2).
    rewrite Z.add_0_l, Nat2Z.id in H1. by exists vs, r.
  - split; [done|]. exists [], f. split; [done|]. by rewrite app_nil_r.
  - intros j a v a' v' Hj (Hj0 & vs & r & H1 & H2) Hstep.
    split; [lia|].
    destruct (read_value_table _ _ _ _ _ _ _ _ _ _ _ _ _ Hne H2 Hstep)
      as (x & r' & Hx & H3).
    exists (vs ++ [x]), r'. split.
    + replace (Z.to_nat (j + 1)) with (S (Z.to_nat j)) by lia.
      by eapply take_doubles_snoc.
    + by rewrite app_assoc.
Qed.

Lemma read_gradient_table ps s1 κ i tv f cur w u w' :
  table_at s1 tv f cur w ->
  read_gradient ps κ i cur w = Ok (u, w') ->
  exists g r,
    (if have_gradient ps then take_doubles 2 f
     else Some ([(default_gradient κ).1; (default_gradient κ).2], f))
    = Some (g, r)
    /\ table_at s1 (tv ++ g) r (mk_cursor (val cur + 2) (k cur) (l cur)) w'.
Proof.
  intros Ht Hrun. unfold read_gradient in Hrun. destruct w as [f0 s].
  apply bind_Ok in Hrun as (pt & w1 & Hg & Hrun).
  apply get_pt_Ok in Hg. simplify_eq/=.
  pose proof (ta_file _ _ _ _ _ Ht) as Hf.
  pose proof (ta_pt _ _ _ _ _ Ht) as Hp. st_simpl. subst f0.
  rewrite Hp in Hrun.
  assert (Hfin : forall g0 g1 r m m',
    table_at s1 tv r cur (r, s) ->
    store (dmem s) (table (opt_pot s1)) (val cur) g0 = Some m ->
    store m (table (opt_pot s1)) (val cur + 1) g1 = Some m' ->
    table_at s1 (tv ++ [g0; g1]) r (mk_cursor (val cur + 2) (k cur) (l cur))
      (r, set_dmem m' (set_dmem m s))).
  { intros g0 g1 r m m' Ht0 H0 H1.
    pose proof (table_at_store _ _ _ _ _ _ _ Ht0 H0) as Ht1. st_simpl.
    pose proof (table_at_store _ _ _ _ _ g1 m' Ht1 H1) as Ht2. st_simpl.
    rewrite <- app_assoc in Ht2.
    eapply table_at_quiet; [exact Ht2|done..|st_simpl; lia]. }
  destruct (have_gradient ps).
  - apply bind_Ok in Hrun as (r & w1 & Hsc & Hrun).
    apply fscanf_lf_lf_Ok in Hsc
      as [(x0 & x1 & fm & Hx0 & Hx1 & -> & Hs)| ->];
      [|discriminate].
    destruct w1 as [f1 s']. st_simpl. subst s'.
    apply bind_Ok in Hrun as (u0 & w1 & H0 & Hrun).
    apply dstore_Ok in H0 as (m & H0 & [= -> ->]). st_simpl.
    apply dstore_Ok in Hrun as (m' & H1 & [= -> ->]). st_simpl.
    exists [x0; x1], f1. cbn [take_doubles]. rewrite Hx0, Hx1.
    split; [done|]. apply Hfin; [|done..].
    destruct Ht as [? ? ? ? ?]. split; st_simpl; done.
  - apply bind_Ok in Hrun as (u0 & w1 & H0 & Hrun).
    apply dstore_Ok in H0 as (m & H0 & [= -> ->]). st_simpl.
    apply dstore_Ok in Hrun as (m' & H1 & [= -> ->]). st_simpl.
    eexists _, f. split; [done|]. by apply Hfin.
Qed.

Lemma read_function_table c ps nvals s1 κ i tv f cur w cur' w' :
  table (opt_pot s1) ≠ xcoord (opt_pot s1) ->
  table_at s1 tv f cur w ->
  read_function c ps nvals κ i cur w = Ok (cur', w') ->
  exists n seg r,
    0 <= i /\ nvals !! Z.to_nat i = Some (Some n)
    /\ fn_values (have_gradient ps) κ n f = Some (seg, r)
    /\ table_at s1 (tv ++ seg) r cur' w'.
Proof.
  intros Hne Ht Hrun. unfold read_function in Hrun.
  apply bind_Ok in Hrun as (u0 & w0 & Hce & Hrun).
  apply check_embedding_Ok in Hce as [-> _].
  apply bind_Ok in Hrun as (u1 & w1 & Hgr & Hrun).
  destruct (read_gradient_table _ _ _ _ _ _ _ _ _ _ Ht Hgr)
    as (g & r1 & Hg & Ht1).
  apply bind_Ok in Hrun as (b0 & w2 & Hf0 & Hrun).
  apply gradient_is_free_Ok in Hf0 as (-> & _).
  apply bind_Ok in Hrun as (c0 & w2 & Hs0 & Hrun).
  pose proof (take_slot_quiet _ _ _ _ _ Hs0) as (A1 & A2 & A3 & A4).
  pose proof (table_at_quiet _ _ _ _ _ c0 w2 Ht1 A1 A2 A3 A4) as Ht2.
  apply bind_Ok in Hrun as (b1 & w3 & Hf1 & Hrun).
  apply gradient_is_free_Ok in Hf1 as (-> & _).
  apply bind_Ok in Hrun as (c1 & w3 & Hs1 & Hrun).
  pose proof (take_slot_quiet _ _ _ _ _ Hs1) as (B1 & B2 & B3 & B4).
  pose proof (table_at_quiet _ _ _ _ _ c1 w3 Ht2 B1 B2 B3 B4) as Ht3.
  apply bind_Ok in Hrun as (n & w4 & Hn & Hrun).
  apply vla_get_Ok in Hn as (n' & Hi & Hn & [= -> ->]).
  destruct (read_values_table _ _ _ _ _ _ _ _ _ _ _ _ _ Hne Ht3 Hrun)
    as (vs & r & Hvs & Ht4).
  exists n', (g ++ vs), r. split; [done|]. split; [done|].
  split; [|by rewrite app_assoc].
  unfold fn_values. by rewrite Hg, Hvs.
Qed.

Lemma table_values_app hg count vs1 vs2 f tv1 r1 :
  table_values hg count vs1 f = Some (tv1, r1) ->
  table_values hg count (vs1 ++ vs2) f
  = match table_values hg count vs2 r1 with
    | Some (tv2, r2) => Some (tv1 ++ tv2, r2)
    | None => None
    end.
Proof.
  revert f tv1. induction vs1 as [|v vs1 IH]; intros f tv1 H.
  - injection H as <- <-. cbn [app table_values].
    by destruct (table_values hg count vs2 f) as [[? ?]|].
  - cbn [app table_values] in *.
    destruct (fn_values hg v.1 (count v.2) f) as [[seg f1]|]; [|done].
    destruct (table_values hg count vs1 f1) as [[rest f2]|] eqn:E; [|done].
    injection H as <- <-. rewrite (IH _ _ E).
    destruct (table_values hg count vs2 f2) as [[tv2 r2]|]; [|done].
    by rewrite app_assoc.
Qed.

Lemma read_block_table c ps nvals s1 count κ cnt :
  table (opt_pot s1) ≠ xcoord (opt_pot s1) ->
  (forall i n, 0 <= i -> nvals !! Z.to_nat i = Some (Some n) -> count i = n) ->
  forall lo tv f cur w cur' w',
    table_at s1 tv f cur w ->
    for_from lo cnt (read_function c ps nvals κ) cur w = Ok (cur', w') ->
    exists seg r,
      table_values (have_gradient ps) count
        ((fun i => (κ, i)) <$> seqZ lo (Z.of_nat cnt)) f = Some (seg, r)
      /\ table_at s1 (tv ++ seg) r cur' w'.
Proof.
  intros Hne Hcount. induction cnt as [|cnt IH];
    intros lo tv f cur w cur' w' Ht Hrun.
  - apply ret_Ok in Hrun. injection Hrun as <- <-.
    exists [], f. split; [done|]. by rewrite app_nil_r.
  - cbn [for_from] in Hrun.
    apply bind_Ok in Hrun as (c1 & w1 & Hfn & Hrun).
    destruct (read_function_table _ _ _ _ _ _ _ _ _ _ _ _ Hne Ht Hfn)
      as (n & seg & r & Hi & Hn & Hseg & Ht1).
    destruct (IH _ _ _ _ _ _ _ Ht1 Hrun) as (seg' & r' & Hseg' & Ht2).
    exists (seg ++ seg'), r'. split; [|by rewrite app_assoc].
    rewrite Nat2Z.inj_succ, seqZ_cons by lia. rewrite fmap_cons.
    cbn [table_values fst snd]. rewrite (Hcount _ _ Hi Hn), Hseg.
    replace (Z.pred (Z.succ (Z.of_nat cnt))) with (Z.of_nat cnt) by lia.
    replace (Z.succ lo) with (lo + 1) by lia. by rewrite Hseg'.
Qed.

Lemma read_blocks_table c ps nvals s1 count bl :
  table (opt_pot s1) ≠ xcoord (opt_pot s1) ->
  (forall i n, 0 <= i -> nvals !! Z.to_nat i = Some (Some n) -> count i = n) ->
  forall tv f cur w cur' w',
    table_at s1 tv f cur w ->
    read_blocks c ps nvals bl cur w = Ok (cur', w') ->
    exists seg r,
      table_values (have_gradient ps) count (visits bl) f = Some (seg, r)
      /\ table_at s1 (tv ++ seg) r cur' w'.
Proof.
  intros Hne Hcount. induction bl as [|[[κ lo] hi] bl IH];
    intros tv f cur w cur' w' Ht Hrun.
  - apply ret_Ok in Hrun. injection Hrun as <- <-.
    exists [], f. split; [done|]. by rewrite app_nil_r.
  - cbn [read_blocks] in Hrun.
    apply bind_Ok in Hrun as (c1 & w1 & Hb & Hrun).
    destruct (read_block_table _ _ _ _ _ _ _ Hne Hcount _ _ _ _ _ _ _ Ht Hb)
      as (seg & r & Hseg & Ht1).
    destruct (IH _ _ _ _ _ _ Ht1 Hrun) as (seg' & r' & Hseg' & Ht2).
    exists (seg ++ seg'), r'. split; [|by rewrite app_assoc].
    rewrite visits_cons. cbn [fst snd].
    rewrite <- (seqZ_to_nat lo (hi - lo)).
    rewrite (table_values_app _ _ _ _ _ _ _ Hseg). by rewrite Hseg'.
Qed.

Lemma allocate_tables_dmem w u w1 :
  allocate_tables w = Ok (u, w1) ->
  exists n,
    dmem w1.2
    = ((dmem w.2 ++ [replicate n None]) ++ [replicate n None])
      ++ [replicate n None]
    /\ table (opt_pot w1.2) = length (dmem w.2)
    /\ xcoord (opt_pot w1.2) = S (length (dmem w.2))
    /\ d2tab (opt_pot w1.2) = S (S (length (dmem w.2)))
    /\ idx (opt_pot w1.2) = length (imem w.2).
Proof.
  intros H. unfold allocate_tables in H. destruct w as [f s].
  apply bind_Ok in H as (pt & w0 & Hg & H).
  apply get_pt_Ok in Hg. simplify_eq/=.
  apply bind_Ok in H as (a & w0 & Hm & H).
  apply Malloc_double_Ok in Hm as (_ & -> & ->). st_simpl.
  apply bind_Ok in H as (u0 & w0 & Hmod & H).
  apply modify_Ok in Hmod as (s' & [= <-] & [= -> ->]). st_simpl.
  apply bind_Ok in H as (pt & w0 & Hg & H).
  apply get_pt_Ok in Hg. simplify_eq/=.
  apply bind_Ok in H as (a & w0 & Hm & H).
  apply Malloc_double_Ok in Hm as (_ & -> & ->). st_simpl.
  apply bind_Ok in H as (u0 & w0 & Hmod & H).
  apply modify_Ok in Hmod as (s' & [= <-] & [= -> ->]). st_simpl.
  apply bind_Ok in H as (pt & w0 & Hg & H).
  apply get_pt_Ok in Hg. simplify_eq/=.
  apply bind_Ok in H as (a & w0 & Hm & H).
  apply Malloc_double_Ok in Hm as (_ & -> & ->). st_simpl.
  apply bind_Ok in H as (u0 & w0 & Hmod & H).
  apply modify_Ok in Hmod as (s' & [= <-] & [= -> ->]). st_simpl.
  apply bind_Ok in H as (pt & w0 & Hg & H).
  apply get_pt_Ok in Hg. simplify_eq/=.
  apply bind_Ok in H as (a & w0 & Hm & H).
  apply Malloc_int_Ok in Hm as (_ & -> & ->). st_simpl.
  apply modify_Ok in H as (s' & [= <-] & [= -> ->]). st_simpl.
  exists (Z.to_nat (len (opt_pot s))).
  rewrite !length_app. simpl. split_and!; try done; lia.
Qed.

Lemma read_pot_table3_table c ps f0 s0 u w' :
  separated (opt_pot s0) ->
  read_pot_table3 c ps (f0, s0) = Ok (u, w') ->
  exists hdr tv,
    header_lines (Z.to_nat (num_pots ps)) f0 = Some hdr
    /\ table_loaded c ps (mk_tables hdr (invar_pot s0) (gradient s0))
         f0 s0 w' tv.
Proof.
  intros Hsep Hrun. unfold read_pot_table3 in Hrun.
  apply bind_Ok in Hrun as (nvals & wh & Hinfo & Hrun).
  apply read_info_block_inv in Hinfo; [|done].
  apply bind_Ok in Hrun as (u1 & w1 & Hall & Hrun).
  destruct (allocate_tables_dmem _ _ _ Hall)
    as (n & Hd & Hta & Hxc & Hd2 & Hix).
  assert (Hlen : length (dmem wh.2) = length (dmem s0)
                 /\ length (imem wh.2) = length (imem s0)).
  { destruct Hinfo as (? & _ & _ & _ & _ & Hfr).
    by destruct Hfr as (_ & _ & _ & _ & _ & ? & ?). }
  destruct Hlen as [Hld Hli]. rewrite Hld in Hta, Hxc, Hd2. rewrite Hli in Hix.
  eapply allocate_tables_spec in Hall; [|exact Hinfo].
  destruct Hall as (hdr & Hh & Hal & Hf1 & Hcalc1 & Hpt1).
  set (T := mk_tables hdr (invar_pot s0) (gradient s0)) in *.
  apply bind_Ok in Hrun as (P & w2 & HP & Hrun).
  apply gets_Ok in HP as (? & [= <-] & [= -> ->]).
  apply bind_Ok in Hrun as (N & w2 & HN & Hrun).
  apply gets_Ok in HN as (? & [= <-] & [= -> ->]).
  rewrite (al_paircol _ _ _ _ _ Hal), (al_ntypes _ _ _ _ _ Hal) in Hrun.
  apply bind_Ok in Hrun as (cur & w2 & Hbl & Hrun).
  assert (Hcount : forall i m, 0 <= i ->
            nvals !! Z.to_nat i = Some (Some m) -> count_at T i = m).
  { intros i m Hi Hm. pose proof (lookup_lt_Some _ _ _ Hm) as Hlt.
    rewrite (al_nvals _ _ _ _ _ Hal) in Hlt.
    destruct (lookup_lt_is_Some_2 _ _ Hlt) as [h Hhd].
    destruct (al_info _ _ _ _ _ Hal _ _ Hhd) as (Hn' & _).
    rewrite Hn' in Hm. injection Hm as <-. by apply count_at_lookup. }
  assert (Ht0 : table_at w1.2 [] w1.1 (mk_cursor 0 0 0) w1) by (by split).
  destruct (read_blocks_table c ps nvals w1.2 (count_at T)
              (blocks c (paircol s0) (ntypes s0))
              (al_tx _ _ _ _ _ Hal) Hcount _ _ _ _ _ _ Ht0 Hbl)
    as (tv & r & Hv & Ht).
  rewrite Hf1 in Hv. cbn [app] in Ht.
  destruct w2 as [f2 s2]. destruct Ht as [Hp Hf _ Hc Hfr]. st_simpl.
  apply bind_Ok in Hrun as (u2 & w3 & Hm & Hrun).
  apply modify_Ok in Hm as (s3 & [= <-] & [= -> ->]). st_simpl.
  unfold init_calc_table3 in Hrun.
  apply modify_Ok in Hrun as (s4 & [= <-] & [= -> ->]). st_simpl.
  exists hdr, tv. split; [done|].
  split; st_simpl; rewrite ?Hp; try done.
  - by subst f2.
  - intros q. rewrite Hfr by (rewrite ?Hta, ?Hxc, ?Hd2; lia).
    rewrite Hd2, Hd, <- Hld.
    rewrite <- (app_nil_r ((_ ++ [replicate n None]) ++ [replicate n None])).
    rewrite <- (app_nil_r (_ ++ [replicate n None])) at 1.
    replace (S (S (length (dmem wh.2))))
      with (length ((dmem wh.2 ++ [replicate n None])
                    ++ [replicate n (@None float)]))
      by (rewrite !length_app; simpl; lia).
    rewrite app_nil_r. apply (cell_fresh _ [] n).
Qed.

(** When the table is read, the value table holds, function after
    function in table order, the two gradient values of the function (the
    two numbers converted for its gradient line, or the defaults of its
    kind when the file has no gradient lines) and then its samples in the
    order they are converted; what is left of the stream is what follows
    the last number converted, the rest of its word included. *)
Theorem table_holds_file_values c ps f0 s0 u w' hdr :
  separated (opt_pot s0) ->
  header_lines (Z.to_nat (num_pots ps)) f0 = Some hdr ->
  read_pot_table3 c ps (f0, s0) = Ok (u, w') ->
  exists tv,
    table_values (have_gradient ps)
      (count_at (mk_tables hdr (invar_pot s0) (gradient s0)))
      (visits (blocks c (paircol s0) (ntypes s0)))
      (header_rest (Z.to_nat (num_pots ps)) f0) = Some (tv, w'.1)
    /\ forall (q : nat) x,
         tv !! q = Some x ->
         cell (dmem w'.2) (table (opt_pot w'.2)) (Z.of_nat q) = Some x.
Proof.
  intros Hsep Hh Hrun.
  destruct (read_pot_table3_table _ _ _ _ _ _ Hsep Hrun)
    as (hdr' & tv & Hh' & Htl).
  rewrite Hh in Hh'. injection Hh' as <-.
  exists tv. split; [apply (tl_values _ _ _ _ _ _ _ Htl)|].
  apply (tl_cells _ _ _ _ _ _ _ Htl).
Qed.

Lemma table_holds_file_values_witness :
  match read_pot_table3 pair_model prefix_call (prefix_file, prefix_state) with
  | Ok (_, w') =>
      cell (dmem w'.2) (table (opt_pot w'.2)) 0 = Some 1e30%float
      /\ cell (dmem w'.2) (table (opt_pot w'.2)) 2 = Some 0.5%float
      /\ cell (dmem w'.2) (table (opt_pot w'.2)) 3 = Some 7%float
      /\ w'.1 = [letters]
  | _ => False
  end.
Proof.
  destruct (read_pot_table3 pair_model prefix_call (prefix_file, prefix_state))
    as [[u w']| |] eqn:E; [|vm_compute in E; discriminate..].
  destruct (table_holds_file_values pair_model prefix_call prefix_file
              prefix_state u w' [(0%float, 1%float, 2)]
              (caller_state_separated _ _ _ _ _) eq_refl E)
    as (tv & Hv & Hc).
  clear E. destruct w' as [f' s']. cbn [fst snd] in *.
  vm_compute in Hv. injection Hv as <- <-.
  split; [exact (Hc 0%nat _ eq_refl)|].
  split; [exact (Hc 2%nat _ eq_refl)|].
  split; [exact (Hc 3%nat _ eq_refl)|reflexivity].
Defined.

(** The four buffers of the table are new ones, next to each other
    after the buffers that exist, and nothing is written into the buffer of
    the second derivatives. *)
Theorem new_buffers c ps f0 s0 u w' :
  separated (opt_pot s0) ->
  read_pot_table3 c ps (f0, s0) = Ok (u, w') ->
  table (opt_pot w'.2) = length (dmem s0)
  /\ xcoord (opt_pot w'.2) = S (length (dmem s0))
  /\ d2tab (opt_pot w'.2) = S (S (length (dmem s0)))
  /\ idx (opt_pot w'.2) = length (imem s0)
  /\ forall q, cell (dmem w'.2) (d2tab (opt_pot w'.2)) q = None.
Proof.
  intros Hsep Hrun.
  destruct (read_pot_table3_table _ _ _ _ _ _ Hsep Hrun)
    as (hdr & tv & _ & Htl).
  destruct Htl. done.
Qed.

Lemma new_buffers_witness :
  match read_pot_table3 pair_model pair_call (pair_file, pair_state) with
  | Ok (_, w') =>
      table (opt_pot w'.2) = 4%nat
      /\ cell (dmem w'.2) (d2tab (opt_pot w'.2)) 3 = None
  | _ => False
  end.
Proof.
  destruct (read_pot_table3 pair_model pair_call (pair_file, pair_state))
    as [[u w']| |] eqn:E; [|vm_compute in E; discriminate..].
  destruct (new_buffers pair_model pair_call pair_file pair_state u w'
              (caller_state_separated _ _ _ _ _) E) as (Ht & _ & _ & _ & Hd).
  clear E. split; [exact Ht|apply Hd].
Defined.

(** ** The size of the free index and what the reader leaves alone *)

Lemma sorted_length (l : list Z) :
  StronglySorted Z.lt l ->
  forall lo hi,
    (forall o, o ∈ l -> lo <= o < hi) ->
    Z.of_nat (length l) <= Z.max 0 (hi - lo).
Proof.
  induction 1 as [|x l Hl IH Hx]; intros lo hi Hr; [simpl; lia|].
  assert (Hx0 : lo <= x < hi) by (apply Hr, list_elem_of_here).
  specialize (IH (x + 1) hi). cbn [length].
  assert (Z.of_nat (length l) <= Z.max 0 (hi - (x + 1))); [|lia].
  apply IH. intros o Ho. rewrite Forall_forall in Hx.
  specialize (Hx o Ho). specialize (Hr o (list_elem_of_further _ _ _ Ho)). lia.
Qed.

Lemma free_offsets_invariant c P N T vs start :
  (forall v, v ∈ vs -> invar_at T v.2 ≠ 0) ->
  free_offsets c P N T vs start = [].
Proof.
  revert start. induction vs as [|v vs IH]; intros start Hinv; [done|].
  cbn [free_offsets]. rewrite IH.
  2: { intros v' Hv'. by apply Hinv, list_elem_of_further. }
  rewrite app_nil_r. unfold fn_free.
  destruct (Z.eqb_spec (invar_at T v.2) 0) as [E|_]; [|done].
  by destruct (Hinv v (list_elem_of_here _ _)).
Qed.

(** The free index fits its buffer: [idxlen] lies between 0 and [len];
    and it is empty when every function has its invariant flag set. *)
Theorem free_index_fits c ps f0 s0 u w' :
  separated (opt_pot s0) ->
  read_pot_table3 c ps (f0, s0) = Ok (u, w') ->
  0 <= idxlen (opt_pot w'.2) <= len (opt_pot w'.2)
  /\ (Forall (fun inv => inv ≠ 0) (invar_pot s0) ->
      idxlen (opt_pot w'.2) = 0).
Proof.
  intros Hsep Hrun.
  destruct (read_pot_table3_loaded _ _ _ _ _ _ Hsep Hrun) as (hdr & _ & Hld).
  set (T := mk_tables hdr (invar_pot s0) (gradient s0)) in *.
  rewrite (ld_idxlen _ _ _ _ Hld). split.
  - split; [lia|].
    pose proof (sorted_length _
                  (free_offsets_sorted c (paircol s0) (ntypes s0) T
                     (visits (blocks c (paircol s0) (ntypes s0))) 0) 0
                  (extent T (visits (blocks c (paircol s0) (ntypes s0))))) as Hs.
    pose proof (ld_extent _ _ _ _ Hld) as He.
    pose proof (extent_nonneg T
                  (visits (blocks c (paircol s0) (ntypes s0)))) as H0.
    fold T in He.
    assert (Z.of_nat (length (free_offsets c (paircol s0) (ntypes s0) T
              (visits (blocks c (paircol s0) (ntypes s0))) 0))
            <= Z.max 0 (extent T (visits (blocks c (paircol s0) (ntypes s0)))
                        - 0)); [|lia].
    apply Hs. intros o Ho%free_offsets_range. lia.
  - intros Hinv. rewrite free_offsets_invariant; [done|].
    intros v _. unfold invar_at. cbn [t_invar T].
    destruct (invar_pot s0 !! Z.to_nat v.2) as [inv|] eqn:E; [|done].
    rewrite Forall_forall in Hinv. apply Hinv.
    by eapply list_elem_of_lookup_2.
Qed.

Lemma free_index_fits_witness :
  match read_pot_table3 pair_model pair_call
          (pair_file, caller_state 2 2 0 [1; 1] [3; 1]) with
  | Ok (_, w') => idxlen (opt_pot w'.2) = 0
  | _ => False
  end.
Proof.
  destruct (read_pot_table3 pair_model pair_call
              (pair_file, caller_state 2 2 0 [1; 1] [3; 1]))
    as [[u w']| |] eqn:E; [|vm_compute in E; discriminate..].
  destruct (free_index_fits pair_model pair_call pair_file _ u w'
              (caller_state_separated _ _ _ _ _) E) as [_ H].
  clear E. apply H. by repeat constructor.
Defined.

(** The reader leaves to the caller what it was given: the six arrays
    of the header are the caller's, and the column count, the invariant
    and gradient flags, and the numbers of pair columns and of atom types
    are unchanged. *)
Theorem caller_data_kept c ps f0 s0 u w' :
  separated (opt_pot s0) ->
  read_pot_table3 c ps (f0, s0) = Ok (u, w') ->
  ncols (opt_pot w'.2) = ncols (opt_pot s0)
  /\ invar_pot w'.2 = invar_pot s0 /\ gradient w'.2 = gradient s0
  /\ paircol w'.2 = paircol s0 /\ ntypes w'.2 = ntypes s0
  /\ [begin (opt_pot w'.2); end_ (opt_pot w'.2); step (opt_pot w'.2);
      invstep (opt_pot w'.2)]
     = [begin (opt_pot s0); end_ (opt_pot s0); step (opt_pot s0);
        invstep (opt_pot s0)]
  /\ first (opt_pot w'.2) = first (opt_pot s0)
  /\ last (opt_pot w'.2) = last (opt_pot s0).
Proof.
  intros Hsep Hrun.
  destruct (read_pot_table3_loaded _ _ _ _ _ _ Hsep Hrun) as (hdr & _ & Hld).
  destruct Hld. split_and!; try done. congruence.
Qed.

Lemma caller_data_kept_witness :
  match read_pot_table3 pair_model pair_call (pair_file, pair_state) with
  | Ok (_, w') => invar_pot w'.2 = [0; 0] /\ gradient w'.2 = [3; 1]
  | _ => False
  end.
Proof.
  destruct (read_pot_table3 pair_model pair_call (pair_file, pair_state))
    as [[u w']| |] eqn:E; [|vm_compute in E; discriminate..].
  destruct (caller_data_kept pair_model pair_call pair_file pair_state u w'
              (caller_state_separated _ _ _ _ _) E)
    as (_ & Hi & Hg & _).
  clear E. by split.
Defined.

(** In a model with one layout, the input loops read the functions
    0, 1, 2, ... in this order, each once, as many as the layout has
    columns, and the header has a line for each of them. *)
Theorem functions_read_in_order c ps f0 s0 u w' :
  separated (opt_pot s0) ->
  one_model c = true -> 0 <= paircol s0 -> 0 <= ntypes s0 ->
  read_pot_table3 c ps (f0, s0) = Ok (u, w') ->
  (visits (blocks c (paircol s0) (ntypes s0))).*2
  = seqZ 0 (table_columns c (paircol s0) (ntypes s0))
  /\ table_columns c (paircol s0) (ntypes s0) <= Z.max 0 (num_pots ps).
Proof.
  intros Hsep Hm HP HN Hrun.
  pose proof (visits_in_order c _ _ Hm HP HN) as Hv. split; [done|].
  destruct (read_pot_table3_loaded _ _ _ _ _ _ Hsep Hrun) as (hdr & Hh & Hld).
  apply header_lines_length in Hh.
  pose proof (ld_visits _ _ _ _ Hld) as Hok.
  destruct (Z.le_gt_cases (table_columns c (paircol s0) (ntypes s0)) 0)
    as [|Hpos]; [lia|].
  assert (Hin : table_columns c (paircol s0) (ntypes s0) - 1
                ∈ (visits (blocks c (paircol s0) (ntypes s0))).*2).
  { rewrite Hv. apply elem_of_seqZ. lia. }
  apply list_elem_of_fmap in Hin as (v & Hv2 & Hin).
  rewrite Forall_forall in Hok. destruct (Hok v Hin) as [Hr _].
  cbn [t_hdr] in Hr. lia.
Qed.

Lemma functions_read_in_order_witness :
  (visits (blocks meam_model 1 1)).*2 = [0; 1; 2; 3; 4].
Proof.
  destruct (read_pot_table3 meam_model meam_call (meam_file, meam_state))
    as [[u w']| |] eqn:E; [|vm_compute in E; discriminate..].
  exact (proj1 (functions_read_in_order meam_model meam_call meam_file
                  meam_state u w' (caller_state_separated _ _ _ _ _)
                  eq_refl ltac:(done) ltac:(done) E)).
Defined.

End Table3.

(** ** castep2force *)

Module Castep.

(** *** The format specification [{:23.16E}] *)

(** The presentation type [E] writes the decimal of seventeen digits that
    is nearest to the binary value, a tie going to the even digit, as the
    correctly rounded conversion of the runtime gives it; the value is
    taken here as the exact rational [m * 2^e]. *)

(** The binary value [m * 2^e]. *)
Definition value (m : positive) (e : Z) : Q :=
  (inject_Z (Zpos m) * 2 ^ e)%Q.

Definition reaches (x : Q) (d : Z) : bool := Qle_bool (10 ^ d)%Q x.

Fixpoint search (fuel : nat) (x : Q) (d : Z) : Z :=
  match fuel with
  | O => d
  | S fuel' => if reaches x d then d else search fuel' x (d - 1)
  end.

(** The decimal exponent of a binary64 value: the greatest [d] with
    [10^d <= x], looked for from 308 down to -324. *)
Definition exponent10 (x : Q) : Z := search 632 x 308.

(** Rounding to the nearest integer, ties to even. *)
Definition round_half_even (y : Q) : Z :=
  let q := Qfloor y in
  match Qcompare (y - inject_Z q) (1 # 2) with
  | Lt => q
  | Gt => q + 1
  | Eq => if Z.even q then q else q + 1
  end.

(** The seventeen digits (as one integer) and the decimal exponent of
    [m * 2^e] at precision 16. *)
Definition scientific (m : positive) (e : Z) : Z * Z :=
  let x := value m e in
  let d := exponent10 x in
  let n := round_half_even (x * 10 ^ (16 - d))%Q in
  if n =? 10 ^ 17 then (10 ^ 16, d + 1) else (n, d).

Definition digit (n : Z) : ascii := ascii_of_nat (48 + Z.to_nat (n mod 10)).

(** The [k] low decimal digits of [n]. *)
Fixpoint digits (k : nat) (n : Z) : string :=
  match k with
  | O => ""
  | S k' => digits k' (n / 10) +:+ String (digit n) ""
  end.

Fixpoint count_digits (fuel : nat) (n : Z) : nat :=
  match fuel with
  | O => 1
  | S fuel' => if n <? 10 then 1%nat else S (count_digits fuel' (n / 10))
  end.

(** [str(n)] for an [int]. *)
Definition decimal (n : Z) : string :=
  (if n <? 0 then "-" else "")
  +:+ digits (count_digits (Z.to_nat (Z.abs n)) (Z.abs n)) (Z.abs n).

Definition sign_text (s : bool) : string := if s then "-" else "".

Definition mantissa_text (n : Z) : string :=
  String (digit (n / 10 ^ 16)) ("." +:+ digits 16 n).

(** The exponent: its sign, and no fewer than two digits. *)
Definition exponent_text (d : Z) : string :=
  (if d <? 0 then "-" else "+")
  +:+ digits (Nat.max 2 (count_digits (Z.to_nat (Z.abs d)) (Z.abs d)))
        (Z.abs d).

(** Presentation type [E] at precision 16. *)
Definition body_E (x : float) : string :=
  match Prim2SF x with
  | S754_nan => "NAN"
  | S754_infinity s => sign_text s +:+ "INF"
  | S754_zero s => sign_text s +:+ mantissa_text 0 +:+ "E" +:+ exponent_text 0
  | S754_finite s m e =>
      let '(n, d) := scientific m e in
      sign_text s +:+ mantissa_text n +:+ "E" +:+ exponent_text d
  end.

Fixpoint spaces (n : nat) : string :=
  match n with
  | O => ""
  | S n' => String " " (spaces n')
  end.

(** A number is aligned to the right of its field. *)
Definition rjust (w : nat) (s : string) : string :=
  spaces (w - String.length s) +:+ s.

(** [{:23.16E}] *)
Definition format_E (x : float) : string := rjust 23 (body_E x).

(** *** Results of a call *)

Inductive exn : Type :=
| IndexError
| ValueError
| KeyError
| ZeroDivisionError
| AttributeError
| OSError.

(** A call returns, raises, or ends the run through [sys.exit(1)] after
    writing to the standard error stream. *)
Inductive result (A : Type) : Type :=
| Return (a : A)
| Raise (e : exn)
| Exit (stderr : string).

Arguments Return {A} a.
Arguments Raise {A} e.
Arguments Exit {A} stderr.

Definition rbind {A B : Type} (r : result A) (k : A -> result B) : result B :=
  match r with
  | Return a => k a
  | Raise e => Raise e
  | Exit t => Exit t
  end.

Declare Scope py_scope.
Delimit Scope py_scope with py.
Notation "x <~ r ; k" := (rbind r (fun x => k))
  (at level 100, r at next level, right associativity) : py_scope.
Open Scope py_scope.

Definition or_raise {A : Type} (e : exn) (o : option A) : result A :=
  match o with
  | Some a => Return a
  | None => Raise e
  end.

(** *** Text *)

Definition nl : string := String "010" "".

Fixpoint ends_with_nl (s : string) : bool :=
  match s with
  | "" => false
  | String a "" => Ascii.eqb a "010"
  | String _ s' => ends_with_nl s'
  end.

Definition is_digit (a : ascii) : bool :=
  (48 <=? nat_of_ascii a)%nat && (nat_of_ascii a <=? 57)%nat.

Definition all_digits (s : string) : bool :=
  forallb is_digit (list_ascii_of_string s).

(** [str.isspace] on the code points below 256. *)
Definition is_space (a : ascii) : bool :=
  let n := nat_of_ascii a in
  ((9 <=? n) && (n <=? 13) || (28 <=? n) && (n <=? 32)
   || (n =? 133) || (n =? 160))%nat.

Fixpoint lstrip (cs : list ascii) : list ascii :=
  match cs with
  | [] => []
  | c :: cs' => if is_space c then lstrip cs' else cs
  end.

(** [s.strip()] *)
Definition strip (s : string) : string :=
  string_of_list_ascii
    (rev (lstrip (rev (lstrip (list_ascii_of_string s))))).

Fixpoint split_go (cs : list ascii) (cur : list ascii) : list string :=
  match cs with
  | [] =>
      match cur with
      | [] => []
      | _ => [string_of_list_ascii (rev cur)]
      end
  | c :: cs' =>
      if is_space c then
        match cur with
        | [] => split_go cs' []
        | _ => string_of_list_ascii (rev cur) :: split_go cs' []
        end
      else split_go cs' (c :: cur)
  end.

(** [s.split()] *)
Definition split (s : string) : list string :=
  split_go (list_ascii_of_string s) [].

(** [sep.join(l)] *)
Fixpoint join (sep : string) (l : list string) : string :=
  match l with
  | [] => ""
  | [s] => s
  | s :: l' => s +:+ sep +:+ join sep l'
  end.

(** *** Messages *)

(** What [fatal] writes before the run ends. *)
Definition fatal_text (message : string) : string :=
  if ends_with_nl message then "FATAL: " +:+ message
  else "FATAL: " +:+ message +:+ nl.

Definition fatal {A : Type} (message : string) : result A :=
  Exit (fatal_text message).

(** What [warning] writes. *)
Definition warning (message : string) : string :=
  if ends_with_nl message then "WARN: " +:+ message
  else "WARN: " +:+ message +:+ nl.

(** *** Atoms, boxes and configurations *)

(** An atom has its position from its construction on, and its force
    once [set_forces] was called. *)
Record Atom : Type := mk_Atom {
  type_ : Z;
  position : float * float * float;
  forces : option (float * float * float)
}.

Definition set_forces (f : float * float * float) (a : Atom) : Atom :=
  mk_Atom (type_ a) (position a) (Some f).

Record Box : Type := mk_Box { box_x : float; box_y : float; box_z : float }.

(** [types_of_element] and [body] are ordered dictionaries: association
    lists in the order of insertion, one entry for a key. *)
Record Configuration : Type := mk_Configuration {
  types_of_element : list (string * Z);
  boxes : list Box;
  energy : option float;
  stress : list (float * float * float);
  body : list (string * list Atom)
}.

Definition empty_configuration : Configuration :=
  mk_Configuration [] [] None [] [].

Definition getitem {A : Type} (key : string) (d : list (string * A))
  : option A :=
  snd <$> find (fun kv => String.eqb kv.1 key) d.

Fixpoint at_key {A : Type} (key : string) (f : A -> A)
  (d : list (string * A)) : list (string * A) :=
  match d with
  | [] => []
  | (k, v) :: d' =>
      if String.eqb k key then (k, f v) :: d' else (k, v) :: at_key key f d'
  end.

(** [l[i]] for a list, with the negative indices of the language. *)
Definition getindex {A : Type} (l : list A) (i : Z) : option nat :=
  let n := Z.of_nat (length l) in
  if (0 <=? i) && (i <? n) then Some (Z.to_nat i)
  else if (- n <=? i) && (i <? 0) then Some (Z.to_nat (n + i))
  else None.

(** The conversion of an [int] to [float]. *)
Definition float_of_int (n : Z) : float :=
  if n <? 0 then PrimFloat.opp (PrimFloat.of_uint63 (Uint63.of_Z (- n)))
  else PrimFloat.of_uint63 (Uint63.of_Z n).

Definition Atom_to_string (a : Atom) : result string :=
  match forces a with
  | None => Raise AttributeError
  | Some f =>
      Return (join " " [decimal (type_ a);
                        format_E (position a).1.1; format_E (position a).1.2;
                        format_E (position a).2;
                        format_E f.1.1; format_E f.1.2; format_E f.2])
  end.

Definition Box_to_string (b : Box) : string :=
  join " " [format_E (box_x b); format_E (box_y b); format_E (box_z b)].

Fixpoint atoms_to_strings (l : list Atom) : result (list string) :=
  match l with
  | [] => Return []
  | a :: l' =>
      s <~ Atom_to_string a;
      r <~ atoms_to_strings l';
      Return (s :: r)
  end.

Definition number_of_atoms (c : Configuration) : Z :=
  foldl (fun n kv => n + Z.of_nat (length kv.2)) 0 (body c).

(** The operand of the [#E] line: [self.energy if self.energy else 0]. *)
Definition energy_written (c : Configuration) : float :=
  match energy c with
  | Some e => if PrimFloat.eqb e 0 then 0%float else e
  | None => 0%float
  end.

(** [Configuration.to_string] *)
Definition to_string (c : Configuration) : result string :=
  bx <~ or_raise IndexError (boxes c !! 0%nat);
  by_ <~ or_raise IndexError (boxes c !! 1%nat);
  bz <~ or_raise IndexError (boxes c !! 2%nat);
  let header :=
    ["#N " +:+ decimal (number_of_atoms c) +:+ " 1";
     "#C " +:+ join " " (types_of_element c).*1;
     "#X " +:+ Box_to_string bx;
     "#Y " +:+ Box_to_string by_;
     "#Z " +:+ Box_to_string bz;
     "#E " +:+ format_E (energy_written c)]
    ++ match stress c with
       | [s0; s1; s2] =>
           ["#S " +:+ join " " [format_E s0.1.1; format_E s1.1.2;
                                 format_E s2.2; format_E s0.1.2;
                                 format_E s1.2; format_E s0.2]]
       | _ => []
       end
    ++ ["#F"] in
  atoms <~ atoms_to_strings (concat (body c).*2);
  Return (join nl (header ++ atoms ++ [""])).

(** *** The layout of a number in the force file *)

(** A field that holds a number: spaces and then [NAN], [INF], [-INF], or
    a sign if the number is negative, one digit, the point, sixteen
    digits, [E], the sign of the exponent and two or three digits. The
    first digit is zero only in [0.0000000000000000E+00]. The field is 23
    characters wide; it is 24 wide exactly when it has its sign and three
    exponent digits. *)
Definition is_field (s : string) : Prop :=
  exists k body,
    s = spaces k +:+ body
    /\ (23 <= String.length s <= 24)%nat
    /\ (body = "NAN" \/ body = "INF" \/ body = "-INF"
        \/ exists sign lead frac esign edigits,
             body
             = sign
               +:+ String lead ("." +:+ frac +:+ "E" +:+ String esign edigits)
             /\ (sign = "" \/ sign = "-")
             /\ is_digit lead = true
             /\ String.length frac = 16%nat /\ all_digits frac = true
             /\ (esign = "+"%char \/ esign = "-"%char)
             /\ (2 <= String.length edigits <= 3)%nat
             /\ all_digits edigits = true
             /\ (lead = "0"%char ->
                 frac = "0000000000000000" /\ esign = "+"%char
                 /\ edigits = "00")
             /\ (String.length s = 24%nat
                 <-> sign = "-" /\ String.length edigits = 3%nat)).

(** A text of [n] numbers with one space between them. *)
Definition numbers (n : nat) (text : string) : Prop :=
  exists fs, length fs = n /\ text = join " " fs /\ Forall is_field fs.

(** The line of an atom: its type and six numbers. *)
Definition atom_line (line : string) : Prop :=
  exists t rest, line = decimal t +:+ " " +:+ rest /\ numbers 6 rest.

Definition demo_atom : Atom :=
  mk_Atom 0 (0.1, 0.25, 0)%float (Some (-1e-100, 1, -2)%float).

(** *** Reading a configuration *)

Section reader.

(** [float(s)] and [int(s)] of the runtime, [None] for a [ValueError]. *)
Variable float_ : string -> option float.
Variable int_ : string -> option Z.

Definition word (l : list string) (i : nat) : result string :=
  or_raise IndexError (l !! i).

Definition scaled (factor : float) (l : list string) (i : nat)
  : result float :=
  s <~ word l i;
  v <~ or_raise ValueError (float_ s);
  Return (PrimFloat.mul v factor).

Definition atomic_length := scaled 0.529177210903.
Definition atomic_energy := scaled 27.211386245988.
Definition atomic_force := scaled 51.421.
Definition atomic_stress := scaled 183.63153644969503.

Definition triple (conv : list string -> nat -> result float)
  (l : list string) (i : nat) : result (float * float * float) :=
  x <~ conv l i;
  y <~ conv l (S i);
  z <~ conv l (S (S i));
  Return (x, y, z).

(** The loop variables: the configuration under construction and
    [energy]. *)
Definition progress : Type := Configuration * option float.

(** One line that is neither the header mark nor empty. *)
Definition read_line (stripped : string) (p : progress) : result progress :=
  let '(config, energy) := p in
  let split_line := split stripped in
  let tag := default "" (last split_line) in
  config <~
    (if String.eqb tag "S" then
       v <~ triple atomic_stress split_line 0;
       Return (mk_Configuration (types_of_element config) (boxes config)
                 (Castep.energy config) (stress config ++ [v]) (body config))
     else Return config);
  energy <~
    (if String.eqb tag "E" then
       e <~ atomic_energy split_line 0;
       Return (Some e)
     else Return energy);
  config <~
    (if String.eqb tag "h" then
       v <~ triple atomic_length split_line 0;
       Return (mk_Configuration (types_of_element config)
                 (boxes config ++ [mk_Box v.1.1 v.1.2 v.2])
                 (Castep.energy config) (stress config) (body config))
     else Return config);
  config <~
    (if String.eqb tag "R" then
       element_type <~ word split_line 0;
       s <~ word split_line 1;
       _ <~ or_raise ValueError (int_ s);
       v <~ triple atomic_length split_line 2;
       let config :=
         match getitem element_type (types_of_element config) with
         | Some _ => config
         | None =>
             mk_Configuration
               (types_of_element config
                ++ [(element_type, Z.of_nat (length (types_of_element config)))])
               (boxes config) (Castep.energy config) (stress config)
               (body config ++ [(element_type, [])])
         end in
       element_type_int <~
         or_raise KeyError (getitem element_type (types_of_element config));
       atoms <~ or_raise KeyError (getitem element_type (body config));
       Return (mk_Configuration (types_of_element config) (boxes config)
                 (Castep.energy config) (stress config)
                 (at_key element_type
                    (fun l => l ++ [mk_Atom element_type_int v None])
                    (body config)))
     else Return config);
  config <~
    (if String.eqb tag "F" then
       element_type <~ word split_line 0;
       s <~ word split_line 1;
       atom_number <~ or_raise ValueError (int_ s);
       f <~ triple atomic_force split_line 2;
       atoms <~ or_raise KeyError (getitem element_type (body config));
       i <~ or_raise IndexError (getindex atoms (atom_number - 1));
       Return (mk_Configuration (types_of_element config) (boxes config)
                 (Castep.energy config) (stress config)
                 (at_key element_type (alter (set_forces f) i)
                    (body config)))
     else Return config);
  Return (config, energy).

(** The [for line in file] loop: [skip] lines are still to be passed
    over by the [readline] calls that follow a header mark. The result is
    [None] when the file ends before an empty line, and the progress and
    the rest of the file after the empty line otherwise. *)
Fixpoint read_lines (file : list string) (skip : nat) (p : progress)
  : result (option (progress * list string)) :=
  match file with
  | [] => Return None
  | line :: rest =>
      match skip with
      | S skip' => read_lines rest skip' p
      | O =>
          let stripped_line := strip line in
          if String.eqb stripped_line "BEGIN header" then read_lines rest 4 p
          else if String.eqb stripped_line "" then Return (Some (p, rest))
          else
            p <~ read_line stripped_line p;
            read_lines rest 0 p
      end
  end.

(** The loop over [config.body.items()] that takes the chemical
    potentials off the energy. *)
Fixpoint cohesive (potentials : gmap string float)
  (items : list (string * list Atom)) (energy : float) (count : Z)
  : result (float * Z) :=
  match items with
  | [] => Return (energy, count)
  | (element, atoms) :: items' =>
      match potentials !! element with
      | None =>
          fatal ("Element '" +:+ element
                 +:+ "' in MD file, but no chemical potential given")
      | Some mu =>
          let n := Z.of_nat (length atoms) in
          cohesive potentials items'
            (PrimFloat.sub energy (PrimFloat.mul mu (float_of_int n)))
            (count + n)
      end
  end.

Definition finish (potentials : gmap string float) (p : progress)
  : result Configuration :=
  let '(config, energy) := p in
  energy <~
    match energy with
    | Some e =>
        r <~ cohesive potentials (body config) e 0;
        if r.2 =? 0 then Raise ZeroDivisionError
        else Return (Some (PrimFloat.div r.1 (float_of_int r.2)))
    | None => Return None
    end;
  Return (mk_Configuration (types_of_element config) (boxes config) energy
            (stress config) (body config)).

(** [read_configuration]: the configuration and the rest of the file, or
    [None] at the end of the file. *)
Definition read_configuration (file : list string)
  (potentials : gmap string float)
  : result (option (Configuration * list string)) :=
  r <~ read_lines file 0 (empty_configuration, None);
  match r with
  | None => Return None
  | Some (p, rest) =>
      config <~ finish potentials p;
      Return (Some (config, rest))
  end.

End reader.

(** The first element of the body, in its order, that has no chemical
    potential. *)
Definition first_missing (potentials : gmap string float)
  (items : list (string * list Atom)) : option string :=
  fst <$> find (fun kv => bool_decide (potentials !! kv.1 = None)) items.

(** Conversions that take unsigned decimal integers only. *)
Fixpoint unsigned (s : string) (acc : Z) : option Z :=
  match s with
  | "" => Some acc
  | String a s' =>
      if is_digit a then
        unsigned s' (10 * acc + Z.of_nat (nat_of_ascii a) - 48)
      else None
  end.

Definition demo_int (s : string) : option Z :=
  match s with
  | "" => None
  | _ => unsigned s 0
  end.

Definition demo_float (s : string) : option float :=
  float_of_int <$> demo_int s.

(** *** Calls that never end the run *)

Definition no_exit {A : Type} (r : result A) : Prop :=
  match r with
  | Exit _ => False
  | _ => True
  end.

(** *** Files *)

Section files.

Variable float_ : string -> option float.
Variable int_ : string -> option Z.

(** The files that can be opened, each as the list of its lines; the
    standard input is the file ["-"]. *)
Variable fs : string -> option (list string).

(** The [while True] loop of [read_md_file], for at most [fuel] turns:
    [None] when the turns do not suffice. *)
Fixpoint read_md_loop (fuel : nat) (file : list string)
  (potentials : gmap string float) (configurations : list Configuration)
  : option (result (list Configuration)) :=
  match fuel with
  | O => None
  | S fuel' =>
      match read_configuration float_ int_ file potentials with
      | Return None => Some (Return configurations)
      | Return (Some (config, rest)) =>
          read_md_loop fuel' rest potentials (configurations ++ [config])
      | Raise e => Some (Raise e)
      | Exit t => Some (Exit t)
      end
  end.

(** [read_md_file] *)
Definition read_md_file (filename : string) (potentials : gmap string float)
  : option (result (list Configuration)) :=
  match fs filename with
  | None =>
      Some (fatal ("Cannot read file '" +:+ filename
                   +:+ "' as it does not exist"))
  | Some file => read_md_loop (S (length file)) file potentials []
  end.

(** The loop of [main] over the file names. *)
Fixpoint collect (filenames : list string) (potentials : gmap string float)
  (final : bool) (configurations : list Configuration)
  : option (result (list Configuration)) :=
  match filenames with
  | [] => Some (Return configurations)
  | filename :: filenames' =>
      match read_md_file filename potentials with
      | None => None
      | Some (Return configuration) =>
          if final then
            match List.last (Some <$> configuration) None with
            | Some c => collect filenames' potentials final (configurations ++ [c])
            | None => Some (Raise IndexError)
            end
          else collect filenames' potentials final
                 (configurations ++ configuration)
      | Some (Raise e) => Some (Raise e)
      | Some (Exit t) => Some (Exit t)
      end
  end.

End files.

(** *** Writing the configurations *)

(** Where [write_configurations] writes: the standard output, or the file
    it opens. *)
Inductive sink : Type :=
| Stdout
| Path (name : string).

(** The loop [for conf in configurations: write(conf.to_string())]: the
    text written and how the loop ends. What was written before a call of
    [to_string] raises stays written. A write to the open stream is taken
    to succeed. *)
Fixpoint write_loop (configurations : list Configuration)
  : string * result unit :=
  match configurations with
  | [] => ("", Return tt)
  | conf :: rest =>
      match to_string conf with
      | Return s => let r := write_loop rest in (s +:+ r.1, r.2)
      | Raise e => ("", Raise e)
      | Exit t => ("", Exit t)
      end
  end.

Section output.

(** The paths [open(output, "w")] opens; for any other it raises
    [OSError]. *)
Variable writable : string -> bool.

(** [write_configurations]: the stream it wrote to with the text it wrote
    there, if it came to write, and how it ended. The [output] that is
    [None] is [None] here. *)
Definition write_configurations (configurations : list Configuration)
  (output : option string) : option (sink * string) * result unit :=
  match output with
  | None =>
      let r := write_loop configurations in (Some (Stdout, r.1), r.2)
  | Some name =>
      if String.eqb name "-" then
        let r := write_loop configurations in (Some (Stdout, r.1), r.2)
      else if writable name then
        let r := write_loop configurations in (Some (Path name, r.1), r.2)
      else (None, Raise OSError)
  end.

End output.

(** The texts of the configurations [cs], one after the other. *)
Definition texts_of (cs : list Configuration) (text : string) : Prop :=
  exists texts,
    Forall2 (fun c s => to_string c = Return s) cs texts
    /\ text = foldr String.append "" texts.

(** *** Numbered elements *)

(** The elements are numbered in the order of their first atom, the
    body lists them in that order, once each, with at least one atom, and
    an atom carries the number of its element. *)
Definition numbered (c : Configuration) : Prop :=
  types_of_element c = imap (fun i kv => (kv.1, Z.of_nat i)) (body c)
  /\ NoDup (body c).*1
  /\ forall (i : nat) el atoms,
       body c !! i = Some (el, atoms) ->
       atoms <> [] /\ Forall (fun a => type_ a = Z.of_nat i) atoms.

(** *** The potentials option *)

(** [s.split(sep)] for a separator of one character. *)
Fixpoint split_on (sep : ascii) (s : string) : list string :=
  match s with
  | "" => [""]
  | String a s' =>
      if Ascii.eqb a sep then "" :: split_on sep s'
      else match split_on sep s' with
           | w :: ws => String a w :: ws
           | [] => [String a ""]
           end
  end.

Fixpoint contains (a : ascii) (s : string) : bool :=
  match s with
  | "" => false
  | String b s' => Ascii.eqb b a || contains a s'
  end.

(** One turn of the loop of [parse_potentials]. *)
Definition parse_pair (float_ : string -> option float)
  (potentials : gmap string float) (item : string)
  : result (gmap string float) :=
  let values := split_on "=" item in
  v <~ or_raise IndexError (values !! 1%nat);
  x <~ or_raise ValueError (float_ v);
  Return (<[strip (default "" (values !! 0%nat)) := x]> potentials).

Fixpoint parse_pairs (float_ : string -> option float)
  (potentials : gmap string float) (pairs : list string)
  : result (gmap string float) :=
  match pairs with
  | [] => Return potentials
  | item :: pairs' =>
      potentials <~ parse_pair float_ potentials item;
      parse_pairs float_ potentials pairs'
  end.

(** [parse_potentials] *)
Definition parse_potentials (float_ : string -> option float)
  (potential_str : string) : result (gmap string float) :=
  parse_pairs float_ ∅ (split_on "," potential_str).

(** The dictionary that pairs of element and value make, a later pair
    taking the place of an earlier one for the same element. *)
Definition potentials_of (float_ : string -> option float)
  (l : list (string * string)) : gmap string float :=
  foldl (fun d kv => match float_ kv.2 with
                     | Some x => <[strip kv.1 := x]> d
                     | None => d
                     end) ∅ l.

(** An element or a value that holds neither separator. *)
Definition plain (s : string) : Prop :=
  contains "," s = false /\ contains "=" s = false.

Definition demo_fs (name : string) : option (list string) :=
  if String.eqb name "a.md"
  then Some ["Ar 1 0 0 0 R"; ""; "Si 1 0 0 0 R"; "Si 2 1 1 1 R"; ""]
  else None.

(** ** Properties of the converter *)

(** *** The layout of a formatted number *)

Lemma length_append (s1 s2 : string) :
  String.length (s1 +:+ s2) = (String.length s1 + String.length s2)%nat.
Proof. induction s1 as [|a s1 IH]; simpl; [done|]. by rewrite IH. Qed.

Lemma append_assoc (s1 s2 s3 : string) :
  (s1 +:+ s2) +:+ s3 = s1 +:+ s2 +:+ s3.
Proof.
  induction s1 as [|a s1 IH]; [done|].
  change (String a ((s1 +:+ s2) +:+ s3) = String a (s1 +:+ s2 +:+ s3)).
  by f_equal.
Qed.

Lemma append_cons a (s1 s2 : string) :
  String a s1 +:+ s2 = String a (s1 +:+ s2).
Proof. done. Qed.

Lemma length_spaces n : String.length (spaces n) = n.
Proof. induction n as [|n IH]; simpl; [done|]. by rewrite IH. Qed.

Lemma length_rjust w s : String.length (rjust w s) = Nat.max w (String.length s).
Proof. unfold rjust. rewrite length_append, length_spaces. lia. Qed.

Lemma length_digits k n : String.length (digits k n) = k.
Proof.
  revert n. induction k as [|k IH]; intros n; simpl; [done|].
  rewrite length_append, IH. simpl. lia.
Qed.

Lemma digit_code n : nat_of_ascii (digit n) = (48 + Z.to_nat (n mod 10))%nat.
Proof.
  unfold digit. apply nat_ascii_embedding.
  pose proof (Z.mod_pos_bound n 10). lia.
Qed.

Lemma is_digit_digit n : is_digit (digit n) = true.
Proof.
  unfold is_digit. rewrite digit_code.
  pose proof (Z.mod_pos_bound n 10).
  apply andb_true_intro. split; apply Nat.leb_le; lia.
Qed.

Lemma all_digits_app s1 s2 :
  all_digits (s1 +:+ s2) = all_digits s1 && all_digits s2.
Proof. induction s1 as [|a s1 IH]; simpl; [done|].
  unfold all_digits in *. simpl. by rewrite IH, andb_assoc. Qed.

Lemma all_digits_digits k n : all_digits (digits k n) = true.
Proof.
  revert n. induction k as [|k IH]; intros n; simpl; [done|].
  rewrite all_digits_app, IH. unfold all_digits.
  cbn [list_ascii_of_string forallb]. by rewrite is_digit_digit.
Qed.

Lemma count_digits_bound fuel n :
  0 <= n < 1000 -> (1 <= count_digits fuel n <= 3)%nat.
Proof.
  intros Hn.
  destruct fuel as [|[|[|fuel]]]; simpl; repeat case_match; try lia.
  all: repeat match goal with
         | H : (_ <? _) = false |- _ => apply Z.ltb_ge in H
         end.
  all: assert (n / 10 / 10 < 10) by
         (apply Z.div_lt_upper_bound; [lia|];
          apply Z.div_lt_upper_bound; lia); lia.
Qed.

(** **** The decimal exponent *)

Lemma search_spec fuel x d :
  d - Z.of_nat fuel <= search fuel x d <= d
  /\ (search fuel x d = d \/ reaches x (search fuel x d + 1) = false)
  /\ (reaches x (search fuel x d) = true
      \/ search fuel x d = d - Z.of_nat fuel).
Proof.
  revert d. induction fuel as [|fuel IH]; intros d; simpl.
  - split; [lia|]. split; [by left|]. right. lia.
  - destruct (reaches x d) eqn:E.
    + split; [lia|]. split; [by left|]. by left.
    + destruct (IH (d - 1)) as (H1 & H2 & H3).
      split; [lia|]. split.
      * right. destruct H2 as [->|H2]; [|done].
        by replace (d - 1 + 1) with d by lia.
      * destruct H3 as [H3|H3]; [by left|]. right. lia.
Qed.

Lemma ten_pos d : (0 < 10 ^ d)%Q.
Proof. by apply Qpower_0_lt. Qed.

Lemma exponent10_spec x :
  (10 ^ (-324) <= x)%Q -> (x < 10 ^ 309)%Q ->
  -324 <= exponent10 x <= 308
  /\ (10 ^ exponent10 x <= x)%Q /\ (x < 10 ^ (exponent10 x + 1))%Q.
Proof.
  intros Hlo Hhi. unfold exponent10.
  destruct (search_spec 632 x 308) as (H1 & H2 & H3).
  set (d := search 632 x 308) in *.
  split; [lia|]. split.
  - destruct H3 as [H3|H3]; [by apply Qle_bool_iff|].
    replace d with (-324) by lia. done.
  - destruct H2 as [H2|H2]; [by rewrite H2|].
    apply Qnot_le_lt. intros H. apply Qle_bool_iff in H.
    unfold reaches in H2. congruence.
Qed.

Lemma scaled_range x d :
  (10 ^ d <= x)%Q -> (x < 10 ^ (d + 1))%Q ->
  (inject_Z (10 ^ 16) <= x * 10 ^ (16 - d))%Q
  /\ (x * 10 ^ (16 - d) < inject_Z (10 ^ 17))%Q.
Proof.
  intros Hlo Hhi.
  assert (Hne : ~ (10 == 0)%Q) by done.
  split.
  - rewrite (Zpower_Qpower 10 16) by lia.
    replace 16 with (d + (16 - d)) at 1 by lia.
    rewrite (Qpower_plus _ _ _ Hne).
    apply Qmult_le_compat_r; [done|]. apply Qlt_le_weak, ten_pos.
  - rewrite (Zpower_Qpower 10 17) by lia.
    replace 17 with ((d + 1) + (16 - d)) by lia.
    rewrite (Qpower_plus _ _ _ Hne).
    apply Qmult_lt_compat_r; [apply ten_pos|done].
Qed.

Lemma round_half_even_range y a b :
  (inject_Z a <= y)%Q -> (y < inject_Z b)%Q ->
  a <= round_half_even y <= b.
Proof.
  intros Hlo Hhi.
  assert (Ha : a <= Qfloor y).
  { rewrite <- (Qfloor_Z a). by apply Qfloor_resp_le. }
  assert (Hb : Qfloor y < b).
  { rewrite Zlt_Qlt. eapply Qle_lt_trans; [apply Qfloor_le|done]. }
  unfold round_half_even. repeat case_match; lia.
Qed.

(** **** The range of a binary64 value *)

Lemma digits2_pos_bound m : Zpos m < 2 ^ Zpos (digits2_pos m).
Proof.
  induction m as [m IH|m IH|]; simpl; [| |done].
  - rewrite Pos2Z.inj_succ, Z.pow_succ_r by lia. lia.
  - rewrite Pos2Z.inj_succ, Z.pow_succ_r by lia. lia.
Qed.

Lemma valid_range s m e :
  valid_binary (S754_finite s m e) = true ->
  (10 ^ (-324) <= value m e)%Q /\ (value m e < 10 ^ 309)%Q.
Proof.
  unfold SpecFloat.valid_binary, bounded, canonical_mantissa, fexp,
    SpecFloat.emin, prec, emax.
  intros H. apply andb_true_iff in H as [H1 H2].
  apply Z.eqb_eq in H1. apply Z.leb_le in H2.
  assert (Hd : Zpos (digits2_pos m) <= 53) by lia.
  assert (He : -1074 <= e) by lia.
  assert (Hm : Zpos m < 2 ^ 53).
  { eapply Z.lt_le_trans; [apply digits2_pos_bound|].
    apply Z.pow_le_mono_r; lia. }
  assert (H2e : (0 < 2 ^ e)%Q) by by apply Qpower_0_lt.
  unfold value. split.
  - apply Qle_trans with (2 ^ (-1074))%Q.
    { apply Qle_bool_imp_le. by vm_compute. }
    apply Qle_trans with (2 ^ e)%Q.
    { by apply Qpower_le_compat_l. }
    rewrite <- (Qmult_1_l (2 ^ e)) at 1.
    apply Qmult_le_compat_r; [|by apply Qlt_le_weak].
    change 1%Q with (inject_Z 1). rewrite <- Zle_Qle. lia.
  - apply Qlt_le_trans with (inject_Z (2 ^ 53) * 2 ^ e)%Q.
    { apply Qmult_lt_compat_r; [done|]. by rewrite <- Zlt_Qlt. }
    apply Qle_trans with (inject_Z (2 ^ 53) * 2 ^ 971)%Q.
    { apply Qmult_le_l; [done|]. by apply Qpower_le_compat_l. }
    apply Qle_bool_imp_le. by vm_compute.
Qed.

Lemma scientific_spec s m e :
  valid_binary (S754_finite s m e) = true ->
  10 ^ 16 <= (scientific m e).1 < 10 ^ 17
  /\ -324 <= (scientific m e).2 <= 309.
Proof.
  intros Hv. destruct (valid_range _ _ _ Hv) as [Hlo Hhi].
  destruct (exponent10_spec _ Hlo Hhi) as (Hd & H1 & H2).
  destruct (scaled_range _ _ H1 H2) as [H3 H4].
  pose proof (round_half_even_range _ _ _ H3 H4) as Hn.
  unfold scientific. cbv zeta.
  destruct (Z.eqb_spec (round_half_even
              (value m e * 10 ^ (16 - exponent10 (value m e)))) (10 ^ 17))
    as [E|E]; cbn [fst snd]; lia.
Qed.

Lemma digit_nonzero v : 1 <= v <= 9 -> digit v <> "0"%char.
Proof.
  intros Hv E. apply (f_equal nat_of_ascii) in E. rewrite digit_code in E.
  rewrite Z.mod_small in E by lia. change (nat_of_ascii "0") with 48%nat in E.
  lia.
Qed.

Lemma exponent_text_shape d :
  -999 <= d <= 999 ->
  exists esign edigits,
    exponent_text d = String esign edigits
    /\ (esign = "+"%char \/ esign = "-"%char)
    /\ (2 <= String.length edigits <= 3)%nat
    /\ all_digits edigits = true.
Proof.
  intros Hd. unfold exponent_text.
  pose proof (count_digits_bound (Z.to_nat (Z.abs d)) (Z.abs d)
                ltac:(lia)) as Hc.
  set (k := Nat.max 2 _).
  exists (if d <? 0 then "-"%char else "+"%char), (digits k (Z.abs d)).
  split; [by destruct (d <? 0)|].
  split; [destruct (d <? 0); auto|].
  rewrite length_digits, all_digits_digits. split; [lia|done].
Qed.

(** What [{:23.16E}] writes: the sign of a negative number, one digit
    that is not zero, the point, sixteen more digits (seventeen
    significant digits), [E], the sign of the exponent and two or three
    exponent digits, after as many spaces as fill 23 characters; a
    negative number with a three-digit exponent takes 24. Zeros,
    infinities and NaN are written as such. *)
Lemma format_E_layout (x : float) :
  (23 <= String.length (format_E x) <= 24)%nat
  /\ (exists k, format_E x = spaces k +:+ body_E x)
  /\ match Prim2SF x with
     | S754_finite s m e =>
         exists lead frac esign edigits,
           body_E x
           = sign_text s
             +:+ String lead ("." +:+ frac +:+ "E" +:+ String esign edigits)
           /\ is_digit lead = true /\ lead <> "0"%char
           /\ String.length frac = 16%nat /\ all_digits frac = true
           /\ (esign = "+"%char \/ esign = "-"%char)
           /\ (2 <= String.length edigits <= 3)%nat
           /\ all_digits edigits = true
           /\ (String.length (format_E x) = 24%nat
               <-> s = true /\ String.length edigits = 3%nat)
     | S754_zero s => body_E x = sign_text s +:+ "0.0000000000000000E+00"
     | S754_infinity s => body_E x = sign_text s +:+ "INF"
     | S754_nan => body_E x = "NAN"
     end.
Proof.
  pose proof (Prim2SF_valid x) as Hv.
  unfold format_E. rewrite length_rjust.
  destruct (Prim2SF x) as [s|s| |s m e] eqn:E.
  - assert (Hb : body_E x = sign_text s +:+ "0.0000000000000000E+00").
    { unfold body_E. rewrite E. by destruct s. }
    rewrite Hb. split; [destruct s; simpl; lia|].
    split; [by eexists|done].
  - assert (Hb : body_E x = sign_text s +:+ "INF").
    { unfold body_E. by rewrite E. }
    rewrite Hb. split; [destruct s; simpl; lia|].
    split; [by eexists|done].
  - assert (Hb : body_E x = "NAN").
    { unfold body_E. by rewrite E. }
    rewrite Hb. split; [simpl; lia|]. split; [by eexists|done].
  - destruct (scientific_spec s m e Hv) as [Hn Hd].
    destruct (scientific m e) as [n d] eqn:Es. cbn [fst snd] in Hn, Hd.
    destruct (exponent_text_shape d ltac:(lia))
      as (esign & edigits & Hex & Hsign & Hlen & Hdig).
    assert (Hlead : 1 <= n / 10 ^ 16 <= 9).
    { split; [apply Z.div_le_lower_bound; lia|].
      assert (n / 10 ^ 16 < 10); [|lia].
      apply Z.div_lt_upper_bound; lia. }
    assert (Hb : body_E x
                 = sign_text s
                   +:+ String (digit (n / 10 ^ 16))
                         ("." +:+ digits 16 n +:+ "E" +:+ String esign edigits)).
    { unfold body_E. rewrite E, Es, Hex. unfold mantissa_text.
      by rewrite !append_cons, append_assoc. }
    assert (Hl : String.length (body_E x)
                 = (String.length (sign_text s) + 20
                    + String.length edigits)%nat).
    { rewrite Hb, length_append. cbn [String.length].
      rewrite append_cons. cbn [String.length].
      rewrite !length_append, length_digits. cbn [String.length]. lia. }
    rewrite Hl. split; [destruct s; simpl; lia|]. split; [by eexists|].
    exists (digit (n / 10 ^ 16)), (digits 16 n), esign, edigits.
    split; [done|]. split; [apply is_digit_digit|].
    split; [by apply digit_nonzero|].
    split; [apply length_digits|]. split; [apply all_digits_digits|].
    split; [done|]. split; [done|]. split; [done|].
    destruct s; simpl; split; [lia|intros [_ ?]; lia|lia|by intros [? _]].
Qed.

Lemma format_E_is_field (x : float) : is_field (format_E x).
Proof.
  destruct (format_E_layout x) as (Hlen & [k Hk] & Hbody).
  assert (Hl : String.length (format_E x)
               = Nat.max 23 (String.length (body_E x)))
    by apply length_rjust.
  exists k, (body_E x). split; [done|]. split; [done|].
  destruct (Prim2SF x) as [s|s| |s m e].
  - right. right. right.
    exists (sign_text s), "0"%char, "0000000000000000", "+"%char, "00".
    split; [done|]. split; [destruct s; auto|].
    split; [done|]. split; [done|]. split; [done|]. split; [auto|].
    split; [simpl; lia|]. split; [done|]. split; [done|].
    rewrite Hl, Hbody.
    destruct s; simpl; split; (lia || by intros [_ ?]).
  - destruct s; rewrite Hbody; simpl; auto.
  - rewrite Hbody. auto.
  - right. right. right.
    destruct Hbody as (lead & frac & esign & edigits & Hb & H1 & H2 & H3 & H4
                        & H5 & H6 & H7 & H8).
    exists (sign_text s), lead, frac, esign, edigits.
    split; [done|]. split; [destruct s; auto|].
    do 6 (split; [done|]). split; [done|].
    destruct H8 as [Hto Hfrom]. destruct s; cbn [sign_text]; split.
    + intros H. by destruct (Hto H).
    + intros [_ ?]. by apply Hfrom.
    + intros H. by destruct (Hto H).
    + by intros [? _].
Qed.

Lemma Box_to_string_numbers b : numbers 3 (Box_to_string b).
Proof.
  eexists [_; _; _]. split; [done|]. split; [done|].
  repeat constructor; apply format_E_is_field.
Qed.

Lemma Atom_to_string_line a s : Atom_to_string a = Return s -> atom_line s.
Proof.
  unfold Atom_to_string. destruct (forces a) as [f|]; [|done].
  intros [= <-]. exists (type_ a). eexists. split.
  - reflexivity.
  - eexists [_; _; _; _; _; _]. split; [done|]. split; [done|].
    repeat constructor; apply format_E_is_field.
Qed.

Lemma atoms_to_strings_lines l r :
  atoms_to_strings l = Return r -> Forall atom_line r.
Proof.
  revert r. induction l as [|a l IH]; intros r; simpl; [by intros [= <-]|].
  destruct (Atom_to_string a) as [s|e|t] eqn:Ea; [|done..]. cbn [rbind].
  destruct (atoms_to_strings l) as [r'|e|t]; [|done..]. cbn [rbind].
  intros [= <-]. constructor; [by eapply Atom_to_string_line|by apply IH].
Qed.




(** *** The chemical potentials *)

Lemma ends_with_nl_app s1 a s2 :
  ends_with_nl (s1 +:+ String a s2) = ends_with_nl (String a s2).
Proof.
  induction s1 as [|b s1 IH]; [done|]. rewrite append_cons.
  change (ends_with_nl (String b (s1 +:+ String a s2)))
    with (match s1 +:+ String a s2 with
          | "" => Ascii.eqb b "010"
          | _ => ends_with_nl (s1 +:+ String a s2)
          end).
  rewrite IH. by destruct s1.
Qed.

Lemma cohesive_missing potentials items element :
  first_missing potentials items = Some element ->
  forall e count,
    cohesive potentials items e count
    = Exit ("FATAL: Element '" +:+ element
            +:+ "' in MD file, but no chemical potential given" +:+ nl).
Proof.
  unfold first_missing.
  induction items as [|[el atoms] items IH]; intros Hm e count; [done|].
  cbn [find fst] in Hm. simpl. case_bool_decide as Hel.
  - injection Hm as <-. rewrite Hel. unfold fatal, fatal_text.
    rewrite <- append_assoc, ends_with_nl_app.
    by rewrite <- !append_assoc.
  - destruct (potentials !! el) as [mu|]; [|done]. by apply IH.
Qed.

(** C8, as the code has it: when the lines of a configuration were read
    up to the empty line that ends it and some element of its body has no
    chemical potential, the run ends with the diagnostic that names the
    first such element if an energy line was among the lines, and the
    configuration is returned, without energy and without diagnostic, if
    none was. *)
Theorem missing_potential_is_fatal float_ int_ file potentials config oe rest
    element :
  read_lines float_ int_ file 0 (empty_configuration, None)
  = Return (Some ((config, oe), rest)) ->
  first_missing potentials (body config) = Some element ->
  read_configuration float_ int_ file potentials
  = match oe with
    | Some _ =>
        Exit ("FATAL: Element '" +:+ element
              +:+ "' in MD file, but no chemical potential given" +:+ nl)
    | None =>
        Return (Some (mk_Configuration (types_of_element config)
                        (boxes config) None (stress config) (body config),
                      rest))
    end.
Proof.
  intros Hr Hm. unfold read_configuration. rewrite Hr. cbn [rbind finish].
  destruct oe as [e|]; [|done].
  by rewrite (cohesive_missing _ _ _ Hm).
Qed.

Lemma missing_potential_is_fatal_witness :
  read_configuration demo_float demo_int ["1 0 0 E"; "Ar 1 0 0 0 R"; ""] ∅
  = Exit ("FATAL: Element 'Ar' in MD file, but no chemical potential given"
          +:+ nl).
Proof.
  destruct (read_lines demo_float demo_int ["1 0 0 E"; "Ar 1 0 0 0 R"; ""] 0
              (empty_configuration, None)) as [[[[config oe] rest]|]| |] eqn:E;
    try (vm_compute in E; discriminate).
  assert (Hoe : exists e, oe = Some e).
  { vm_compute in E. injection E as _ <- _. by eexists. }
  destruct Hoe as [e ->].
  apply (missing_potential_is_fatal demo_float demo_int _ ∅ config (Some e)
           rest "Ar" E).
  vm_compute in E. by injection E as <- _ _.
Defined.

(** A configuration with an atom of an element that has no chemical
    potential, and no energy line: it is returned. *)
Lemma missing_potential_without_energy :
  exists config,
    read_configuration demo_float demo_int ["Ar 1 0 0 0 R"; ""] ∅
    = Return (Some (config, []))
    /\ (body config).*1 = ["Ar"]
    /\ first_missing ∅ (body config) = Some "Ar".
Proof. eexists. vm_compute. done. Qed.

(** *** Messages end in a newline *)

Lemma ends_with_nl_cons a b s :
  ends_with_nl (String a (String b s)) = ends_with_nl (String b s).
Proof. done. Qed.

(** [fatal] and [warning] write a text that ends in a newline, whether
    the message has one or not. *)
Theorem messages_end_in_newline message :
  ends_with_nl (fatal_text message) = true
  /\ ends_with_nl (warning message) = true.
Proof.
  unfold fatal_text, warning.
  destruct (ends_with_nl message) eqn:E; cbv iota.
  - destruct message as [|a m]; [done|].
    by rewrite (ends_with_nl_app "FATAL: "), (ends_with_nl_app "WARN: ").
  - by rewrite <- !append_assoc, !(ends_with_nl_app _ "010" "").
Qed.

(** *** The end of the file *)

Lemma no_exit_rbind {A B : Type} (r : result A) (k : A -> result B) :
  no_exit r -> (forall a, no_exit (k a)) -> no_exit (rbind r k).
Proof. destruct r; simpl; auto. Qed.

Lemma no_exit_or_raise {A : Type} e (o : option A) : no_exit (or_raise e o).
Proof. by destruct o. Qed.

Ltac no_exit :=
  repeat first
    [ apply no_exit_or_raise
    | apply no_exit_rbind; [|intros ?]
    | match goal with
      | |- no_exit (if ?b then _ else _) => destruct b
      | |- no_exit (Return _) => exact I
      | |- no_exit (Raise _) => exact I
      end ].

Lemma no_exit_triple conv l i :
  (forall l i, no_exit (conv l i)) -> no_exit (triple conv l i).
Proof. intros H. unfold triple. no_exit; apply H. Qed.

Lemma no_exit_scaled float_ f l i : no_exit (scaled float_ f l i).
Proof. unfold scaled, word. no_exit. Qed.

Lemma no_exit_read_line float_ int_ stripped p :
  no_exit (read_line float_ int_ stripped p).
Proof.
  unfold read_line. destruct p as [config energy]. cbv zeta.
  unfold atomic_stress, atomic_energy, atomic_length, atomic_force, word.
  no_exit; try (apply no_exit_triple; intros; apply no_exit_scaled);
    try apply no_exit_scaled.
  all: by case_match.
Qed.

Lemma read_lines_unterminated float_ int_ file :
  Forall (fun line => strip line <> "") file ->
  forall skip p,
    read_lines float_ int_ file skip p = Return None
    \/ exists e, read_lines float_ int_ file skip p = Raise e.
Proof.
  induction 1 as [|line file Hline _ IH]; intros skip p; [by left|].
  cbn [read_lines]. destruct skip as [|skip]; [|apply IH].
  destruct (String.eqb (strip line) "BEGIN header"); [apply IH|].
  destruct (String.eqb_spec (strip line) ""); [done|].
  pose proof (no_exit_read_line float_ int_ (strip line) p) as Hn.
  destruct (read_line float_ int_ (strip line) p) as [p'|e|t]; [| |done].
  - apply IH.
  - right. by exists e.
Qed.

(** A file none of whose lines is empty or blank holds no configuration:
    what was read of one is dropped at the end of the file, and nothing is
    reported. *)
Theorem unterminated_block_is_dropped float_ int_ file potentials :
  Forall (fun line => strip line <> "") file ->
  read_configuration float_ int_ file potentials = Return None
  \/ exists e, read_configuration float_ int_ file potentials = Raise e.
Proof.
  intros H. unfold read_configuration.
  destruct (read_lines_unterminated float_ int_ file H 0%nat
              (empty_configuration, None)) as [->|[e ->]]; [by left|].
  right. by exists e.
Qed.

Lemma unterminated_block_is_dropped_witness :
  read_configuration demo_float demo_int ["1 0 0 E"; "Ar 1 0 0 0 R"] ∅
  = Return None.
Proof.
  destruct (unterminated_block_is_dropped demo_float demo_int
              ["1 0 0 E"; "Ar 1 0 0 0 R"] ∅) as [H|[e H]].
  - repeat constructor; by vm_compute.
  - exact H.
  - vm_compute in H. discriminate.
Defined.

(** *** Reading a file *)

Lemma read_lines_consumes float_ int_ file :
  forall skip p p' rest,
    read_lines float_ int_ file skip p = Return (Some (p', rest)) ->
    exists used, used <> [] /\ file = used ++ rest.
Proof.
  induction file as [|line file IH]; intros skip p p' rest H; [done|].
  cbn [read_lines] in H.
  assert (Hrec : forall skip p,
            read_lines float_ int_ file skip p = Return (Some (p', rest)) ->
            exists used, used <> [] /\ line :: file = used ++ rest).
  { intros skip0 p0 H0. destruct (IH _ _ _ _ H0) as (used & _ & ->).
    by exists (line :: used). }
  destruct skip as [|skip]; [|by eapply Hrec].
  destruct (String.eqb (strip line) "BEGIN header"); [by eapply Hrec|].
  destruct (String.eqb (strip line) "").
  - injection H as <- <-. by exists [line].
  - destruct (read_line float_ int_ (strip line) p) as [p0|e|t]; [|done..].
    by eapply Hrec.
Qed.

Lemma read_configuration_shorter float_ int_ file potentials config rest :
  read_configuration float_ int_ file potentials
  = Return (Some (config, rest)) ->
  exists used, used <> [] /\ file = used ++ rest.
Proof.
  unfold read_configuration. intros H.
  destruct (read_lines float_ int_ file 0 (empty_configuration, None))
    as [[[p rest']|]|e|t] eqn:E; [|done..].
  cbn [rbind] in H.
  destruct (finish potentials p) as [c|e|t]; [|done..].
  injection H as <- <-. by eapply read_lines_consumes.
Qed.

(** A call that returns a configuration has taken at least one line, and
    leaves the lines that follow what it took. *)
Theorem read_configuration_consumes float_ int_ file potentials config rest :
  read_configuration float_ int_ file potentials
  = Return (Some (config, rest)) ->
  exists used, used <> [] /\ file = used ++ rest.
Proof. apply read_configuration_shorter. Qed.

Lemma read_configuration_consumes_witness :
  exists used,
    used <> [] /\ ["Ar 1 0 0 0 R"; ""; "1 0 0 E"] = used ++ ["1 0 0 E"].
Proof.
  destruct (read_configuration demo_float demo_int
              ["Ar 1 0 0 0 R"; ""; "1 0 0 E"] ∅)
    as [[[config rest]|]|e|t] eqn:E; try (vm_compute in E; discriminate).
  assert (rest = ["1 0 0 E"]) as ->.
  { vm_compute in E. by injection E as _ <-. }
  exact (read_configuration_consumes demo_float demo_int _ ∅ config _ E).
Defined.

Lemma read_md_loop_enough float_ int_ fuel :
  forall file potentials configurations,
    (length file < fuel)%nat ->
    is_Some (read_md_loop float_ int_ fuel file potentials configurations).
Proof.
  induction fuel as [|fuel IH]; intros file potentials configurations Hf;
    [lia|].
  cbn [read_md_loop].
  destruct (read_configuration float_ int_ file potentials)
    as [[[config rest]|]|e|t] eqn:E; try done.
  apply IH. apply read_configuration_shorter in E as (used & Hu & ->).
  rewrite length_app in Hf. destruct used; [done|]. simpl in Hf. lia.
Qed.

(** The loop of [read_md_file] ends: it takes no more turns than the file
    has lines, plus the one that finds the end. *)
Theorem read_md_file_ends float_ int_ fs filename potentials :
  is_Some (read_md_file float_ int_ fs filename potentials).
Proof.
  unfold read_md_file. destruct (fs filename) as [file|]; [|done].
  apply read_md_loop_enough. lia.
Qed.

(** *** Writing a configuration *)

Lemma number_of_atoms_length body0 n :
  foldl (fun n (kv : string * list Atom) => n + Z.of_nat (length kv.2)) n body0
  = n + Z.of_nat (length (concat body0.*2)).
Proof.
  revert n. induction body0 as [|kv body0 IH]; intros n; [simpl; lia|].
  rewrite fmap_cons. cbn [foldl concat]. rewrite IH, length_app. lia.
Qed.

Lemma atoms_to_strings_length l r :
  atoms_to_strings l = Return r -> length r = length l.
Proof.
  revert r. induction l as [|a l IH]; intros r; simpl; [by intros [= <-]|].
  destruct (Atom_to_string a) as [s|e|t]; [|done..]. cbn [rbind].
  destruct (atoms_to_strings l) as [r'|e|t]; [|done..]. cbn [rbind].
  intros [= <-]. simpl. by rewrite (IH r').
Qed.

Lemma atoms_to_strings_cases l :
  if forallb (fun a => bool_decide (is_Some (forces a))) l
  then exists r, atoms_to_strings l = Return r
  else atoms_to_strings l = Raise AttributeError.
Proof.
  induction l as [|a l IH]; [by eexists|].
  cbn [atoms_to_strings forallb]. unfold Atom_to_string.
  destruct (forces a) as [f|].
  2: { by rewrite bool_decide_eq_false_2 by (by intros [? ?]). }
  cbn [rbind]. rewrite bool_decide_eq_true_2 by done. cbn [andb].
  destruct (forallb _ l).
  - destruct IH as [r ->]. by eexists.
  - by rewrite IH.
Qed.

Lemma append_empty_r (s : string) : s +:+ "" = s.
Proof.
  induction s as [|a s IH]; [done|]. rewrite append_cons. by f_equal.
Qed.

Lemma join_snoc_empty sep l :
  l <> [] -> join sep (l ++ [""]) = join sep l +:+ sep.
Proof.
  induction l as [|s l IH]; [done|]. intros _.
  destruct l as [|s' l].
  - cbn [app join]. by rewrite append_empty_r.
  - change (join sep ((s :: s' :: l) ++ [""]))
      with (s +:+ sep +:+ join sep ((s' :: l) ++ [""])).
    rewrite IH by done.
    change (join sep (s :: s' :: l)) with (s +:+ sep +:+ join sep (s' :: l)).
    by rewrite !append_assoc.
Qed.

Lemma to_string_shape (c : Configuration) :
  match to_string c with
  | Return s =>
      (3 <= length (boxes c))%nat
      /\ Forall (fun a => is_Some (forces a)) (concat (body c).*2)
      /\ ends_with_nl s = true
      /\ exists header atoms,
           s = join nl (header ++ atoms ++ [""])
           /\ header !! 0%nat
              = Some ("#N " +:+ decimal (Z.of_nat (length atoms)) +:+ " 1")
           /\ length atoms = length (concat (body c).*2)
           /\ last header = Some "#F"
  | Raise e =>
      if decide (length (boxes c) < 3)%nat then e = IndexError
      else e = AttributeError
           /\ Exists (fun a => forces a = None) (concat (body c).*2)
  | Exit _ => False
  end.
Proof.
  unfold to_string.
  destruct (boxes c) as [|bx [|by_ [|bz bs]]] eqn:Eb; try done.
  cbn [lookup list_lookup or_raise rbind]. cbv zeta.
  pose proof (atoms_to_strings_cases (concat (body c).*2)) as Hc.
  pose proof (atoms_to_strings_length (concat (body c).*2)) as Hl.
  destruct (forallb _ _) eqn:Ef.
  - destruct Hc as [r Hr]. rewrite Hr. cbn [rbind].
    split; [simpl; lia|]. split.
    { apply Forall_forall. intros a Ha.
      rewrite forallb_forall in Ef. apply (bool_decide_eq_true_1 _), Ef.
      by apply list_elem_of_In. }
    split.
    { rewrite app_assoc, join_snoc_empty by (by destruct (stress c)).
      apply (ends_with_nl_app _ "010" ""). }
    eexists _, r. split; [done|].
    split; [|split; [by apply Hl|]].
    + cbn [app lookup list_lookup]. unfold number_of_atoms.
      rewrite number_of_atoms_length, (Hl r Hr). by rewrite Z.add_0_l.
    + rewrite !app_assoc. apply last_snoc.
  - rewrite Hc. cbn [rbind]. case_decide as Hd; [simpl in Hd; lia|].
    split; [done|]. apply Exists_exists.
    assert (Hn : ~ Forall (fun a => is_Some (forces a)) (concat (body c).*2)).
    { intros HF. apply not_true_iff_false in Ef. apply Ef, forallb_forall.
      intros a Ha.
      apply bool_decide_eq_true_2. rewrite Forall_forall in HF.
      by apply HF, list_elem_of_In. }
    apply not_Forall_Exists in Hn; [|intros a; apply _].
    apply Exists_exists in Hn as (a & Ha & Hf). exists a. split; [done|].
    unfold compose in Hf. destruct (forces a) as [f|]; [|done].
    destruct Hf. by eexists.
Qed.

(** A configuration is written when it has its three box vectors and
    every atom has its force; with fewer box vectors [to_string] raises
    [IndexError], and with an atom without force, [AttributeError]. What is
    written has one line for each atom, as many as the [#N] line says, and
    ends in a newline. *)
Theorem to_string_cases (c : Configuration) :
  match to_string c with
  | Return s =>
      (3 <= length (boxes c))%nat
      /\ Forall (fun a => is_Some (forces a)) (concat (body c).*2)
      /\ ends_with_nl s = true
      /\ exists header atoms,
           s = join nl (header ++ atoms ++ [""])
           /\ header !! 0%nat
              = Some ("#N " +:+ decimal (Z.of_nat (length atoms)) +:+ " 1")
           /\ length atoms = length (concat (body c).*2)
           /\ last header = Some "#F"
  | Raise e =>
      if decide (length (boxes c) < 3)%nat then e = IndexError
      else e = AttributeError
           /\ Exists (fun a => forces a = None) (concat (body c).*2)
  | Exit _ => False
  end.
Proof. exact (to_string_shape c). Qed.

Lemma ends_with_nl_append s t :
  ends_with_nl (s +:+ t)
  = match t with
    | "" => ends_with_nl s
    | _ => ends_with_nl t
    end.
Proof.
  destruct t as [|a t]; [by rewrite append_empty_r|].
  apply ends_with_nl_app.
Qed.

Lemma write_loop_spec configurations :
  exists n,
    texts_of (take n configurations) (write_loop configurations).1
    /\ match (write_loop configurations).2 with
       | Return _ => (length configurations <= n)%nat
       | Raise e =>
           exists c, configurations !! n = Some c /\ to_string c = Raise e
       | Exit _ => False
       end
    /\ (0 < n -> ends_with_nl (write_loop configurations).1 = true)%nat.
Proof.
  induction configurations as [|c cs IH].
  - exists 0%nat. split; [by exists []|]. split; [simpl; lia|lia].
  - cbn [write_loop]. pose proof (to_string_shape c) as Hc.
    destruct (to_string c) as [s|e|t] eqn:Ec.
    + destruct IH as (n & (texts & Ht & Htext) & Hr & Hnl).
      exists (S n). cbv zeta. cbn [fst snd take]. split.
      { exists (s :: texts). split; [by constructor|].
        cbn [foldr]. by rewrite Htext. }
      split.
      { destruct (write_loop cs).2 as [u|e|t]; [simpl; lia|done..]. }
      intros _. rewrite ends_with_nl_append.
      destruct Hc as (_ & _ & Hs & _).
      destruct (write_loop cs).1 as [|a t] eqn:Et; [done|].
      destruct n as [|n]; [|apply Hnl; lia].
      destruct texts; [|by inversion Ht]. by rewrite Htext in Et.
    + exists 0%nat. cbn [fst snd take]. split; [by exists []|].
      split; [by exists c|lia].
    + done.
Qed.

(** [write_configurations] writes to the standard output when [output]
    is ["-"] or [None], and else to the file it opens, or raises [OSError]
    when it cannot open it, with nothing written. Where it writes, it
    writes the texts of the configurations in order up to the first that
    cannot be written, and then raises what [to_string] raised,
    [IndexError] or [AttributeError]; it writes them all when each can be
    written. What it wrote of one configuration or more ends in a newline.
    It never ends the run with a diagnostic. *)
Theorem written_cases writable configurations output :
  let r := write_configurations writable configurations output in
  match r.1 with
  | None =>
      r.2 = Raise OSError
      /\ exists name, output = Some name /\ name <> "-"
                      /\ writable name = false
  | Some (to, text) =>
      match to with
      | Stdout => output = None \/ output = Some "-"
      | Path name => output = Some name /\ name <> "-" /\ writable name = true
      end
      /\ exists n,
           texts_of (take n configurations) text
           /\ match r.2 with
              | Return _ => (length configurations <= n)%nat
              | Raise e =>
                  (e = IndexError \/ e = AttributeError)
                  /\ exists c, configurations !! n = Some c
                               /\ to_string c = Raise e
              | Exit _ => False
              end
           /\ (0 < n -> ends_with_nl text = true)%nat
  end.
Proof.
  assert (Hloop : exists n,
    texts_of (take n configurations) (write_loop configurations).1
    /\ match (write_loop configurations).2 with
       | Return _ => (length configurations <= n)%nat
       | Raise e =>
           (e = IndexError \/ e = AttributeError)
           /\ exists c, configurations !! n = Some c /\ to_string c = Raise e
       | Exit _ => False
       end
    /\ (0 < n -> ends_with_nl (write_loop configurations).1 = true)%nat).
  { destruct (write_loop_spec configurations) as (n & H1 & H2 & H3).
    exists n. split; [done|]. split; [|done].
    destruct (write_loop configurations).2 as [u|e|t]; [done| |done].
    split; [|done]. destruct H2 as (c & _ & Hc).
    pose proof (to_string_shape c) as Hs. rewrite Hc in Hs.
    case_decide; [by left|right; by destruct Hs]. }
  cbv zeta. unfold write_configurations.
  destruct output as [name|]; [|cbn [fst snd]; auto].
  destruct (String.eqb_spec name "-") as [->|Hne]; [cbn [fst snd]; auto|].
  destruct (writable name) eqn:Ew; cbn [fst snd]; [auto|].
  split; [done|]. by exists name.
Qed.

Lemma written_cases_witness :
  (write_configurations (fun _ => false) [] (Some "out/force")).2
  = Raise OSError.
Proof.
  exact (proj1 (written_cases (fun _ => false) [] (Some "out/force"))).
Defined.

(** *** The cohesive energy *)

(** An energy line in a configuration without atoms: the division by the
    number of atoms raises. *)
Theorem energy_without_atoms float_ int_ file potentials config e rest :
  read_lines float_ int_ file 0 (empty_configuration, None)
  = Return (Some ((config, Some e), rest)) ->
  body config = [] ->
  read_configuration float_ int_ file potentials = Raise ZeroDivisionError.
Proof.
  intros Hr Hb. unfold read_configuration. rewrite Hr.
  cbn [rbind finish]. by rewrite Hb.
Qed.

Lemma energy_without_atoms_witness :
  read_configuration demo_float demo_int ["1 0 0 E"; ""] ∅
  = Raise ZeroDivisionError.
Proof.
  destruct (read_lines demo_float demo_int ["1 0 0 E"; ""] 0
              (empty_configuration, None)) as [[[[config oe] rest]|]| |] eqn:E;
    try (vm_compute in E; discriminate).
  assert (Hoe : exists e, oe = Some e).
  { vm_compute in E. injection E as _ <- _. by eexists. }
  destruct Hoe as [e ->].
  apply (energy_without_atoms demo_float demo_int _ ∅ config e rest E).
  vm_compute in E. by injection E as <- _ _.
Defined.

(** *** The numbering of the elements *)

Lemma rbind_Return {A B : Type} (r : result A) (k : A -> result B) b :
  rbind r k = Return b -> exists a, r = Return a /\ k a = Return b.
Proof. destruct r; [|done..]. intros H. by eexists. Qed.

Lemma getitem_None {A : Type} key (d : list (string * A)) :
  getitem key d = None <-> key ∉ d.*1.
Proof.
  unfold getitem. induction d as [|[k v] d IH]; simpl.
  - split; [|done]. intros _. apply not_elem_of_nil.
  - rewrite not_elem_of_cons. destruct (String.eqb_spec k key) as [->|Hk].
    + simpl. split; [done|]. by intros [? _].
    + rewrite IH. split; [by split|by intros [_ ?]].
Qed.

Lemma at_key_found {A : Type} key (f : A -> A) (d : list (string * A)) i v :
  NoDup d.*1 -> d !! i = Some (key, v) ->
  getitem key d = Some v /\ at_key key f d = <[i := (key, f v)]> d.
Proof.
  unfold getitem. revert i.
  induction d as [|[k w] d IH]; intros i Hnd Hi; [done|].
  rewrite fmap_cons in Hnd. apply NoDup_cons in Hnd as [Hk Hnd].
  cbn [find at_key fst]. destruct i as [|i].
  - injection Hi as -> ->. by rewrite String.eqb_refl.
  - cbn [lookup list_lookup] in Hi.
    destruct (String.eqb_spec k key) as [->|Hne].
    + destruct Hk. apply list_elem_of_fmap. exists (key, v).
      split; [done|]. by eapply list_elem_of_lookup_2.
    + destruct (IH i Hnd Hi) as [H1 H2]. split; [done|].
      cbn [insert list_insert]. by rewrite H2.
Qed.

Lemma getitem_Some {A : Type} key (d : list (string * A)) v :
  getitem key d = Some v -> exists i, d !! i = Some (key, v).
Proof.
  unfold getitem. induction d as [|[k w] d IH]; [done|].
  cbn [find fst]. destruct (String.eqb_spec k key) as [->|Hne].
  - intros [= <-]. by exists 0%nat.
  - intros H. destruct (IH H) as [i Hi]. by exists (S i).
Qed.

Lemma imap_insert_key {A : Type} (d : list (string * A)) i key v v' :
  d !! i = Some (key, v) ->
  imap (fun i kv => (kv.1, Z.of_nat i)) (<[i := (key, v')]> d)
  = imap (fun i (kv : string * A) => (kv.1, Z.of_nat i)) d
  /\ (<[i := (key, v')]> d).*1 = d.*1.
Proof.
  intros Hi. split.
  - apply list_eq. intros j. rewrite !list_lookup_imap.
    destruct (decide (j = i)) as [->|Hj].
    + rewrite list_lookup_insert_eq by (by eapply lookup_lt_Some).
      by rewrite Hi.
    + by rewrite list_lookup_insert_ne.
  - apply list_eq. intros j. rewrite !list_lookup_fmap.
    destruct (decide (j = i)) as [->|Hj].
    + rewrite list_lookup_insert_eq by (by eapply lookup_lt_Some).
      by rewrite Hi.
    + by rewrite list_lookup_insert_ne.
Qed.

Lemma numbered_insert tys bx en st bd i key atoms atoms' :
  numbered (mk_Configuration tys bx en st bd) ->
  bd !! i = Some (key, atoms) ->
  atoms' <> [] -> Forall (fun a => type_ a = Z.of_nat i) atoms' ->
  forall bx' en' st',
    numbered (mk_Configuration tys bx' en' st'
                (<[i := (key, atoms')]> bd)).
Proof.
  intros (Ht & Hnd & Ha) Hi Hne Hty bx' en' st'.
  unfold numbered. cbn [types_of_element body] in *.
  destruct (imap_insert_key bd i key atoms atoms' Hi) as [E1 E2].
  split; [by rewrite E1|]. split; [by rewrite E2|].
  intros j el l Hj. destruct (decide (j = i)) as [->|Hji].
  - rewrite list_lookup_insert_eq in Hj by (by eapply lookup_lt_Some).
    by injection Hj as <- <-.
  - rewrite list_lookup_insert_ne in Hj by done. by eapply Ha.
Qed.

Lemma numbered_frame tys bx en st bd bx' en' st' :
  numbered (mk_Configuration tys bx en st bd) ->
  numbered (mk_Configuration tys bx' en' st' bd).
Proof. done. Qed.

Lemma getitem_numbered tys bx en st bd el t :
  numbered (mk_Configuration tys bx en st bd) ->
  getitem el tys = Some t ->
  exists (i : nat) atoms, t = Z.of_nat i /\ bd !! i = Some (el, atoms).
Proof.
  intros (Ht & _ & _) Hg. cbn [types_of_element body] in *. subst tys.
  apply getitem_Some in Hg as [i Hi]. rewrite list_lookup_imap in Hi.
  destruct (bd !! i) as [[k atoms]|] eqn:E; [|done].
  injection Hi as -> <-. by exists i, atoms.
Qed.

Lemma numbered_new tys bx en st bd el a :
  numbered (mk_Configuration tys bx en st bd) ->
  getitem el tys = None ->
  type_ a = Z.of_nat (length tys) ->
  getitem el (tys ++ [(el, Z.of_nat (length tys))])
  = Some (Z.of_nat (length tys))
  /\ getitem el (bd ++ [(el, [])]) = Some []
  /\ numbered (mk_Configuration (tys ++ [(el, Z.of_nat (length tys))])
                 bx en st
                 (at_key el (fun l => l ++ [a]) (bd ++ [(el, [])]))).
Proof.
  intros (Ht & Hnd & Ha) Hg Hty.
  unfold numbered. cbn [types_of_element body] in *.
  assert (Hlen : length tys = length bd) by (by rewrite Ht, length_imap).
  assert (Hkeys : tys.*1 = bd.*1).
  { rewrite Ht. apply list_eq. intros j.
    rewrite !list_lookup_fmap, list_lookup_imap. by destruct (bd !! j). }
  apply getitem_None in Hg.
  assert (Hnd' : NoDup (bd ++ [(el, @nil Atom)]).*1).
  { rewrite fmap_app. apply NoDup_app. split; [done|]. split.
    - intros x Hx ->%list_elem_of_singleton. apply Hg. by rewrite Hkeys.
    - apply NoDup_singleton. }
  assert (Hnt : NoDup (tys ++ [(el, Z.of_nat (length tys))]).*1).
  { rewrite fmap_app, Hkeys. by rewrite fmap_app in Hnd'. }
  assert (Hi : (bd ++ [(el, @nil Atom)]) !! length bd = Some (el, [])).
  { by rewrite lookup_app_r, Nat.sub_diag by lia. }
  assert (Hit : (tys ++ [(el, Z.of_nat (length tys))]) !! length tys
                = Some (el, Z.of_nat (length tys))).
  { by rewrite lookup_app_r, Nat.sub_diag by lia. }
  destruct (at_key_found el (fun l => l ++ [a]) _ _ _ Hnd' Hi) as [G1 G2].
  destruct (at_key_found el (fun t => t) _ _ _ Hnt Hit) as [G3 _].
  split; [done|]. split; [done|]. rewrite G2.
  rewrite insert_app_r_alt, Nat.sub_diag by lia. cbn [insert list_insert app].
  split; [|split].
  - rewrite imap_app. cbn [imap]. rewrite Nat.add_0_r, <- Ht. by rewrite Hlen.
  - rewrite fmap_app. by rewrite fmap_app in Hnd'.
  - intros j k l Hj. destruct (decide (j < length bd)%nat) as [Hlt|Hge].
    + rewrite lookup_app_l in Hj by done. by eapply Ha.
    + rewrite lookup_app_r in Hj by lia.
      destruct (j - length bd)%nat as [|?] eqn:Ej; [|done].
      injection Hj as <- <-. split; [done|]. constructor; [|done].
      rewrite Hty. f_equal. lia.
Qed.

Lemma read_line_numbered float_ int_ stripped p p' :
  read_line float_ int_ stripped p = Return p' ->
  numbered p.1 -> numbered p'.1.
Proof.
  destruct p as [[tys bx en st bd] energy]. unfold read_line.
  set (split_line := split stripped). set (tag := default "" _).
  intros H Hn. cbn [fst] in Hn. cbn [body types_of_element boxes stress
    Castep.energy] in H.
  apply rbind_Return in H as (c1 & H1 & H).
  assert (N1 : numbered c1).
  { destruct (String.eqb tag "S"); [|by injection H1 as <-].
    apply rbind_Return in H1 as (v & _ & [= <-]). by eapply numbered_frame. }
  clear H1 Hn. destruct c1 as [tys1 bx1 en1 st1 bd1].
  apply rbind_Return in H as (e2 & _ & H).
  cbn [body types_of_element boxes stress Castep.energy] in H.
  apply rbind_Return in H as (c3 & H3 & H).
  assert (N3 : numbered c3).
  { destruct (String.eqb tag "h"); [|by injection H3 as <-].
    apply rbind_Return in H3 as (v & _ & [= <-]). by eapply numbered_frame. }
  clear H3 N1. destruct c3 as [tys3 bx3 en3 st3 bd3].
  cbn [body types_of_element boxes stress Castep.energy] in H.
  apply rbind_Return in H as (c4 & H4 & H).
  assert (N4 : numbered c4).
  { destruct (String.eqb tag "R"); [|by injection H4 as <-].
    apply rbind_Return in H4 as (el & _ & H4).
    apply rbind_Return in H4 as (? & _ & H4).
    apply rbind_Return in H4 as (? & _ & H4).
    apply rbind_Return in H4 as (v & _ & H4).
    destruct (getitem el tys3) as [t|] eqn:Eg.
    - cbn [body types_of_element boxes stress Castep.energy] in H4.
      rewrite Eg in H4. cbn [or_raise rbind] in H4.
      destruct (getitem_numbered _ _ _ _ _ _ _ N3 Eg)
        as (i & atoms & -> & Hi).
      pose proof N3 as (Ht & Hnd & Ha).
      cbn [types_of_element body] in Ht, Hnd, Ha.
      destruct (at_key_found el (fun l => l ++ [mk_Atom (Z.of_nat i) v None])
                  _ _ _ Hnd Hi) as [G1 G2].
      rewrite G1 in H4. cbn [or_raise rbind] in H4. injection H4 as <-.
      rewrite G2. eapply numbered_insert; [exact N3|done| |].
      + by destruct atoms.
      + apply Forall_app. split; [by eapply Ha|]. by constructor.
    - cbn [body types_of_element boxes stress Castep.energy] in H4.
      destruct (numbered_new _ bx3 en3 st3 _ el
                  (mk_Atom (Z.of_nat (length tys3)) v None) N3 Eg eq_refl)
        as (G1 & G2 & G3).
      rewrite G1 in H4. cbn [or_raise rbind] in H4.
      rewrite G2 in H4. cbn [or_raise rbind] in H4. by injection H4 as <-. }
  clear H4 N3. destruct c4 as [tys4 bx4 en4 st4 bd4].
  cbn [body types_of_element boxes stress Castep.energy] in H.
  apply rbind_Return in H as (c5 & H5 & [= <-]). cbn [fst].
  destruct (String.eqb tag "F"); [|by injection H5 as <-].
  apply rbind_Return in H5 as (el & _ & H5).
  apply rbind_Return in H5 as (? & _ & H5).
  apply rbind_Return in H5 as (num & _ & H5).
  apply rbind_Return in H5 as (f & _ & H5).
  apply rbind_Return in H5 as (atoms & Hat & H5).
  apply rbind_Return in H5 as (i & _ & [= <-]).
  destruct (getitem el bd4) as [atoms'|] eqn:Eg; [|done].
  injection Hat as ->.
  apply getitem_Some in Eg as [j Hj].
  pose proof N4 as (Ht & Hnd & Ha).
  cbn [types_of_element body] in Ht, Hnd, Ha.
  destruct (at_key_found el (alter (set_forces f) i) _ _ _ Hnd Hj) as [_ G2].
  rewrite G2. destruct (Ha _ _ _ Hj) as [Hne Hty].
  eapply numbered_insert; [exact N4|done| |].
  - intros E. apply (f_equal length) in E. rewrite length_alter in E.
    by destruct atoms.
  - apply Forall_forall. intros a Hin.
    apply list_elem_of_lookup_1 in Hin as [q Hq].
    rewrite Forall_forall in Hty.
    destruct (decide (q = i)) as [->|Hqi].
    + rewrite list_lookup_alter_eq in Hq.
      destruct (atoms !! i) as [a0|] eqn:E0; [|done]. injection Hq as <-.
      cbn [set_forces type_]. eapply Hty. by eapply list_elem_of_lookup_2.
    + rewrite list_lookup_alter_ne in Hq by done.
      eapply Hty. by eapply list_elem_of_lookup_2.
Qed.

Lemma read_lines_numbered float_ int_ file :
  forall skip p p' rest,
    read_lines float_ int_ file skip p = Return (Some (p', rest)) ->
    numbered p.1 -> numbered p'.1.
Proof.
  induction file as [|line file IH]; intros skip p p' rest H Hn; [done|].
  cbn [read_lines] in H. destruct skip as [|skip]; [|by eapply IH].
  destruct (String.eqb (strip line) "BEGIN header"); [by eapply IH|].
  destruct (String.eqb (strip line) "").
  - by injection H as <- <-.
  - destruct (read_line float_ int_ (strip line) p) as [p0|e|t] eqn:E;
      [|done..].
    eapply IH; [done|]. by eapply read_line_numbered.
Qed.

(** In a configuration that was read, the elements are numbered from 0
    in the order of their first atom, the body lists them in the same
    order, each once and with at least one atom, and every atom carries
    the number of its element: the first field of an atom line is the
    position of the atom's element in the [#C] line. *)
Theorem elements_are_numbered float_ int_ file potentials config rest :
  read_configuration float_ int_ file potentials
  = Return (Some (config, rest)) ->
  numbered config.
Proof.
  unfold read_configuration. intros H.
  apply rbind_Return in H as ([[[c oe] rest']|] & Hr & H); [|done].
  apply rbind_Return in H as (c' & Hf & [= <- <-]).
  apply read_lines_numbered in Hr.
  2: { split; [done|]. split; [apply NoDup_nil_2|done]. }
  cbn [fst] in Hr. unfold finish in Hf.
  apply rbind_Return in Hf as (e & _ & [= <-]).
  destruct c. by eapply numbered_frame.
Qed.

Lemma elements_are_numbered_witness :
  exists config,
    read_configuration demo_float demo_int
      ["Ar 1 0 0 0 R"; "Si 1 1 1 1 R"; "Ar 2 2 2 2 R"; ""] ∅
    = Return (Some (config, []))
    /\ numbered config.
Proof.
  destruct (read_configuration demo_float demo_int
              ["Ar 1 0 0 0 R"; "Si 1 1 1 1 R"; "Ar 2 2 2 2 R"; ""] ∅)
    as [[[config rest]|]|e|t] eqn:E; try (vm_compute in E; discriminate).
  assert (rest = []) as ->.
  { vm_compute in E. by injection E as _ <-. }
  exists config. split; [done|].
  exact (elements_are_numbered demo_float demo_int _ ∅ config [] E).
Defined.

(** *** The chemical potentials of the command line *)

Lemma split_on_plain sep s : contains sep s = false -> split_on sep s = [s].
Proof.
  induction s as [|a s IH]; [done|]. cbn [contains split_on].
  intros H. apply orb_false_iff in H as [-> H]. by rewrite IH.
Qed.

Lemma split_on_sep sep s1 s2 :
  contains sep s1 = false ->
  split_on sep (s1 +:+ String sep "" +:+ s2) = s1 :: split_on sep s2.
Proof.
  change (String sep "" +:+ s2) with (String sep s2).
  induction s1 as [|a s1 IH]; intros H.
  - change ("" +:+ String sep s2) with (String sep s2).
    cbn [split_on]. by rewrite Ascii.eqb_refl.
  - cbn [contains] in H. apply orb_false_iff in H as [Ha H].
    rewrite append_cons. cbn [split_on]. by rewrite Ha, IH.
Qed.

Lemma join_cons_cons sep s s' l :
  join sep (s :: s' :: l) = s +:+ sep +:+ join sep (s' :: l).
Proof. done. Qed.

Lemma contains_app a s1 s2 :
  contains a (s1 +:+ s2) = contains a s1 || contains a s2.
Proof.
  induction s1 as [|b s1 IH]; [done|].
  rewrite append_cons. cbn [contains]. by rewrite IH, orb_assoc.
Qed.

Lemma parse_pair_plain float_ d k v x :
  contains "=" k = false -> contains "=" v = false -> float_ v = Some x ->
  parse_pair float_ d (k +:+ "=" +:+ v) = Return (<[strip k := x]> d).
Proof.
  intros Hk Hv Hx. unfold parse_pair.
  rewrite (split_on_sep "="), split_on_plain by done.
  cbn [lookup list_lookup or_raise rbind default]. by rewrite Hx.
Qed.

Lemma parse_pairs_plain float_ l :
  Forall (fun kv => plain kv.1 /\ plain kv.2 /\ is_Some (float_ kv.2)) l ->
  l <> [] ->
  forall d,
    parse_pairs float_ d
      (split_on "," (join "," ((fun kv => kv.1 +:+ "=" +:+ kv.2) <$> l)))
    = Return (foldl (fun d kv => match float_ kv.2 with
                                 | Some x => <[strip kv.1 := x]> d
                                 | None => d
                                 end) d l).
Proof.
  induction 1 as [|[k v] l ([Hk1 Hk2] & [Hv1 Hv2] & [x Hx]) Hl IH];
    [done|]. intros _ d. cbn [fst snd] in *.
  assert (Hc : contains "," (k +:+ "=" +:+ v) = false).
  { rewrite !contains_app, Hk1, Hv1. done. }
  destruct l as [|kv l].
  - cbn [fmap list_fmap join]. rewrite split_on_plain by done.
    cbn [parse_pairs]. rewrite (parse_pair_plain _ _ _ _ x) by done.
    cbn [rbind parse_pairs foldl snd fst]. by rewrite Hx.
  - rewrite (fmap_cons _ (k, v)), (fmap_cons _ kv), join_cons_cons.
    cbn [fst snd]. rewrite (split_on_sep ",") by done.
    rewrite <- (fmap_cons (fun kv => kv.1 +:+ "=" +:+ kv.2) kv).
    cbn [parse_pairs].
    rewrite (parse_pair_plain _ _ _ _ x) by done. cbn [rbind].
    rewrite IH by done. cbn [foldl fst snd]. by rewrite Hx.
Qed.

(** The potentials of [El1=v1,El2=v2,...]: each element, stripped of
    the space around it, has its value, the last one given if it is given
    more than once. *)
Theorem parse_potentials_pairs float_ (l : list (string * string)) :
  Forall (fun kv => plain kv.1 /\ plain kv.2 /\ is_Some (float_ kv.2)) l ->
  l <> [] ->
  parse_potentials float_
    (join "," ((fun kv => kv.1 +:+ "=" +:+ kv.2) <$> l))
  = Return (potentials_of float_ l).
Proof. intros Hl Hne. by apply parse_pairs_plain. Qed.

Lemma parse_potentials_pairs_witness :
  parse_potentials demo_float "Ar=1, Si=2,Ar=3"
  = Return (<["Ar" := 3%float]> (<["Si" := 2%float]> (<["Ar" := 1%float]> ∅))).
Proof.
  apply (parse_potentials_pairs demo_float
           [("Ar", "1"); (" Si", "2"); ("Ar", "3")]); [|done].
  repeat (apply Forall_cons; split;
          [split; [done|split; [done|vm_compute; by eexists]]|]).
  apply Forall_nil_2.
Defined.

Lemma split_on_head sep s :
  exists w ws, split_on sep s = w :: ws /\ (contains "=" s = false ->
                                            contains "=" w = false).
Proof.
  induction s as [|a s (w & ws & E & Hw)]; [by exists "", []|].
  cbn [split_on contains]. destruct (Ascii.eqb a sep).
  - by exists "", (split_on sep s).
  - rewrite E. exists (String a w), ws. split; [done|].
    intros H. apply orb_false_iff in H as [Ha H]. cbn [contains].
    by rewrite Ha, Hw.
Qed.

(** A potential string without [=], the empty one among them, has no
    value to convert: the index of the value is out of range. *)
Theorem parse_potentials_no_value float_ potential_str :
  contains "=" potential_str = false ->
  parse_potentials float_ potential_str = Raise IndexError.
Proof.
  intros H. unfold parse_potentials.
  destruct (split_on_head "," potential_str) as (w & ws & -> & Hw).
  cbn [parse_pairs]. unfold parse_pair.
  by rewrite (split_on_plain "=" w) by auto.
Qed.

Lemma parse_potentials_no_value_witness :
  parse_potentials demo_float "Ar,Si" = Raise IndexError.
Proof. by apply parse_potentials_no_value. Defined.

(** *** The files of the command line *)

Lemma collect_spec float_ int_ fs potentials final filenames :
  forall configurations cs,
    collect float_ int_ fs filenames potentials final configurations
    = Some (Return cs) ->
    exists per_file,
      Forall2 (fun name l =>
                 read_md_file float_ int_ fs name potentials
                 = Some (Return l)) filenames per_file
      /\ cs = configurations
              ++ (if final then omap last per_file else concat per_file)
      /\ (final = true -> Forall (fun l => l <> []) per_file).
Proof.
  induction filenames as [|name filenames IH]; intros acc cs H.
  - injection H as <-. exists []. split; [constructor|].
    split; [by destruct final; rewrite app_nil_r|]. by constructor.
  - cbn [collect] in H.
    destruct (read_md_file float_ int_ fs name potentials)
      as [[l|e|t]|] eqn:E; [|done..].
    destruct final.
    + destruct (List.last (Some <$> l) None) as [c|] eqn:El; [|done].
      assert (Hl : last l = Some c).
      { clear -El. induction l as [|a l IHl]; [done|].
        destruct l as [|b l]; [by injection El as <-|].
        rewrite last_cons_cons. apply IHl. exact El. }
      destruct (IH _ _ H) as (pf & HF & -> & Hne).
      exists (l :: pf). split; [by constructor|].
      split; [cbn [omap list_omap]; by rewrite Hl, <- app_assoc|].
      intros _. constructor; [by intros ->|by apply Hne].
    + destruct (IH _ _ H) as (pf & HF & -> & _).
      exists (l :: pf). split; [by constructor|].
      split; [by rewrite <- app_assoc|done].
Qed.

(** The configurations [main] gathers: those of each file in the order
    of the file names, or with [--final] the last one of each file, every
    file then holding at least one. *)
Theorem main_gathers float_ int_ fs potentials final filenames cs :
  collect float_ int_ fs filenames potentials final [] = Some (Return cs) ->
  exists per_file,
    Forall2 (fun name l =>
               read_md_file float_ int_ fs name potentials
               = Some (Return l)) filenames per_file
    /\ cs = (if final then omap last per_file else concat per_file)
    /\ (final = true -> length cs = length filenames).
Proof.
  intros H. destruct (collect_spec _ _ _ _ _ _ _ _ H) as (pf & HF & -> & Hne).
  exists pf. split; [done|]. split; [done|]. intros ->.
  specialize (Hne eq_refl). rewrite (Forall2_length _ _ _ HF).
  rewrite app_nil_l. clear HF H.
  induction Hne as [|l pf Hl _ IH]; [done|].
  cbn [omap list_omap]. destruct (last l) eqn:E.
  - cbn [length]. by rewrite IH.
  - by apply last_None in E.
Qed.

Lemma main_gathers_witness :
  exists cs,
    collect demo_float demo_int demo_fs ["a.md"; "a.md"] ∅ true []
    = Some (Return cs)
    /\ length cs = 2%nat.
Proof.
  destruct (collect demo_float demo_int demo_fs ["a.md"; "a.md"] ∅ true [])
    as [[cs|e|t]|] eqn:E; try (vm_compute in E; discriminate).
  exists cs. split; [done|].
  destruct (main_gathers _ _ _ _ _ _ _ E) as (pf & _ & _ & Hl).
  exact (Hl eq_refl).
Defined.

(** A header mark takes the four lines after it with it, whatever they
    are, an empty line or another mark among them. *)
Theorem header_is_skipped float_ int_ line l1 l2 l3 l4 file p :
  strip line = "BEGIN header" ->
  read_lines float_ int_ (line :: l1 :: l2 :: l3 :: l4 :: file) 0 p
  = read_lines float_ int_ file 0 p.
Proof.
  intros H. cbn [read_lines]. rewrite H. done.
Qed.

Lemma header_is_skipped_witness :
  read_lines demo_float demo_int
    [" BEGIN header "; ""; "BEGIN header"; "x"; ""; "1 0 0 E"; ""] 0
    (empty_configuration, None)
  = read_lines demo_float demo_int ["1 0 0 E"; ""] 0
      (empty_configuration, None).
Proof. by apply header_is_skipped. Defined.

End Castep.

(** ** wscript *)

Module Wscript.

Definition force_source_files : list string := ["force_common.c"].

Definition optimization_source_files : list string :=
  ["bracket.c"; "brent.c"; "linmin.c"; "optimize.c"; "powell_lsq.c";
   "simann.c"].

(** The inner loop: [del default_list[i]] at the first [i] with
    [default_list[i] == name]. *)
Fixpoint delete_first (name : string) (default_list : list string)
  : list string :=
  match default_list with
  | [] => []
  | x :: l => if String.eqb x name then l else x :: delete_first name l
  end.

(** [extend_source_files]; [None] stands for the [IndexError] that
    [item[0]] raises on an empty item. *)
Fixpoint extend_source_files (input_list default_list : list string)
  : option (list string) :=
  match input_list with
  | [] => Some default_list
  | item :: input_list' =>
      match item with
      | "" => None
      | String c name =>
          if Ascii.eqb c "-" then
            extend_source_files input_list' (delete_first name default_list)
          else if bool_decide (item ∈ default_list) then
            extend_source_files input_list' default_list
          else extend_source_files input_list' (default_list ++ [item])
      end
  end.

(** An item that asks for a file to be added. *)
Definition adds (item : string) : Prop :=
  match item with
  | "" => False
  | String c _ => c <> "-"%char
  end.

Lemma delete_first_subset name l x : x ∈ delete_first name l -> x ∈ l.
Proof.
  induction l as [|y l IH]; [done|]. cbn [delete_first].
  destruct (String.eqb y name).
  - by apply list_elem_of_further.
  - rewrite !elem_of_cons. intros [->|H]; [by left|right; by apply IH].
Qed.

Lemma delete_first_NoDup name l : NoDup l -> NoDup (delete_first name l).
Proof.
  induction 1 as [|y l Hy Hl IH]; [constructor|]. cbn [delete_first].
  destruct (String.eqb y name); [done|].
  constructor; [|done]. intros H. by apply Hy, (delete_first_subset name).
Qed.

Lemma delete_first_gone name l : NoDup l -> name ∉ delete_first name l.
Proof.
  induction 1 as [|y l Hy Hl IH]; [apply not_elem_of_nil|].
  cbn [delete_first]. destruct (String.eqb_spec y name) as [->|Hne]; [done|].
  rewrite not_elem_of_cons. by split.
Qed.

Lemma extend_NoDup input_list :
  forall default_list r,
    NoDup default_list ->
    extend_source_files input_list default_list = Some r -> NoDup r.
Proof.
  induction input_list as [|item input_list IH]; intros l r Hl H.
  - by injection H as <-.
  - cbn [extend_source_files] in H. destruct item as [|c name]; [done|].
    destruct (Ascii.eqb c "-").
    + eapply IH; [|done]. by apply delete_first_NoDup.
    + case_bool_decide as Hin; [by eapply IH|].
      eapply IH; [|done]. apply NoDup_app. split; [done|].
      split; [|apply NoDup_singleton].
      by intros x Hx ->%list_elem_of_singleton.
Qed.

Lemma extend_subset input_list :
  forall default_list r x,
    extend_source_files input_list default_list = Some r ->
    x ∈ r -> x ∈ default_list \/ (x ∈ input_list /\ adds x).
Proof.
  induction input_list as [|item input_list IH]; intros l r x H Hx.
  - injection H as <-. by left.
  - cbn [extend_source_files] in H. destruct item as [|c name]; [done|].
    destruct (Ascii.eqb_spec c "-") as [->|Hc].
    + destruct (IH _ _ _ H Hx) as [H1|[H1 H2]].
      * left. by eapply delete_first_subset.
      * right. split; [by apply list_elem_of_further|done].
    + case_bool_decide as Hin.
      * destruct (IH _ _ _ H Hx) as [H1|[H1 H2]]; [by left|].
        right. split; [by apply list_elem_of_further|done].
      * destruct (IH _ _ _ H Hx) as [H1|[H1 H2]].
        -- apply elem_of_app in H1 as [H1|H1]; [by left|].
           apply list_elem_of_singleton in H1 as ->.
           right. split; [apply list_elem_of_here|done].
        -- right. split; [by apply list_elem_of_further|done].
Qed.

(** The list of source files keeps having no file twice, and holds no
    file that is neither a default nor an item that asks to be added. *)
Theorem extend_source_files_sound input_list default_list r :
  NoDup default_list ->
  extend_source_files input_list default_list = Some r ->
  NoDup r
  /\ forall x, x ∈ r -> x ∈ default_list \/ (x ∈ input_list /\ adds x).
Proof.
  intros Hl H. split; [by eapply extend_NoDup|].
  intros x. by eapply extend_subset.
Qed.

Lemma extend_source_files_sound_witness :
  exists r,
    extend_source_files ["-simann.c"; "genetic.c"; "brent.c"]
      optimization_source_files = Some r
    /\ NoDup r.
Proof.
  destruct (extend_source_files ["-simann.c"; "genetic.c"; "brent.c"]
              optimization_source_files) as [r|] eqn:E;
    [|vm_compute in E; discriminate].
  exists r. split; [done|].
  refine (proj1 (extend_source_files_sound _ _ r _ E)).
  apply (bool_decide_unpack _). by vm_compute.
Defined.

Lemma extend_adds input_list :
  Forall adds input_list ->
  forall default_list,
    exists added,
      extend_source_files input_list default_list
      = Some (default_list ++ added)
      /\ (forall x, x ∈ input_list -> x ∈ default_list ++ added)
      /\ (forall x, x ∈ added -> x ∈ input_list /\ x ∉ default_list).
Proof.
  induction 1 as [|item input_list Hitem _ IH]; intros l.
  - exists []. rewrite app_nil_r. split; [done|].
    split; [by intros x ?%elem_of_nil|by intros x ?%elem_of_nil].
  - cbn [extend_source_files]. destruct item as [|c name]; [done|].
    cbn [adds] in Hitem. destruct (Ascii.eqb_spec c "-") as [->|_]; [done|].
    case_bool_decide as Hin.
    + destruct (IH l) as (added & -> & H1 & H2). exists added.
      split; [done|]. split.
      * intros x [->|Hx]%elem_of_cons; [|by apply H1].
        apply elem_of_app. by left.
      * intros x Hx. destruct (H2 x Hx).
        split; [by apply list_elem_of_further|done].
    + destruct (IH (l ++ [String c name])) as (added & -> & H1 & H2).
      exists (String c name :: added).
      split; [by rewrite <- app_assoc|]. split.
      * intros x [->|Hx]%elem_of_cons.
        -- apply elem_of_app. right. apply list_elem_of_here.
        -- specialize (H1 x Hx). by rewrite <- app_assoc in H1.
      * intros x [->|Hx]%elem_of_cons.
        -- split; [apply list_elem_of_here|done].
        -- destruct (H2 x Hx) as [H3 H4].
           split; [by apply list_elem_of_further|].
           intros H5. apply H4, elem_of_app. by left.
Qed.

Lemma extend_present input_list :
  forall default_list,
    Forall adds input_list ->
    (forall x, x ∈ input_list -> x ∈ default_list) ->
    extend_source_files input_list default_list = Some default_list.
Proof.
  induction input_list as [|item input_list IH]; intros l Ha Hin; [done|].
  apply Forall_cons in Ha as [Hitem Ha].
  cbn [extend_source_files]. destruct item as [|c name]; [done|].
  cbn [adds] in Hitem. destruct (Ascii.eqb_spec c "-") as [->|_]; [done|].
  rewrite bool_decide_eq_true_2 by (apply Hin, list_elem_of_here).
  apply IH; [done|]. intros x Hx. by apply Hin, list_elem_of_further.
Qed.

(** With items that only ask for files to be added, the defaults stay
    where they are, the files that were not among them follow, every item
    is in the list, and to extend the list by the same items once more
    changes nothing. *)
Theorem extend_source_files_adds input_list default_list :
  Forall adds input_list ->
  exists added,
    extend_source_files input_list default_list = Some (default_list ++ added)
    /\ (forall x, x ∈ input_list -> x ∈ default_list ++ added)
    /\ (forall x, x ∈ added -> x ∈ input_list /\ x ∉ default_list)
    /\ extend_source_files input_list (default_list ++ added)
       = Some (default_list ++ added).
Proof.
  intros Ha. destruct (extend_adds _ Ha default_list) as (added & E & H1 & H2).
  exists added. split; [done|]. split; [done|]. split; [done|].
  by apply extend_present.
Qed.

Lemma extend_source_files_adds_witness :
  extend_source_files ["genetic.c"; "brent.c"; "genetic.c"]
    optimization_source_files
  = Some (optimization_source_files ++ ["genetic.c"]).
Proof.
  destruct (extend_source_files_adds ["genetic.c"; "brent.c"; "genetic.c"]
              optimization_source_files) as (added & E & _).
  - repeat constructor; by intros [=].
  - rewrite E. vm_compute in E. injection E as <-. reflexivity.
Defined.

Lemma extend_app input1 input2 :
  forall default_list,
    extend_source_files (input1 ++ input2) default_list
    = extend_source_files input1 default_list
        ≫= extend_source_files input2.
Proof.
  induction input1 as [|item input1 IH]; intros l; [done|].
  cbn [app extend_source_files]. destruct item as [|c name]; [done|].
  destruct (Ascii.eqb c "-"); [apply IH|]. case_bool_decide; apply IH.
Qed.

(** A file whose removal is the last item is not in the list. *)
Theorem extend_source_files_removes input_list default_list name r :
  NoDup default_list ->
  extend_source_files (input_list ++ [String "-" name]) default_list
  = Some r ->
  name ∉ r.
Proof.
  intros Hl H. rewrite extend_app in H.
  destruct (extend_source_files input_list default_list) as [l|] eqn:E;
    [|done].
  cbn [mbind option_bind extend_source_files] in H.
  change (Ascii.eqb "-" "-") with true in H. cbv iota in H.
  injection H as <-. apply delete_first_gone. by eapply extend_NoDup.
Qed.

Lemma extend_source_files_removes_witness :
  exists r,
    extend_source_files ["simann.c"; "-simann.c"] optimization_source_files
    = Some r
    /\ "simann.c" ∉ r.
Proof.
  destruct (extend_source_files ["simann.c"; "-simann.c"]
              optimization_source_files) as [r|] eqn:E;
    [|vm_compute in E; discriminate].
  exists r. split; [done|].
  refine (extend_source_files_removes ["simann.c"] _ "simann.c" r _ E).
  apply (bool_decide_unpack _). by vm_compute.
Defined.

(** The call raises exactly when an item is empty. *)
Theorem extend_source_files_raises input_list default_list :
  extend_source_files input_list default_list = None <-> "" ∈ input_list.
Proof.
  revert default_list.
  induction input_list as [|item input_list IH]; intros l.
  - split; [done|]. by intros ?%elem_of_nil.
  - cbn [extend_source_files]. rewrite elem_of_cons.
    destruct item as [|c name]; [split; [by left|done]|].
    assert (Hne : "" = String c name <-> False) by (split; [done|tauto]).
    destruct (Ascii.eqb c "-"); [|case_bool_decide]; rewrite IH; tauto.
Qed.

End Wscript.
